(** * GstSystemClock: the wait / unschedule / async-dispatch state machine

    A shallow embedding of [deps/gstreamer/gst/gstsystemclock.c].

    - Clock entries live in a heap indexed by their address; the queue of
      pending entries is a list of addresses, so that the dispatcher and
      the callers share the entries they point to.
    - Every function of the C file that takes locks, reads the time or
      blocks is a computation in the monad [M]: it threads a [World],
      gives out the list of the synchronisation actions it performed, in
      program order, and asks the
      environment (the host clocks, the blocking primitives, the other
      threads) for an answer each time it blocks or leaves a window in
      which it holds no lock.
    - [GstClockTime] is [guint64] and [GstClockTimeDiff] is [gint64]; both
      are integers of [Z] with the wrap-around written out. *)

From Stdlib Require Import ZArith List Bool Lia.
From stdpp Require Import base gmap list.

Local Open Scope Z_scope.

(** ** Machine integers *)

Definition wrap_u64 (z : Z) : Z := z mod 2 ^ 64.
Definition wrap_i64 (z : Z) : Z := (z + 2 ^ 63) mod 2 ^ 64 - 2 ^ 63.

(** [#define GST_CLOCK_DIFF(s, e) (GstClockTimeDiff)((e) - (s))] on two
    [GstClockTime] values: the difference modulo 2^64, read as signed. *)
Definition GST_CLOCK_DIFF (s e : Z) : Z := wrap_i64 (e - s).

(** Modelled from the spec: the time units of gstclock.h, which is not part
    of the sources at hand. Times are in nanoseconds, so a microsecond is
    1000 and a millisecond 1000000 of them. *)
Definition GST_USECOND : Z := 1000.
Definition GST_MSECOND : Z := 1000000.

(** ** Data model *)

(** Modelled from the spec: the enumeration [GstClockReturn] of gstclock.h,
    restricted to the values that the system clock and the spec name. *)
Inductive GstClockReturn :=
| GST_CLOCK_OK
| GST_CLOCK_EARLY
| GST_CLOCK_UNSCHEDULED
| GST_CLOCK_BUSY
| GST_CLOCK_ERROR
| GST_CLOCK_DONE.

Inductive GstClockEntryType :=
| GST_CLOCK_ENTRY_SINGLE
| GST_CLOCK_ENTRY_PERIODIC.

#[global] Instance GstClockReturn_eq_dec : EqDecision GstClockReturn.
Proof. solve_decision. Defined.

#[global] Instance GstClockEntryType_eq_dec : EqDecision GstClockEntryType.
Proof. solve_decision. Defined.

(** Addresses of clock entries ([GstClockEntry *], [GstClockID]). *)
Abbreviation ptr := nat.

(** [GstClockEntryImpl]: the fields of [GstClockEntry] the file reads or
    writes, and the [initialized] flag of the implementation. [func] tells
    whether a callback is set. The lock and the condition variable appear
    through the events on them. *)
Record GstClockEntryImpl := mkEntry {
  time : Z;
  interval : Z;
  type : GstClockEntryType;
  status : GstClockReturn;
  func : bool;
  initialized : bool
}.

Definition with_status (st : GstClockReturn) (x : GstClockEntryImpl) :=
  mkEntry (time x) (interval x) (type x) st (func x) (initialized x).
Definition with_time (t : Z) (x : GstClockEntryImpl) :=
  mkEntry t (interval x) (type x) (status x) (func x) (initialized x).
Definition with_initialized (b : bool) (x : GstClockEntryImpl) :=
  mkEntry (time x) (interval x) (type x) (status x) (func x) b.

(** [struct _GstSystemClockPrivate]; [thread] tells whether the handle is
    non-NULL. *)
Record GstSystemClockPrivate := mkPriv {
  thread : bool;
  starting : bool;
  stopping : bool;
  entries : list ptr
}.

(** What the calling thread does to locks, condition variables and its
    caller's memory, in program order. *)
Inductive Event :=
| EvClockLock
| EvClockUnlock
| EvClockWait
| EvClockBroadcast
| EvInitEntry (e : ptr)
| EvEntryLock (e : ptr)
| EvEntryUnlock (e : ptr)
| EvEntryWaitUntil (e : ptr) (end_time : Z)
| EvEntryBroadcast (e : ptr)
| EvNanosleep (end_time : Z)
| EvJitter (v : Z)
| EvLogError (st : GstClockReturn) (e : ptr)
| EvWarning
| EvCallback (e : ptr) (t : Z)
| EvRef (e : ptr)
| EvUnref (e : ptr)
| EvThreadNew.

(** What other threads can do to the shared state through the operations
    of this file while the modelled thread holds none of the locks
    involved: write an entry's status under the entry lock, queue an entry
    ([gst_system_clock_id_wait_async]) or ask the dispatcher to stop
    ([gst_system_clock_dispose]). *)
Inductive EnvAct :=
| EnvStatus (p : ptr) (st : GstClockReturn)
| EnvEnqueue (p : ptr)
| EnvStop.

(** One answer of the environment: the clock time and the host monotonic
    time (microseconds) if the thread reads them, the value returned by the
    blocking call if it made one, and what the other threads did
    meanwhile. *)
Record EnvStep := mkEnv {
  env_now : Z;
  env_mono : Z;
  env_ret : Z;
  env_acts : list EnvAct
}.

(** The state shared by the threads: the entries by address and the
    clock's private data; and the environment: the answers it will give,
    in order, and whether a thread can be created. *)
Record World := mkWorld {
  heap : gmap ptr GstClockEntryImpl;
  priv : GstSystemClockPrivate;
  env : list EnvStep;
  threads_available : bool
}.

(** ** The queue of pending entries *)

(** [GST_CLOCK_ENTRY_TIME (entry)]; the queue only holds addresses of
    entries, and 0 stands for the time behind any other address. *)
Definition GST_CLOCK_ENTRY_TIME (h : gmap ptr GstClockEntryImpl) (p : ptr) : Z :=
  match h !! p with Some x => time x | None => 0 end.

(** Modelled from the spec: [gst_clock_id_compare_func] of gstclock.c, which
    is not part of the sources at hand; it orders entries by deadline. *)
Definition gst_clock_id_compare_func (h : gmap ptr GstClockEntryImpl) (id1 id2 : ptr) : Z :=
  if GST_CLOCK_ENTRY_TIME h id2 <? GST_CLOCK_ENTRY_TIME h id1 then 1
  else if GST_CLOCK_ENTRY_TIME h id1 <? GST_CLOCK_ENTRY_TIME h id2 then -1
  else 0.

(** Modelled from the spec: [g_list_insert_sorted] of GLib, which is not
    part of the sources at hand. The spec's [insert_sorted] keeps ascending
    order and, on a tie, inserts after the equal elements already there. *)
Fixpoint g_list_insert_sorted {A : Type} (l : list A) (data : A) (cmp : A → A → Z) : list A :=
  match l with
  | [] => [data]
  | x :: rest =>
      if cmp data x <? 0 then data :: x :: rest
      else x :: g_list_insert_sorted rest data cmp
  end.

(** Modelled from the spec: [g_list_sort] of GLib ([resort()]: re-sort
    after one deadline changed), as a stable insertion sort. *)
Fixpoint sort_insert {A : Type} (cmp : A → A → Z) (x : A) (l : list A) : list A :=
  match l with
  | [] => [x]
  | y :: rest => if cmp x y <=? 0 then x :: y :: rest else y :: sort_insert cmp x rest
  end.

Definition g_list_sort {A : Type} (l : list A) (cmp : A → A → Z) : list A :=
  foldr (sort_insert cmp) [] l.

(** Modelled from the spec: [g_list_remove] of GLib ([remove(entry)]); it
    drops the first node that holds the element. *)
Fixpoint g_list_remove (l : list ptr) (data : ptr) : list ptr :=
  match l with
  | [] => []
  | x :: rest => if decide (x = data) then rest else x :: g_list_remove rest data
  end.

(** ** The monad of the modelled thread *)

Inductive Failure :=
| BadPointer     (* an address that is not an entry was dereferenced *)
| AssertFailed   (* a g_assert failed *)
| EnvExhausted   (* still blocked: the environment gave no further answer *)
| OutOfFuel.     (* a loop ran for more iterations than were granted *)

Inductive Outcome (A : Type) :=
| Ret (a : A) (w : World) (t : list Event)
| Fault (f : Failure) (w : World) (t : list Event).
Arguments Ret {A} a w t.
Arguments Fault {A} f w t.

(** The world a run ends in and the events it gave out, whether it
    returned or stopped at a fault. *)
Definition final {A : Type} (o : Outcome A) : World :=
  match o with Ret _ w _ => w | Fault _ w _ => w end.

Definition trace {A : Type} (o : Outcome A) : list Event :=
  match o with Ret _ _ t => t | Fault _ _ t => t end.

Definition after {A : Type} (t : list Event) (o : Outcome A) : Outcome A :=
  match o with
  | Ret a w t' => Ret a w (t ++ t')
  | Fault f w t' => Fault f w (t ++ t')
  end.

Definition M (A : Type) : Type := World → Outcome A.

#[global] Instance M_ret : MRet M := λ A a w, Ret a w [].
#[global] Instance M_bind : MBind M := λ A B f m w,
  match m w with
  | Ret a w' t => after t (f a w')
  | Fault e w' t => Fault e w' t
  end.

Definition fault {A : Type} (f : Failure) : M A := λ w, Fault f w [].

Definition emit (ev : Event) : M unit := λ w, Ret tt w [ev].

Definition load (p : ptr) : M GstClockEntryImpl := λ w,
  match heap w !! p with
  | Some x => Ret x w []
  | None => Fault BadPointer w []
  end.

Definition store (p : ptr) (x : GstClockEntryImpl) : M unit := λ w,
  Ret tt (mkWorld (<[p := x]> (heap w)) (priv w) (env w) (threads_available w)) [].

Definition get_priv : M GstSystemClockPrivate := λ w, Ret (priv w) w [].

Definition set_priv (p : GstSystemClockPrivate) : M unit := λ w,
  Ret tt (mkWorld (heap w) p (env w) (threads_available w)) [].

Definition set_entries (l : list ptr) : M unit :=
  p ← get_priv; set_priv (mkPriv (thread p) (starting p) (stopping p) l).

(** [g_thread_try_new]: whether the dispatcher thread could be created. *)
Definition g_thread_try_new : M bool := λ w, Ret (threads_available w) w [].

Definition get_heap : M (gmap ptr GstClockEntryImpl) := λ w, Ret (heap w) w [].

(** [GST_CLOCK_ENTRY_STATUS (entry)] read and written. *)
Definition get_status (e : ptr) : M GstClockReturn := x ← load e; mret (status x).
Definition set_status (e : ptr) (st : GstClockReturn) : M unit :=
  x ← load e; store e (with_status st x).

(** The effect of one action of another thread on the entries and on the
    clock's private data. A status is written in place; an entry is queued
    in sorted position, compared through the deadlines of that moment. *)
Definition act_heap (a : EnvAct) (h : gmap ptr GstClockEntryImpl) : gmap ptr GstClockEntryImpl :=
  match a with
  | EnvStatus p st =>
      match h !! p with
      | Some x => <[p := with_status st x]> h
      | None => h
      end
  | _ => h
  end.

Definition act_priv (a : EnvAct) (h : gmap ptr GstClockEntryImpl)
    (q : GstSystemClockPrivate) : GstSystemClockPrivate :=
  match a with
  | EnvStatus _ _ => q
  | EnvEnqueue p =>
      mkPriv (thread q) (starting q) (stopping q)
        (g_list_insert_sorted (entries q) p (gst_clock_id_compare_func h))
  | EnvStop => mkPriv (thread q) (starting q) true (entries q)
  end.

Definition interfere (acts : list EnvAct)
    (hq : gmap ptr GstClockEntryImpl * GstSystemClockPrivate) :
    gmap ptr GstClockEntryImpl * GstSystemClockPrivate :=
  foldl (λ hq a, (act_heap a hq.1, act_priv a hq.1 hq.2)) hq acts.

(** The thread blocks, or runs without the lock that protects what it
    reads next: the environment's answer is consumed and the other
    threads' actions take effect. *)
Definition yield : M EnvStep := λ w,
  match env w with
  | [] => Fault EnvExhausted w []
  | s :: rest =>
      let hq := interfere (env_acts s) (heap w, priv w) in
      Ret s (mkWorld hq.1 hq.2 rest (threads_available w)) []
  end.

(** ** Observations on traces *)

(** The values written through the [jitter] pointer, the callbacks
    delivered with the time they were given, and the wake-ups sent. *)
Definition jitter_writes (t : list Event) : list Z :=
  omap (λ ev, match ev with EvJitter v => Some v | _ => None end) t.

Definition callbacks (t : list Event) : list (ptr * Z) :=
  omap (λ ev, match ev with EvCallback e d => Some (e, d) | _ => None end) t.

Definition callbacks_of (p : ptr) (t : list Event) : list Z :=
  omap (λ c : ptr * Z, if decide (c.1 = p) then Some c.2 else None) (callbacks t).

Definition signals (t : list Event) : list Event :=
  omap (λ ev, match ev with
              | EvClockBroadcast | EvEntryBroadcast _ => Some ev
              | _ => None
              end) t.

Definition blocking_calls (t : list Event) : list Event :=
  omap (λ ev, match ev with
              | EvClockWait | EvEntryWaitUntil _ _ | EvNanosleep _ => Some ev
              | _ => None
              end) t.

(** ** The functions of gstsystemclock.c *)

(** [ensure_entry_initialized]; must be called with the clock lock. The
    mutex and the condition variable that [init_entry] creates appear as
    one event. *)
Definition ensure_entry_initialized (entry : ptr) : M unit :=
  x ← load entry;
  if initialized x then mret tt
  else emit (EvInitEntry entry);; store entry (with_initialized true x).

(** [gst_system_clock_id_unschedule] *)
Definition gst_system_clock_id_unschedule (entry : ptr) : M unit :=
  emit EvClockLock;;
  ensure_entry_initialized entry;;
  emit (EvEntryLock entry);;
  st ← get_status entry;
  set_status entry GST_CLOCK_UNSCHEDULED;;
  (if decide (st = GST_CLOCK_BUSY) then emit (EvEntryBroadcast entry) else mret tt);;
  emit (EvEntryUnlock entry);;
  emit EvClockUnlock.

(** The window of [gst_system_clock_id_wait_jitter_unlocked] in which the
    entry lock is released to read [gst_clock_get_time (clock)] and
    [g_get_monotonic_time ()]. *)
Definition read_times (entry : ptr) : M (Z * Z) :=
  emit (EvEntryUnlock entry);;
  w ← yield;
  emit (EvEntryLock entry);;
  mret (wrap_u64 (env_now w), wrap_i64 (env_mono w)).

(** [gst_system_clock_start_async]; must be called with the clock lock.
    [threads_available] is what [g_thread_try_new] would answer. The wait
    for the new thread to spin up, [while (priv->starting)
    GST_SYSTEM_CLOCK_WAIT (clock)], releases the clock lock: the other
    threads run, the new thread among them, which clears [starting] and
    wakes the waiter. One answer of the environment stands for the whole of
    that wait, at the end of which [starting] is FALSE; the queue and the
    [stopping] flag are those the other threads left. *)
Definition gst_system_clock_start_async : M bool :=
  p ← get_priv;
  if thread p then mret true
  else
    set_priv (mkPriv (thread p) true (stopping p) (entries p));;
    emit EvThreadNew;;
    created ← g_thread_try_new;
    if (created : bool) then
      set_priv (mkPriv true true (stopping p) (entries p));;
      emit EvClockWait;;
      yield;;
      p' ← get_priv;
      set_priv (mkPriv (thread p') false (stopping p') (entries p'));;
      mret true
    else
      set_priv (mkPriv (thread p) false (stopping p) (entries p));;
      emit EvWarning;;
      mret false.

(** [gst_system_clock_id_wait_async] *)
Definition gst_system_clock_id_wait_async (entry : ptr) : M GstClockReturn :=
  emit EvClockLock;;
  started ← gst_system_clock_start_async;
  if negb started then
    emit EvClockUnlock;; mret GST_CLOCK_ERROR
  else
    ensure_entry_initialized entry;;
    emit (EvEntryLock entry);;
    st ← get_status entry;
    if decide (st = GST_CLOCK_UNSCHEDULED) then
      emit (EvEntryUnlock entry);; emit EvClockUnlock;; mret GST_CLOCK_UNSCHEDULED
    else
      emit (EvEntryUnlock entry);;
      p ← get_priv;
      let head := hd_error (entries p) in
      emit (EvRef entry);;
      h ← get_heap;
      set_entries (g_list_insert_sorted (entries p) entry (gst_clock_id_compare_func h));;
      p' ← get_priv;
      match entries p' with
      | [] => fault BadPointer
      | first :: _ =>
          (if decide (first = entry) then
             match head with
             | None => emit EvClockBroadcast
             | Some hd =>
                 x ← load hd;
                 if negb (initialized x) then fault AssertFailed
                 else
                   emit (EvEntryLock hd);;
                   (if decide (status x = GST_CLOCK_BUSY)
                    then emit (EvEntryBroadcast hd) else mret tt);;
                   emit (EvEntryUnlock hd)
             end
           else mret tt);;
          emit EvClockUnlock;;
          mret GST_CLOCK_OK
      end.

(** *** Stopping the clock *)

(** The loop of [gst_system_clock_dispose] over the queue: every entry is
    marked Unscheduled, without its lock; the node without predecessor,
    the head, has its condition broadcast under its lock. [first] tells
    whether the node has no predecessor. *)
Fixpoint dispose_entries (first : bool) (l : list ptr) : M unit :=
  match l with
  | [] => mret tt
  | entry :: rest =>
      set_status entry GST_CLOCK_UNSCHEDULED;;
      (if first then
         x ← load entry;
         if negb (initialized x) then fault AssertFailed
         else
           emit (EvEntryLock entry);;
           emit (EvEntryBroadcast entry);;
           emit (EvEntryUnlock entry)
       else mret tt);;
      dispose_entries false rest
  end.

(** The part of [gst_system_clock_dispose] that runs under the clock lock,
    up to the point where the dispatcher thread is joined. *)
Definition gst_system_clock_dispose_stop : M unit :=
  emit EvClockLock;;
  p ← get_priv;
  set_priv (mkPriv (thread p) (starting p) true (entries p));;
  dispose_entries true (entries p);;
  emit EvClockBroadcast;;
  emit EvClockUnlock.

(** *** The default system clock *)

(** The two static variables [_the_system_clock] (NULL or the address of a
    clock) and [_external_default_clock]. *)
Record Singleton := mkSingleton {
  the_system_clock : option ptr;
  external_default_clock : bool
}.

(** What the functions on the default clock do to [_gst_sysclock_mutex]
    and to the reference counts of clocks. *)
Inductive ObjEvent :=
| ObjMutexLock
| ObjMutexUnlock
| ObjNew (c : ptr)
| ObjRefSink (c : ptr)
| ObjMayBeLeaked (c : ptr)
| ObjRef (c : ptr)
| ObjUnref (c : ptr).

(** [gst_system_clock_set_default]; [new_clock] is [None] for NULL. *)
Definition gst_system_clock_set_default (new_clock : option ptr) (g : Singleton) :
    Singleton * list ObjEvent :=
  let unref_old :=
    match the_system_clock g with
    | Some clock => [ObjUnref clock]
    | None => []
    end in
  match new_clock with
  | None =>
      (mkSingleton None false, [ObjMutexLock] ++ unref_old ++ [ObjMutexUnlock])
  | Some c =>
      (mkSingleton (Some c) true,
       [ObjMutexLock] ++ unref_old ++ [ObjRef c; ObjMutexUnlock])
  end.

(** [gst_system_clock_obtain]; [fresh] is the address [g_object_new] gives
    if it is called, and [None] stands for the failure of the
    [g_assert]. *)
Definition gst_system_clock_obtain (fresh : ptr) (g : Singleton) :
    option (ptr * Singleton * list ObjEvent) :=
  match the_system_clock g with
  | None =>
      if external_default_clock g then None
      else
        Some (fresh, mkSingleton (Some fresh) (external_default_clock g),
              [ObjMutexLock; ObjNew fresh; ObjRefSink fresh; ObjMayBeLeaked fresh;
               ObjMutexUnlock; ObjRef fresh])
  | Some clock => Some (clock, g, [ObjMutexLock; ObjMutexUnlock; ObjRef clock])
  end.

(** A call of one of the two functions on the default clock. *)
Inductive DefaultCall :=
| CallSetDefault (new_clock : option ptr)
| CallObtain (fresh : ptr).

(** A sequence of calls: the state it ends in, the events of the calls in
    order, and the clocks the calls of [gst_system_clock_obtain] returned;
    [None] if an assertion failed. *)
Fixpoint run_default (calls : list DefaultCall) (g : Singleton) :
    option (Singleton * list ObjEvent * list ptr) :=
  match calls with
  | [] => Some (g, [], [])
  | CallSetDefault c :: rest =>
      let r := gst_system_clock_set_default c g in
      match run_default rest r.1 with
      | Some (g', evs, obtained) => Some (g', r.2 ++ evs, obtained)
      | None => None
      end
  | CallObtain fresh :: rest =>
      match gst_system_clock_obtain fresh g with
      | Some (clock, g1, evs1) =>
          match run_default rest g1 with
          | Some (g', evs, obtained) => Some (g', evs1 ++ evs, clock :: obtained)
          | None => None
          end
      | None => None
      end
  end.

(** The references the functions on the default clock hold on the clock
    [c] after the events [evs]: a new object comes with one reference,
    which [gst_object_ref_sink] makes the creator's own. *)
Definition ref_delta (c : ptr) (ev : ObjEvent) : Z :=
  match ev with
  | ObjNew d | ObjRef d => if decide (d = c) then 1 else 0
  | ObjUnref d => if decide (d = c) then -1 else 0
  | _ => 0
  end.

Definition refs_held (c : ptr) (evs : list ObjEvent) : Z :=
  foldr (λ ev n, ref_delta c ev + n) 0 evs.

Definition is_default (c : ptr) (g : Singleton) : Z :=
  if decide (the_system_clock g = Some c) then 1 else 0.

Definition handed_out (c : ptr) (obtained : list ptr) : Z :=
  Z.of_nat (length (filter (λ d, d = c) obtained)).

(** The state of a process that made no call yet, and the invariant of
    the two variables: an external default clock is never NULL. *)
Definition default_initial : Singleton := mkSingleton None false.

Definition default_consistent (g : Singleton) : Prop :=
  the_system_clock g = None → external_default_clock g = false.

(** *** The futex condition variable *)

Inductive FutexEvent :=
| FxUnlock
| FxLock
| FxWaitTime64 (sampled sec nsec : Z)
| FxWait (sampled sec nsec : Z)
| FxWakeTime64
| FxWake.

Definition G_MAXINT32 : Z := 2147483647.

Section Futex.

(** The configuration: whether [HAVE_FUTEX_TIME64] and [HAVE_FUTEX] are
    defined, whether [futex_time64] may be used at run time (always, except
    on Android before API level 30), whether [__kernel_long_t] has 64
    bits, and the values of the two error numbers. *)
Variables HAVE_FUTEX_TIME64 HAVE_FUTEX : bool.
Variable time64_available : bool.
Variable long_is_64 : bool.
Variables ENOSYS ETIMEDOUT : Z.

(** [success = (res < 0 && errno == ETIMEDOUT) ? FALSE : TRUE] for the
    answer [(res, errno)] of a system call. *)
Definition futex_success (a : Z * Z) : bool :=
  negb ((a.1 <? 0) && (a.2 =? ETIMEDOUT)).

(** The test [res >= 0 || errno != ENOSYS] that ends the attempt with
    [futex_time64]. *)
Definition time64_settled (a : Z * Z) : bool :=
  (0 <=? a.1) || negb (a.2 =? ENOSYS).

(** [gst_futex_cond_wait_until (cond_val, mutex, end_time)]; [cond_val] is
    the value of the counter, [a1] and [a2] are the answers of the first
    and of the second system call, if they are made. The result is [None]
    when an assertion fails. Division and remainder are those of C. *)
Definition gst_futex_cond_wait_until (cond_val end_time : Z) (a1 a2 : Z * Z) :
    option bool * list FutexEvent :=
  if end_time <? 0 then (Some false, [])
  else
    let sampled := cond_val in
    let sec := end_time ÷ 1000000000 in
    let nsec := Z.rem end_time 1000000000 in
    let legacy (a : Z * Z) (before : list FutexEvent) :=
      if long_is_64 || (sec <=? G_MAXINT32) then
        (Some (futex_success a), before ++ [FxWait sampled sec nsec; FxLock])
      else (None, before) in
    if HAVE_FUTEX_TIME64 && time64_available then
      if HAVE_FUTEX then
        if time64_settled a1 then
          (Some (futex_success a1), [FxUnlock; FxWaitTime64 sampled sec nsec; FxLock])
        else legacy a2 [FxUnlock; FxWaitTime64 sampled sec nsec]
      else
        (Some (futex_success a1), [FxUnlock; FxWaitTime64 sampled sec nsec; FxLock])
    else if HAVE_FUTEX then legacy a1 [FxUnlock]
    else (None, [FxUnlock]).

(** [gst_futex_cond_broadcast (cond_val)]: the new value of the counter, a
    [guint], and the system calls made. *)
Definition gst_futex_cond_broadcast (cond_val : Z) (a1 : Z * Z) : Z * list FutexEvent :=
  let cond_val' := (cond_val + 1) mod 2 ^ 32 in
  if HAVE_FUTEX_TIME64 && time64_available then
    if HAVE_FUTEX then
      if time64_settled a1 then (cond_val', [FxWakeTime64])
      else (cond_val', [FxWakeTime64; FxWake])
    else (cond_val', [FxWakeTime64])
  else if HAVE_FUTEX then (cond_val', [FxWake])
  else (cond_val', []).

End Futex.

(** Unfolding the monad in a goal or in a hypothesis. *)
Ltac run :=
  unfold mbind, M_bind, mret, M_ret, emit, load, store, get_priv, set_priv, get_heap,
    fault, g_thread_try_new;
  cbn [heap priv env threads_available thread starting stopping entries
       time interval type status func initialized
       with_status with_time with_initialized final trace after fst snd app].

Ltac run_in H :=
  unfold mbind, M_bind, mret, M_ret, emit, load, store, get_priv, set_priv, get_heap,
    fault, g_thread_try_new in H;
  cbn [heap priv env threads_available thread starting stopping entries
       time interval type status func initialized
       with_status with_time with_initialized final trace after fst snd app] in H.

Section Platform.

(** The configuration the file is compiled for: the value of the macro
    [CLOCK_MIN_WAIT_TIME] (100 with futexes, 500 with pthread condition
    variables, [GST_USECOND] or [GST_MSECOND] with GLib's) and whether
    [HAVE_CLOCK_NANOSLEEP] is defined. *)
Variable CLOCK_MIN_WAIT_TIME : Z.
Variable HAVE_CLOCK_NANOSLEEP : bool.

(** One pass through the body of [while (TRUE)] in
    [gst_system_clock_id_wait_jitter_unlocked], and the passes after it.
    [GST_SYSTEM_CLOCK_ENTRY_WAIT_UNTIL] returns TRUE (non-zero) when the
    condition was signalled and FALSE when the end time was reached;
    [clock_nanosleep] returns 0 when the sleep completed. The value
    returned is the environment's answer [env_ret]. After the wait, [st]
    is the local [status]; the second test of it against Unscheduled,
    which cannot hold once the first has failed, is left out. *)
Fixpoint wait_loop (fuel : nat) (entry : ptr) (restart : bool)
    (entryt diff mono_ts : Z) : M GstClockReturn :=
  match fuel with
  | O => fault OutOfFuel
  | S fuel' =>
      waitret ←
        (if HAVE_CLOCK_NANOSLEEP && (diff <=? 500 * GST_USECOND) then
           emit (EvEntryUnlock entry);;
           emit (EvNanosleep (wrap_i64 (mono_ts * 1000 + diff)));;
           w ← yield;
           emit (EvEntryLock entry);;
           mret (env_ret w =? 0)
         else
           let diff :=
             if HAVE_CLOCK_NANOSLEEP && (diff <? 2 * GST_MSECOND)
             then diff - 500 * GST_USECOND else diff in
           emit (EvEntryWaitUntil entry (wrap_i64 (mono_ts * 1000 + diff)));;
           w ← yield;
           mret (negb (env_ret w =? 0)));
      st ← get_status entry;
      if decide (st = GST_CLOCK_UNSCHEDULED) then mret st
      else
        (if decide (st = GST_CLOCK_BUSY) then mret tt else emit (EvLogError st entry));;
        set_status entry GST_CLOCK_DONE;;
        if waitret && negb restart then mret st
        else
          tm ← read_times entry;
          st ← get_status entry;
          if decide (st = GST_CLOCK_UNSCHEDULED) then mret st
          else
            let diff := GST_CLOCK_DIFF (fst tm) entryt in
            if diff <=? CLOCK_MIN_WAIT_TIME then
              set_status entry GST_CLOCK_OK;; mret GST_CLOCK_OK
            else
              set_status entry GST_CLOCK_BUSY;;
              wait_loop fuel' entry restart entryt diff (snd tm)
  end.

(** [gst_system_clock_id_wait_jitter_unlocked]; [jitter] tells whether the
    pointer is non-NULL, and a write through it is the event [EvJitter]. *)
Definition gst_system_clock_id_wait_jitter_unlocked (fuel : nat) (entry : ptr)
    (jitter restart : bool) : M GstClockReturn :=
  tm ← read_times entry;
  st ← get_status entry;
  if decide (st = GST_CLOCK_UNSCHEDULED) then mret GST_CLOCK_UNSCHEDULED
  else
    x ← load entry;
    let entryt := time x in
    let diff := GST_CLOCK_DIFF (fst tm) entryt in
    (if jitter then emit (EvJitter (wrap_i64 (- diff))) else mret tt);;
    if CLOCK_MIN_WAIT_TIME <? diff then
      wait_loop fuel entry restart entryt diff (snd tm)
    else if diff =? 0 then
      set_status entry GST_CLOCK_OK;; mret GST_CLOCK_OK
    else
      set_status entry GST_CLOCK_EARLY;; mret GST_CLOCK_EARLY.

(** [gst_system_clock_id_wait_jitter] *)
Definition gst_system_clock_id_wait_jitter (fuel : nat) (entry : ptr)
    (jitter : bool) : M GstClockReturn :=
  emit EvClockLock;;
  ensure_entry_initialized entry;;
  emit EvClockUnlock;;
  emit (EvEntryLock entry);;
  st ← get_status entry;
  if decide (st = GST_CLOCK_UNSCHEDULED) then
    emit (EvEntryUnlock entry);; mret st
  else
    (if decide (st = GST_CLOCK_OK) then mret tt else emit (EvLogError st entry));;
    set_status entry GST_CLOCK_BUSY;;
    r ← gst_system_clock_id_wait_jitter_unlocked fuel entry jitter true;
    emit (EvEntryUnlock entry);;
    mret r.

(** The dispatcher takes the clock lock again after a window in which it
    held no lock (and may have run a callback): the other threads'
    actions of that window take effect first. *)
Definition relock_clock : M unit := yield;; emit EvClockLock.

(** The labels [unlock_entry_and_next_entry] and [next_entry] of
    [gst_system_clock_async_thread]. *)
Definition next_entry (entry : ptr) : M unit :=
  relock_clock;;
  p ← get_priv;
  set_entries (g_list_remove (entries p) entry);;
  emit (EvUnref entry).

Definition unlock_entry_and_next_entry (entry : ptr) : M unit :=
  emit (EvEntryUnlock entry);; next_entry entry.

(** The loop [while (!priv->stopping)] of [gst_system_clock_async_thread],
    entered with the clock lock held. The inner loop that waits for the
    queue to fill is folded into the outer one: after a wake-up that is not
    a stop, the outer test holds and the queue is looked at again. *)
Fixpoint async_loop (fuel : nat) : M unit :=
  match fuel with
  | O => fault OutOfFuel
  | S fuel' =>
      p ← get_priv;
      if stopping p then mret tt
      else
        match entries p with
        | [] =>
            emit EvClockWait;;
            yield;;
            p ← get_priv;
            if stopping p then mret tt else async_loop fuel'
        | entry :: _ =>
            x ← load entry;
            if negb (initialized x) then fault AssertFailed
            else
              emit (EvEntryLock entry);;
              let st := status x in
              if decide (st = GST_CLOCK_UNSCHEDULED) then
                emit EvClockUnlock;;
                unlock_entry_and_next_entry entry;;
                async_loop fuel'
              else
                (if decide (st ≠ GST_CLOCK_OK ∧ st ≠ GST_CLOCK_EARLY)
                 then emit (EvLogError st entry) else mret tt);;
                set_status entry GST_CLOCK_BUSY;;
                let requested := time x in
                emit EvClockUnlock;;
                res ← gst_system_clock_id_wait_jitter_unlocked fuel' entry false false;
                match res with
                | GST_CLOCK_UNSCHEDULED =>
                    unlock_entry_and_next_entry entry;;
                    async_loop fuel'
                | GST_CLOCK_OK | GST_CLOCK_EARLY =>
                    emit (EvEntryUnlock entry);;
                    y ← load entry;
                    (if func y then emit (EvCallback entry (time y)) else mret tt);;
                    if decide (type y = GST_CLOCK_ENTRY_PERIODIC) then
                      relock_clock;;
                      z ← load entry;
                      store entry (with_time (wrap_u64 (requested + interval z)) z);;
                      q ← get_priv;
                      h ← get_heap;
                      set_entries (g_list_sort (entries q) (gst_clock_id_compare_func h));;
                      async_loop fuel'
                    else
                      next_entry entry;;
                      async_loop fuel'
                | GST_CLOCK_BUSY =>
                    set_status entry GST_CLOCK_OK;;
                    emit (EvEntryUnlock entry);;
                    relock_clock;;
                    async_loop fuel'
                | _ =>
                    emit EvWarning;;
                    unlock_entry_and_next_entry entry;;
                    async_loop fuel'
                end
        end
  end.

(** [gst_system_clock_async_thread] *)
Definition gst_system_clock_async_thread (fuel : nat) : M unit :=
  emit EvClockLock;;
  p ← get_priv;
  set_priv (mkPriv (thread p) false (stopping p) (entries p));;
  emit EvClockBroadcast;;
  async_loop fuel;;
  emit EvClockBroadcast;;
  emit EvClockUnlock.


(** What [gst_system_clock_id_wait_jitter] does once the entry is marked
    Busy: the wait core with [restart] set, then the unlock. *)
Definition sync_wait_body (fuel : nat) (e : ptr) (jitter : bool) : M GstClockReturn :=
  r ← gst_system_clock_id_wait_jitter_unlocked fuel e jitter true;
  emit (EvEntryUnlock e);;
  mret r.

(** The spec's rule for a synchronous wait on an entry whose status is
    found to be neither OK nor Unscheduled, read literally: the call does
    not return that status. *)
Definition sync_wait_claimed (fuel : nat) (e : ptr) (jitter : bool) (w : World) : Prop :=
  ∀ x r w' t,
    heap w !! e = Some x →
    status x ≠ GST_CLOCK_OK →
    status x ≠ GST_CLOCK_UNSCHEDULED →
    gst_system_clock_id_wait_jitter fuel e jitter w = Ret r w' t →
    r ≠ status x.

(** ** Worlds reached by the functions, and what they signal *)

(** The world after a window in which the other threads ran. *)
Definition after_window (step : EnvStep) (rest : list EnvStep) (w : World) : World :=
  mkWorld (interfere (env_acts step) (heap w, priv w)).1
          (interfere (env_acts step) (heap w, priv w)).2
          rest (threads_available w).

(** The world [w] with the status of the entry at [e], read as [x], set
    to [st]. *)
Definition put_status (e : ptr) (st : GstClockReturn) (x : GstClockEntryImpl)
    (w : World) : World :=
  mkWorld (<[e := with_status st x]> (heap w)) (priv w) (env w) (threads_available w).

(** The world after [ensure_entry_initialized] on the entry at [e], read
    as [x]. *)
Definition init_world (e : ptr) (x : GstClockEntryImpl) (w : World) : World :=
  mkWorld (<[e := with_initialized true x]> (heap w)) (priv w) (env w) (threads_available w).

(** The dispatcher thread is running or can be created. *)
Definition dispatcher_available (w : World) : bool :=
  thread (priv w) || threads_available w.

(** The world in which a new dispatcher thread has spun up: the thread
    exists, the other threads' actions of the wait for it (the answer
    [step] of the environment) have taken effect, and [starting] is
    FALSE. *)
Definition spun_up_world (step : EnvStep) (rest : list EnvStep) (w : World) : World :=
  let w1 :=
    after_window step rest
      (mkWorld (heap w) (mkPriv true true (stopping (priv w)) (entries (priv w)))
         (env w) (threads_available w)) in
  mkWorld (heap w1) (mkPriv (thread (priv w1)) false (stopping (priv w1)) (entries (priv w1)))
    (env w1) (threads_available w1).

(** The world after [gst_system_clock_start_async], in which
    [gst_system_clock_id_wait_async] looks at the entry and at the queue:
    the world of the call if the thread was running; the world in which
    the new thread has spun up if it could be created; the world of the
    call with [starting] FALSE if it could not. While the environment has
    not answered the wait for the new thread, the call has not returned. *)
Definition started_world (w : World) : World :=
  if thread (priv w) then w
  else if threads_available w then
    match env w with
    | step :: rest => spun_up_world step rest w
    | [] => w
    end
  else mkWorld (heap w)
         (mkPriv false false (stopping (priv w)) (entries (priv w)))
         (env w) (threads_available w).

(** What [gst_system_clock_start_async] does to threads and conditions. *)
Definition start_events (w : World) : list Event :=
  if thread (priv w) then []
  else if threads_available w then [EvThreadNew; EvClockWait]
  else [EvThreadNew; EvWarning].

(** [gst_system_clock_start_async] is not kept waiting for a new thread
    to spin up: the thread runs already, or cannot be created, or the
    environment answers the wait. *)
Definition start_answered (w : World) : bool :=
  thread (priv w) || negb (threads_available w) ||
  match env w with [] => false | _ :: _ => true end.

(** The wake-ups [gst_system_clock_id_wait_async] sends after it has put
    [e] into a queue that was [q], [first] being the new head. *)
Definition head_signals (h : gmap ptr GstClockEntryImpl) (q : list ptr) (first e : ptr) :
    list Event :=
  if decide (first = e) then
    match q with
    | [] => [EvClockBroadcast]
    | hd :: _ =>
        if decide (status <$> (h !! hd) = Some GST_CLOCK_BUSY)
        then [EvEntryBroadcast hd] else []
    end
  else [].

(** The spec's rule for the results of an asynchronous submission, read
    literally: Error if and only if the dispatcher is not available,
    Unscheduled if and only if the entry's status is Unscheduled when it
    is submitted. *)
Definition wait_async_claimed (e : ptr) (w : World) : Prop :=
  ∀ r w' t,
    gst_system_clock_id_wait_async e w = Ret r w' t →
    (r = GST_CLOCK_ERROR ↔ dispatcher_available w = false) ∧
    (r = GST_CLOCK_UNSCHEDULED ↔ status <$> (heap w !! e) = Some GST_CLOCK_UNSCHEDULED).

(** What [gst_system_clock_id_wait_jitter] does before it looks at the
    status of the entry, read as [x]. *)
Definition sync_wait_prefix (e : ptr) (x : GstClockEntryImpl) : list Event :=
  [EvClockLock] ++ (if initialized x then [] else [EvInitEntry e]) ++
  [EvClockUnlock; EvEntryLock e].

(** ** Specifications of computations *)

(** The fields of an entry other than [status] and [initialized]. *)
Definition statics (x : GstClockEntryImpl) : Z * Z * GstClockEntryType * bool :=
  (time x, interval x, type x, func x).

(** A computation that leaves those fields of every entry as they are,
    writes nothing through [jitter] and delivers no callback. *)
Definition quiet {A : Type} (m : M A) : Prop :=
  ∀ w, statics <$> heap (final (m w)) = statics <$> heap w ∧
       jitter_writes (trace (m w)) = [] ∧ callbacks (trace (m w)) = [].

(** A triple over the events given out so far and the world, with one
    postcondition for the runs that return and one for the runs that stop
    at a fault. *)
Definition hoare {A : Type} (P : list Event → World → Prop) (m : M A)
    (Q : A → list Event → World → Prop) (F : list Event → World → Prop) : Prop :=
  ∀ t0 w, P t0 w →
    match m w with
    | Ret a w' t => Q a (t0 ++ t) w'
    | Fault _ w' t => F (t0 ++ t) w'
    end.

(** A predicate that only depends on the callbacks delivered and on
    those fields of the entries. *)
Definition stable (P : list Event → World → Prop) : Prop :=
  ∀ t t' w w', callbacks t' = callbacks t →
    statics <$> heap w' = statics <$> heap w → P t w → P t' w'.

(** ** Sample worlds *)

(** A world with the entries [h], the dispatcher running, the queue [q]
    and the environment's answers [script]. *)
Definition world_of (h : gmap ptr GstClockEntryImpl) (q : list ptr)
    (script : list EnvStep) : World :=
  mkWorld h (mkPriv true false false q) script true.

(** The clock reads [now], a wait times out and no other thread acts. *)
Definition quiet_step_at (now : Z) : EnvStep := mkEnv now 0 0 [].

(** Scenario 3 of the spec: a periodic entry at 20 with interval 30; each
    wait returns at once and late by a different amount. *)
Definition periodic_world : World :=
  world_of {[ 1%nat := mkEntry 20 30 GST_CLOCK_ENTRY_PERIODIC GST_CLOCK_OK true true ]}
    [1%nat]
    [quiet_step_at 25; quiet_step_at 0; quiet_step_at 90; quiet_step_at 0;
     quiet_step_at 200; quiet_step_at 0].

(** The dispatcher thread is neither running nor can it be created, and
    the entry that is submitted is already Unscheduled: the call returns
    Error. *)
Definition no_thread_world : World :=
  mkWorld {[ 1%nat := mkEntry 1000 0 GST_CLOCK_ENTRY_SINGLE GST_CLOCK_UNSCHEDULED true true ]}
    (mkPriv false false false []) [] false.

(** A queue whose head, due at 50, is being waited for, and an entry due
    at 40 (it becomes the head) or at 50 (it goes behind the head). *)
Definition queue_heap : gmap ptr GstClockEntryImpl :=
  {[ 1%nat := mkEntry 40 0 GST_CLOCK_ENTRY_SINGLE GST_CLOCK_OK true false;
     2%nat := mkEntry 50 0 GST_CLOCK_ENTRY_SINGLE GST_CLOCK_BUSY true true;
     3%nat := mkEntry 50 0 GST_CLOCK_ENTRY_SINGLE GST_CLOCK_OK true false ]}.

(** An entry the dispatcher is waiting for, due at 300100 ns. *)
Definition short_wait_entry : GstClockEntryImpl :=
  mkEntry 300100 0 GST_CLOCK_ENTRY_SINGLE GST_CLOCK_BUSY true true.

(** An entry due at one millisecond; the clock reads 0, the wait on the
    entry's condition times out, and the clock reads one millisecond. *)
Definition sync_world (st : GstClockReturn) (ini : bool) : World :=
  world_of {[ 1%nat := mkEntry 1000000 0 GST_CLOCK_ENTRY_SINGLE st false ini ]} []
    [quiet_step_at 0; mkEnv 0 0 0 []; quiet_step_at 1000000].

(** ** The locking discipline *)

(** The locks the modelled thread holds: the clock's object lock, and the
    lock of at most one entry. *)
Record Locks := mkLocks {
  clock_held : bool;
  entry_held : option ptr
}.

Definition unlocked : Locks := mkLocks false None.

(** One event checked against the discipline; [None] when the event
    breaks it. The clock lock is taken before an entry lock, never after;
    at most one entry lock is held; the clock's condition is waited for and
    signalled, and an entry's mutex is created, with the clock lock held;
    an entry's condition is waited for and signalled with the lock of that
    entry held, and waited for without the clock lock; a sleep is made, and
    a callback is run, with no lock held. *)
Definition lock_step (L : Locks) (ev : Event) : option Locks :=
  match ev with
  | EvClockLock =>
      match clock_held L, entry_held L with
      | false, None => Some (mkLocks true None)
      | _, _ => None
      end
  | EvClockUnlock =>
      if clock_held L then Some (mkLocks false (entry_held L)) else None
  | EvClockWait =>
      match clock_held L, entry_held L with
      | true, None => Some L
      | _, _ => None
      end
  | EvClockBroadcast | EvInitEntry _ =>
      if clock_held L then Some L else None
  | EvEntryLock e =>
      match entry_held L with
      | None => Some (mkLocks (clock_held L) (Some e))
      | Some _ => None
      end
  | EvEntryUnlock e =>
      if decide (entry_held L = Some e) then Some (mkLocks (clock_held L) None) else None
  | EvEntryWaitUntil e _ =>
      if decide (clock_held L = false ∧ entry_held L = Some e) then Some L else None
  | EvEntryBroadcast e =>
      if decide (entry_held L = Some e) then Some L else None
  | EvNanosleep _ | EvCallback _ _ =>
      match clock_held L, entry_held L with
      | false, None => Some L
      | _, _ => None
      end
  | EvJitter _ | EvLogError _ _ | EvWarning | EvRef _ | EvUnref _ | EvThreadNew => Some L
  end.

Fixpoint lock_run (L : Locks) (t : list Event) : option Locks :=
  match t with
  | [] => Some L
  | ev :: t' =>
      match lock_step L ev with
      | Some L' => lock_run L' t'
      | None => None
      end
  end.

(** A computation that, entered with the locks [L], keeps the discipline
    in every run, also in one that stops at a fault (a failed assertion,
    a blocked call, a loop cut short), and holds the locks [L'] when it
    returns. *)
Definition disciplined {A : Type} (L : Locks) (m : M A) (L' : Locks) : Prop :=
  ∀ w, match m w with
       | Ret _ _ t => lock_run L t = Some L'
       | Fault _ _ t => is_Some (lock_run L t)
       end.

(** The discipline of a function that takes every entry lock on one side
    of the clock lock. [inside] tells whether the clock lock must be held
    when an entry lock is taken (the operations that other threads call on
    the clock: the entry lock nests inside the clock lock) or must have
    been released (the synchronous wait, which gives up the clock lock
    before it takes the entry lock). An entry lock taken on the other side
    breaks it; every other event is checked as above. The dispatcher does
    both: it takes the head's lock inside the clock lock, and takes it
    again, after a time read or a sleep, outside. *)
Definition lock_step_at (inside : bool) (L : Locks) (ev : Event) : option Locks :=
  match ev with
  | EvEntryLock _ =>
      if bool_decide (clock_held L = inside) then lock_step L ev else None
  | _ => lock_step L ev
  end.

Fixpoint lock_run_at (inside : bool) (L : Locks) (t : list Event) : option Locks :=
  match t with
  | [] => Some L
  | ev :: t' =>
      match lock_step_at inside L ev with
      | Some L' => lock_run_at inside L' t'
      | None => None
      end
  end.

Definition disciplined_at {A : Type} (inside : bool) (L : Locks) (m : M A) (L' : Locks) :
    Prop :=
  ∀ w, match m w with
       | Ret _ _ t => lock_run_at inside L t = Some L'
       | Fault _ _ t => is_Some (lock_run_at inside L t)
       end.

(** A computation that gives out no event. *)
Definition silent {A : Type} (m : M A) : Prop := ∀ w, trace (m w) = [].

(** ** Entries that stay unscheduled *)

(** An action of another thread that does not write a status other than
    Unscheduled to the entry [p]; an environment all of whose actions are
    such. *)
Definition act_leaves_unscheduled (p : ptr) (a : EnvAct) : bool :=
  match a with
  | EnvStatus q st => negb (bool_decide (q = p)) || bool_decide (st = GST_CLOCK_UNSCHEDULED)
  | _ => true
  end.

Definition env_leaves_unscheduled (p : ptr) (script : list EnvStep) : bool :=
  forallb (λ s, forallb (act_leaves_unscheduled p) (env_acts s)) script.

Definition unscheduled (p : ptr) (w : World) : Prop :=
  status <$> (heap w !! p) = Some GST_CLOCK_UNSCHEDULED.


(** A computation that keeps an invariant, in the runs that return and in
    those that stop at a fault. *)
Definition keeps {A : Type} (J : list Event → World → Prop) (m : M A) : Prop :=
  hoare J m (λ _, J) J.

(** ** References, and what a submission leaves alone *)

(** The entries a reference was taken on ([gst_clock_id_ref]). *)
Definition refs (t : list Event) : list ptr :=
  omap (λ ev, match ev with EvRef q => Some q | _ => None end) t.

(** The threads created ([g_thread_try_new]). *)
Definition threads_created (t : list Event) : list unit :=
  omap (λ ev, match ev with EvThreadNew => Some () | _ => None end) t.

(** The fields of an entry other than [initialized]. *)
Definition contents (x : GstClockEntryImpl) :
    Z * Z * GstClockEntryType * bool * GstClockReturn :=
  (statics x, status x).

(** Every queued address is an entry whose lock has been created. *)
Definition queue_ready (w : World) : Prop :=
  Forall (λ q, initialized <$> (heap w !! q) = Some true) (entries (priv w)).

(** ** Runs that only stop for want of an answer or of fuel *)

(** The faults that are not errors of the program: the environment gave
    no further answer, or the loop was cut short. *)
Definition benign (f : Failure) : Prop := f = EnvExhausted ∨ f = OutOfFuel.

(** The other threads only queue entries whose lock has been created, as
    [gst_system_clock_id_wait_async] does; [h] holds the entries at the
    start. *)
Definition env_enqueues_ready (h : gmap ptr GstClockEntryImpl) (script : list EnvStep) : bool :=
  forallb (λ s,
    forallb (λ a, match a with
                  | EnvEnqueue q => bool_decide (initialized <$> (h !! q) = Some true)
                  | _ => true
                  end) (env_acts s)) script.

(** An address that is an entry of [h] whose lock has been created. *)
Definition ready_at (h : gmap ptr GstClockEntryImpl) (q : ptr) : Prop :=
  initialized <$> (h !! q) = Some true.

(** The entries whose lock was created at the start still have it, the
    queue holds such entries only, and so will the other threads'
    submissions. *)
Definition ready_inv (h0 : gmap ptr GstClockEntryImpl) (w : World) : Prop :=
  (∀ q, initialized <$> (h0 !! q) = Some true → initialized <$> (heap w !! q) = Some true) ∧
  Forall (λ q, initialized <$> (h0 !! q) = Some true) (entries (priv w)) ∧
  env_enqueues_ready h0 (env w) = true.

(** A computation that, from a world where [J] holds, returns with [Q] or
    stops at a benign fault. *)
Definition safe {A : Type} (J : World → Prop) (m : M A) (Q : A → World → Prop) : Prop :=
  ∀ w, J w → match m w with
             | Ret a w' _ => Q a w'
             | Fault f _ _ => benign f
             end.

(** ** The creation of the entry locks *)

(** The entries whose mutex and condition were created ([init_entry]). *)
Definition inits (t : list Event) : list ptr :=
  omap (λ ev, match ev with EvInitEntry e => Some e | _ => None end) t.

(** The lock of [q] exists and was not created again. *)
Definition lock_kept (q : ptr) (t : list Event) (w : World) : Prop :=
  ready_at (heap w) q ∧ Forall (λ e, e ≠ q) (inits t).

(** ** The references of the queue *)

(** The entries a reference was dropped on ([gst_clock_id_unref]), the
    entries the other threads will queue, and the number of times an
    address occurs in a list. *)
Definition unrefs (t : list Event) : list ptr :=
  omap (λ ev, match ev with EvUnref e => Some e | _ => None end) t.

Definition act_enqueues (acts : list EnvAct) : list ptr :=
  omap (λ a, match a with EnvEnqueue e => Some e | _ => None end) acts.

Definition enqueues (script : list EnvStep) : list ptr :=
  flat_map (λ s, act_enqueues (env_acts s)) script.

Definition occ (q : ptr) (l : list ptr) : nat := length (filter (λ e, e = q) l).

(** The occurrences of [q] in the queue, the references dropped on it and
    the submissions of it still to come add up to [n]. *)
Definition balanced (q : ptr) (n : nat) (t : list Event) (w : World) : Prop :=
  (occ q (entries (priv w)) + occ q (unrefs t) + occ q (enqueues (env w)) = n)%nat.

(** The same, while the dispatcher works on the queued entry [e]. *)
Definition balanced_at (q : ptr) (n : nat) (e : ptr) (t : list Event) (w : World) : Prop :=
  balanced q n t w ∧ e ∈ entries (priv w).

(** ** Computations that concern one entry only *)


(** ** Passes of the dispatcher loop *)

(** The world after the dispatcher has taken the clock lock again and
    removed [e] from the queue. *)
Definition dequeued_world (e : ptr) (w : World) : World :=
  mkWorld (heap w)
    (mkPriv (thread (priv w)) (starting (priv w)) (stopping (priv w))
       (g_list_remove (entries (priv w)) e))
    (env w) (threads_available w).

(** What one pass of [wait_loop] does to wait, and whether the wait ended
    by a wake-up ([waitret] TRUE), for the answer [s] of the environment. *)
Definition wait_events (e : ptr) (diff mono_ts : Z) : list Event :=
  if HAVE_CLOCK_NANOSLEEP && (diff <=? 500 * GST_USECOND) then
    [EvEntryUnlock e; EvNanosleep (wrap_i64 (mono_ts * 1000 + diff)); EvEntryLock e]
  else
    [EvEntryWaitUntil e
       (wrap_i64 (mono_ts * 1000 +
                  (if HAVE_CLOCK_NANOSLEEP && (diff <? 2 * GST_MSECOND)
                   then diff - 500 * GST_USECOND else diff)))].

Definition wait_woken (s : EnvStep) (diff : Z) : bool :=
  if HAVE_CLOCK_NANOSLEEP && (diff <=? 500 * GST_USECOND)
  then env_ret s =? 0 else negb (env_ret s =? 0).

(** ** Further sample worlds *)

(** A queue whose head was unscheduled and whose second entry, due at 20,
    is found late at 25; another thread unschedules the head once more,
    and the clock is stopped while the dispatcher waits for work. *)
Definition skip_world : World :=
  world_of
    {[ 1%nat := mkEntry 10 0 GST_CLOCK_ENTRY_SINGLE GST_CLOCK_UNSCHEDULED true true;
       2%nat := mkEntry 20 0 GST_CLOCK_ENTRY_SINGLE GST_CLOCK_OK true true ]}
    [1%nat; 2%nat]
    [mkEnv 0 0 0 [EnvStatus 1 GST_CLOCK_UNSCHEDULED]; quiet_step_at 25; quiet_step_at 0;
     mkEnv 0 0 0 [EnvStop]].

(** A single-shot entry due at 20 at the head, found late at 25. *)
Definition due_entry : GstClockEntryImpl :=
  mkEntry 20 0 GST_CLOCK_ENTRY_SINGLE GST_CLOCK_OK true true.

Definition due_world : World :=
  world_of {[ 1%nat := due_entry ]} [1%nat] [quiet_step_at 25; quiet_step_at 0].


(** An entry that is being waited for, in a queue of its own. *)
Definition busy_world : World :=
  world_of {[ 1%nat := mkEntry 1000 0 GST_CLOCK_ENTRY_SINGLE GST_CLOCK_BUSY true true ]}
    [1%nat] [].

(** No dispatcher thread runs yet, and one can be created. Entry 1, whose
    status is OK, is submitted; while the new thread spins up, another
    thread unschedules it. *)
Definition spin_up_world : World :=
  mkWorld queue_heap (mkPriv false false false [])
    [mkEnv 0 0 0 [EnvStatus 1 GST_CLOCK_UNSCHEDULED]] true.

(** The same, with an empty queue at the call; while the new thread spins
    up, another thread queues entry 2, due at 50, and the dispatcher starts
    to wait for it, which marks it Busy. Entry 1, due at 40, becomes the
    head in front of it. *)
Definition spin_up_queue_world : World :=
  mkWorld queue_heap (mkPriv false false false [])
    [mkEnv 0 0 0 [EnvEnqueue 2; EnvStatus 2 GST_CLOCK_BUSY]] true.

(** An entry due at 20 that an earlier wait left Early; the clock reads
    25. *)
Definition early_entry : GstClockEntryImpl :=
  mkEntry 20 0 GST_CLOCK_ENTRY_SINGLE GST_CLOCK_EARLY false true.

Definition early_world : World :=
  world_of {[ 1%nat := early_entry ]} [] [quiet_step_at 25].

(** Calls on the default clock: it is created on demand, replaced by an
    external clock, and reset. *)
Definition default_calls : list DefaultCall :=
  [CallObtain 1; CallObtain 5; CallSetDefault (Some 2%nat); CallObtain 3;
   CallSetDefault None; CallObtain 4].

(** An entry due at one millisecond at the head; the clock reads 0, the
    wait on the entry's condition is ended by a wake-up. *)
Definition woken_world : World :=
  world_of {[ 1%nat := mkEntry 1000000 0 GST_CLOCK_ENTRY_SINGLE GST_CLOCK_OK true true ]}
    [1%nat] [quiet_step_at 0; mkEnv 0 0 1 []; quiet_step_at 0].

(** An entry due at 300100 ns at the head; the clock reads 100 ns, the
    sleep completes, and the clock reads 300100 ns. *)
Definition sleep_entry : GstClockEntryImpl :=
  mkEntry 300100 0 GST_CLOCK_ENTRY_SINGLE GST_CLOCK_OK true true.

Definition sleep_world : World :=
  world_of {[ 1%nat := sleep_entry ]} [1%nat]
    [quiet_step_at 100; quiet_step_at 0; quiet_step_at 0; quiet_step_at 300100;
     quiet_step_at 0].

(** A queue of two entries; the clock is disposed while the dispatcher
    waits for the head: [stopping] is set and both entries are
    unscheduled. *)
Definition disposed_world : World :=
  world_of
    {[ 1%nat := mkEntry 1000000 0 GST_CLOCK_ENTRY_SINGLE GST_CLOCK_OK true true;
       2%nat := mkEntry 2000000 0 GST_CLOCK_ENTRY_SINGLE GST_CLOCK_OK true true ]}
    [1%nat; 2%nat]
    [quiet_step_at 0;
     mkEnv 0 0 1 [EnvStop; EnvStatus 1 GST_CLOCK_UNSCHEDULED;
                  EnvStatus 2 GST_CLOCK_UNSCHEDULED];
     quiet_step_at 0].

(** ** Reasoning about computations *)

Lemma after_nil {A : Type} (o : Outcome A) : after [] o = o.
Proof. by destruct o. Qed.

Lemma after_after {A : Type} (t1 t2 : list Event) (o : Outcome A) :
  after t1 (after t2 o) = after (t1 ++ t2) o.
Proof. destruct o; cbn [after]; by rewrite app_assoc. Qed.

Lemma final_after {A : Type} (t : list Event) (o : Outcome A) : final (after t o) = final o.
Proof. by destruct o. Qed.

Lemma trace_after {A : Type} (t : list Event) (o : Outcome A) :
  trace (after t o) = t ++ trace o.
Proof. by destruct o. Qed.

Lemma after_ret_inv {A : Type} (t t' : list Event) (o : Outcome A) (a : A) (w : World) :
  after t o = Ret a w t' → ∃ t2, o = Ret a w t2 ∧ t' = t ++ t2.
Proof. destruct o; cbn [after]; [| discriminate]. intros [= -> -> <-]. eauto. Qed.

Lemma bind_ret_inv {A B : Type} (m : M A) (f : A → M B) (w w' : World) (b : B)
    (t : list Event) :
  (m ≫= f) w = Ret b w' t →
  ∃ a w1 t1 t2, m w = Ret a w1 t1 ∧ f a w1 = Ret b w' t2 ∧ t = t1 ++ t2.
Proof.
  unfold mbind, M_bind. destruct (m w) as [a w1 t1|e w1 t1]; [| discriminate].
  intros (t2 & H & ->)%after_ret_inv. by exists a, w1, t1, t2.
Qed.

Lemma ret_inv {A : Type} (a b : A) (w w' : World) (t : list Event) :
  mret (M := M) a w = Ret b w' t → a = b ∧ w = w' ∧ t = [].
Proof. unfold mret, M_ret. by intros [= -> -> <-]. Qed.

Lemma hoare_bind {A B : Type} (P : list Event → World → Prop) (m : M A) (f : A → M B)
    (Q : A → list Event → World → Prop) (R : B → list Event → World → Prop)
    (F : list Event → World → Prop) :
  hoare P m Q F → (∀ a, hoare (Q a) (f a) R F) → hoare P (m ≫= f) R F.
Proof.
  intros Hm Hf t0 w HP. specialize (Hm t0 w HP). unfold mbind, M_bind.
  destruct (m w) as [a w1 t1|e w1 t1]; [| done].
  specialize (Hf a _ _ Hm). destruct (f a w1); cbn [after]; by rewrite app_assoc.
Qed.

Lemma hoare_ret {A : Type} (P : list Event → World → Prop) (a : A)
    (Q : A → list Event → World → Prop) (F : list Event → World → Prop) :
  (∀ t w, P t w → Q a t w) → hoare P (mret a) Q F.
Proof. intros H t0 w HP. unfold mret, M_ret. rewrite app_nil_r. by apply H. Qed.

Lemma hoare_fault {A : Type} (P : list Event → World → Prop) (e : Failure)
    (Q : A → list Event → World → Prop) (F : list Event → World → Prop) :
  (∀ t w, P t w → F t w) → hoare P (fault e) Q F.
Proof. intros H t0 w HP. unfold fault. rewrite app_nil_r. by apply H. Qed.

Lemma hoare_pre {A : Type} (P P' : list Event → World → Prop) (m : M A)
    (Q : A → list Event → World → Prop) (F : list Event → World → Prop) :
  (∀ t w, P' t w → P t w) → hoare P m Q F → hoare P' m Q F.
Proof. intros H Hm t0 w HP. apply Hm, H, HP. Qed.

Lemma hoare_post {A : Type} (P : list Event → World → Prop) (m : M A)
    (Q Q' : A → list Event → World → Prop) (F F' : list Event → World → Prop) :
  (∀ a t w, Q a t w → Q' a t w) → (∀ t w, F t w → F' t w) →
  hoare P m Q F → hoare P m Q' F'.
Proof.
  intros HQ HF Hm t0 w HP. specialize (Hm t0 w HP).
  destruct (m w); [by apply HQ | by apply HF].
Qed.

Lemma quiet_ret {A : Type} (a : A) : quiet (mret a).
Proof. done. Qed.

Lemma quiet_fault {A : Type} (e : Failure) : quiet (fault (A := A) e).
Proof. done. Qed.

Lemma quiet_bind {A B : Type} (m : M A) (f : A → M B) :
  quiet m → (∀ a, quiet (f a)) → quiet (m ≫= f).
Proof.
  intros Hm Hf w. destruct (Hm w) as (Hh & Hj & Hc). unfold mbind, M_bind.
  destruct (m w) as [a w1 t1|e w1 t1]; cbn [final trace] in *; [| done].
  destruct (Hf a w1) as (Hh' & Hj' & Hc').
  rewrite final_after, trace_after. unfold jitter_writes, callbacks in *.
  rewrite !omap_app, Hj, Hj', Hc, Hc', Hh', Hh. done.
Qed.

Lemma quiet_emit (ev : Event) :
  jitter_writes [ev] = [] → callbacks [ev] = [] → quiet (emit ev).
Proof. intros Hj Hc w. done. Qed.

Lemma quiet_load (p : ptr) : quiet (load p).
Proof. intros w. unfold load. by destruct (heap w !! p). Qed.

Lemma quiet_get_status (p : ptr) : quiet (get_status p).
Proof. apply quiet_bind; [apply quiet_load | intros; apply quiet_ret]. Qed.

Lemma statics_insert_same (h : gmap ptr GstClockEntryImpl) (p : ptr)
    (x y : GstClockEntryImpl) :
  h !! p = Some x → statics y = statics x → statics <$> <[p := y]> h = statics <$> h.
Proof.
  intros Hp Hs. rewrite fmap_insert, Hs. apply insert_id.
  by rewrite lookup_fmap, Hp.
Qed.

Lemma quiet_set_status (p : ptr) (st : GstClockReturn) : quiet (set_status p st).
Proof.
  intros w. unfold set_status. run.
  destruct (heap w !! p) as [x|] eqn:Hp; run; [| done].
  by rewrite (statics_insert_same _ _ x).
Qed.

Lemma quiet_ensure_entry_initialized (p : ptr) : quiet (ensure_entry_initialized p).
Proof.
  intros w. unfold ensure_entry_initialized. run.
  destruct (heap w !! p) as [x|] eqn:Hp; run; [| done].
  destruct (initialized x); run; [done |].
  by rewrite (statics_insert_same _ _ x).
Qed.

Lemma quiet_get_priv : quiet get_priv.
Proof. done. Qed.

Lemma quiet_get_heap : quiet get_heap.
Proof. done. Qed.

Lemma quiet_set_priv (q : GstSystemClockPrivate) : quiet (set_priv q).
Proof. done. Qed.

Lemma quiet_set_entries (l : list ptr) : quiet (set_entries l).
Proof. done. Qed.

Lemma interfere_statics (acts : list EnvAct) (h : gmap ptr GstClockEntryImpl)
    (q : GstSystemClockPrivate) :
  statics <$> (interfere acts (h, q)).1 = statics <$> h.
Proof.
  revert h q. induction acts as [|a acts IH]; intros h q; [done |].
  unfold interfere in *. cbn [foldl fst snd]. rewrite IH.
  destruct a as [p st| |]; cbn [act_heap]; try done.
  destruct (h !! p) as [x|] eqn:Hp; [| done].
  by apply statics_insert_same with x.
Qed.

Lemma quiet_yield : quiet yield.
Proof.
  intros w. unfold yield. destruct (env w) as [|s rest]; [done |].
  cbn [final heap trace]. by rewrite interfere_statics.
Qed.

Lemma quiet_read_times (e : ptr) : quiet (read_times e).
Proof.
  unfold read_times.
  repeat first [ apply quiet_bind; [| intros ?] | apply quiet_ret
               | apply quiet_yield | by apply quiet_emit ].
Qed.

Ltac quiet_step :=
  first
    [ apply quiet_ret | apply quiet_fault | apply quiet_load | apply quiet_get_status
    | apply quiet_set_status | apply quiet_yield | apply quiet_read_times
    | apply quiet_get_priv | apply quiet_get_heap | apply quiet_set_priv
    | apply quiet_set_entries | apply quiet_ensure_entry_initialized
    | by apply quiet_emit
    | apply quiet_bind; [| intros ?]
    | match goal with |- quiet (if ?c then _ else _) => destruct c end
    | match goal with |- quiet (let _ := _ in _) => cbv zeta end ].

Lemma quiet_wait_loop (fuel : nat) (e : ptr) (restart : bool) (entryt diff mono_ts : Z) :
  quiet (wait_loop fuel e restart entryt diff mono_ts).
Proof.
  revert diff mono_ts. induction fuel as [|fuel IH]; intros diff mono_ts; cbn [wait_loop].
  - apply quiet_fault.
  - repeat first [ apply IH | quiet_step ].
Qed.

(** ** The wait core *)

Lemma yield_run (w : World) (step : EnvStep) (rest : list EnvStep) :
  env w = step :: rest → yield w = Ret step (after_window step rest w) [].
Proof. intros Henv. unfold yield. by rewrite Henv. Qed.

Lemma read_times_run (e : ptr) (w : World) (step : EnvStep) (rest : list EnvStep) :
  env w = step :: rest →
  read_times e w =
  Ret (wrap_u64 (env_now step), wrap_i64 (env_mono step)) (after_window step rest w)
      [EvEntryUnlock e; EvEntryLock e].
Proof.
  intros Henv. unfold read_times. run. rewrite (yield_run _ _ _ Henv). by run.
Qed.

Lemma set_status_run (e : ptr) (st : GstClockReturn) (w : World) (x : GstClockEntryImpl) :
  heap w !! e = Some x → set_status e st w = Ret tt (put_status e st x w) [].
Proof. intros H. unfold set_status. run. by rewrite H. Qed.

Lemma get_status_run (e : ptr) (w : World) (x : GstClockEntryImpl) :
  heap w !! e = Some x → get_status e w = Ret (status x) w [].
Proof. intros H. unfold get_status. run. by rewrite H. Qed.

Lemma load_run (e : ptr) (w : World) (x : GstClockEntryImpl) :
  heap w !! e = Some x → load e w = Ret x w [].
Proof. intros H. unfold load. by rewrite H. Qed.

(** The start of [gst_system_clock_id_wait_jitter_unlocked], up to the
    test of [diff] against [CLOCK_MIN_WAIT_TIME], for an entry that is not
    found Unscheduled. *)
Lemma wait_core_start (fuel : nat) (e : ptr) (jitter restart : bool) (w : World)
    (step : EnvStep) (rest : list EnvStep) (x : GstClockEntryImpl) :
  env w = step :: rest →
  heap (after_window step rest w) !! e = Some x →
  status x ≠ GST_CLOCK_UNSCHEDULED →
  gst_system_clock_id_wait_jitter_unlocked fuel e jitter restart w =
  after ([EvEntryUnlock e; EvEntryLock e] ++
         (if jitter
          then [EvJitter (wrap_i64 (- GST_CLOCK_DIFF (wrap_u64 (env_now step)) (time x)))]
          else []))
    ((if CLOCK_MIN_WAIT_TIME <? GST_CLOCK_DIFF (wrap_u64 (env_now step)) (time x) then
        wait_loop fuel e restart (time x)
          (GST_CLOCK_DIFF (wrap_u64 (env_now step)) (time x)) (wrap_i64 (env_mono step))
      else if GST_CLOCK_DIFF (wrap_u64 (env_now step)) (time x) =? 0 then
        set_status e GST_CLOCK_OK;; mret GST_CLOCK_OK
      else
        set_status e GST_CLOCK_EARLY;; mret GST_CLOCK_EARLY) (after_window step rest w)).
Proof.
  intros Henv Hx Hst.
  unfold gst_system_clock_id_wait_jitter_unlocked.
  unfold mbind at 1, M_bind at 1. rewrite (read_times_run e w step rest Henv).
  unfold mbind at 1, M_bind at 1. rewrite (get_status_run _ _ _ Hx).
  destruct (decide (status x = GST_CLOCK_UNSCHEDULED)) as [|_]; [done |].
  unfold mbind at 1, M_bind at 1. rewrite (load_run _ _ _ Hx).
  cbn [fst snd].
  destruct jitter; unfold mbind at 1, M_bind at 1; run; by rewrite !after_after.
Qed.

(** C1. When the entry is not Unscheduled at the re-check and the computed
    diff is at most CLOCK_MIN_WAIT_TIME, the wait core returns after the
    single time read, without any blocking call: Early with status Early
    when diff is not 0, OK with status OK when diff is 0. *)
Theorem wait_core_floor (fuel : nat) (e : ptr) (jitter restart : bool) (w : World)
    (step : EnvStep) (rest : list EnvStep) (x : GstClockEntryImpl) :
  env w = step :: rest →
  heap (after_window step rest w) !! e = Some x →
  status x ≠ GST_CLOCK_UNSCHEDULED →
  GST_CLOCK_DIFF (wrap_u64 (env_now step)) (time x) ≤ CLOCK_MIN_WAIT_TIME →
  ∃ r,
    r = (if GST_CLOCK_DIFF (wrap_u64 (env_now step)) (time x) =? 0
         then GST_CLOCK_OK else GST_CLOCK_EARLY) ∧
    gst_system_clock_id_wait_jitter_unlocked fuel e jitter restart w =
      Ret r (put_status e r x (after_window step rest w))
        ([EvEntryUnlock e; EvEntryLock e] ++
         (if jitter
          then [EvJitter (wrap_i64 (- GST_CLOCK_DIFF (wrap_u64 (env_now step)) (time x)))]
          else [])) ∧
    blocking_calls
      (trace (gst_system_clock_id_wait_jitter_unlocked fuel e jitter restart w)) = [].
Proof.
  intros Henv Hx Hst Hdiff. eexists. split; [reflexivity |].
  rewrite (wait_core_start fuel e jitter restart w step rest x Henv Hx Hst).
  assert ((CLOCK_MIN_WAIT_TIME <? GST_CLOCK_DIFF (wrap_u64 (env_now step)) (time x)) = false)
    as -> by lia.
  destruct (GST_CLOCK_DIFF (wrap_u64 (env_now step)) (time x) =? 0);
    unfold mbind, M_bind; rewrite (set_status_run _ _ _ _ Hx); run;
    rewrite app_nil_r; (split; [reflexivity |]); by destruct jitter.
Qed.

Lemma wait_core_unscheduled (fuel : nat) (e : ptr) (jitter restart : bool) (w : World)
    (step : EnvStep) (rest : list EnvStep) (x : GstClockEntryImpl) :
  env w = step :: rest →
  heap (after_window step rest w) !! e = Some x →
  status x = GST_CLOCK_UNSCHEDULED →
  gst_system_clock_id_wait_jitter_unlocked fuel e jitter restart w =
  Ret GST_CLOCK_UNSCHEDULED (after_window step rest w) [EvEntryUnlock e; EvEntryLock e].
Proof.
  intros Henv Hx Hst.
  unfold gst_system_clock_id_wait_jitter_unlocked.
  unfold mbind at 1, M_bind at 1. rewrite (read_times_run e w step rest Henv).
  unfold mbind at 1, M_bind at 1. rewrite (get_status_run _ _ _ Hx).
  destruct (decide (status x = GST_CLOCK_UNSCHEDULED)) as [_|]; [| done].
  by run.
Qed.

Lemma wrap_i64_small (z : Z) : - 2 ^ 63 ≤ z < 2 ^ 63 → wrap_i64 z = z.
Proof. intros H. unfold wrap_i64. rewrite Z.mod_small; lia. Qed.

Lemma wrap_u64_small (z : Z) : 0 ≤ z < 2 ^ 64 → wrap_u64 z = z.
Proof. intros H. unfold wrap_u64. rewrite Z.mod_small; lia. Qed.

(** C9. With a non-NULL [jitter]: an entry found Unscheduled at the first
    re-check makes the wait core return Unscheduled without a write
    through [jitter]; past that check there is exactly one write, of minus
    the diff computed from the first time read, whatever happens later in
    the call. The value is -(deadline - now) whenever that difference fits
    [GstClockTimeDiff]. *)
Theorem jitter_written_once (fuel : nat) (e : ptr) (restart : bool) (w : World)
    (step : EnvStep) (rest : list EnvStep) (x : GstClockEntryImpl) :
  env w = step :: rest →
  heap (after_window step rest w) !! e = Some x →
  (status x = GST_CLOCK_UNSCHEDULED →
     gst_system_clock_id_wait_jitter_unlocked fuel e true restart w =
       Ret GST_CLOCK_UNSCHEDULED (after_window step rest w)
         [EvEntryUnlock e; EvEntryLock e] ∧
     jitter_writes (trace (gst_system_clock_id_wait_jitter_unlocked fuel e true restart w))
       = []) ∧
  (status x ≠ GST_CLOCK_UNSCHEDULED →
     jitter_writes (trace (gst_system_clock_id_wait_jitter_unlocked fuel e true restart w))
       = [wrap_i64 (- GST_CLOCK_DIFF (wrap_u64 (env_now step)) (time x))]) ∧
  (- 2 ^ 63 < time x - wrap_u64 (env_now step) < 2 ^ 63 →
     wrap_i64 (- GST_CLOCK_DIFF (wrap_u64 (env_now step)) (time x))
       = - (time x - wrap_u64 (env_now step))).
Proof.
  intros Henv Hx. split; [| split].
  - intros Hst. rewrite (wait_core_unscheduled fuel e true restart w step rest x) by done.
    done.
  - intros Hst. rewrite (wait_core_start fuel e true restart w step rest x) by done.
    rewrite trace_after. unfold jitter_writes at 1. rewrite omap_app.
    cbn [omap list_omap app]. f_equal.
    match goal with |- omap _ (trace (?m _)) = _ => assert (quiet m) as Hq end.
    { repeat first [ apply quiet_wait_loop | quiet_step ]. }
    apply Hq.
  - intros Hr. unfold GST_CLOCK_DIFF. rewrite (wrap_i64_small (time x - _)) by lia.
    apply wrap_i64_small. lia.
Qed.

(** With [restart] set, the loop of the wait core only returns OK or
    Unscheduled. *)
Lemma wait_loop_restart_result (fuel : nat) (e : ptr) (entryt diff mono_ts : Z)
    (w w' : World) (r : GstClockReturn) (t : list Event) :
  wait_loop fuel e true entryt diff mono_ts w = Ret r w' t →
  r = GST_CLOCK_OK ∨ r = GST_CLOCK_UNSCHEDULED.
Proof.
  revert diff mono_ts w t. induction fuel as [|fuel IH]; intros diff mono_ts w t H;
    cbn [wait_loop] in H; [discriminate |].
  apply bind_ret_inv in H as (waitret & w1 & ? & ? & _ & H & _).
  apply bind_ret_inv in H as (st & w2 & ? & ? & _ & H & _).
  destruct (decide (st = GST_CLOCK_UNSCHEDULED)) as [->|_].
  { apply ret_inv in H as (<- & _). by right. }
  apply bind_ret_inv in H as ([] & w3 & ? & ? & _ & H & _).
  apply bind_ret_inv in H as ([] & w4 & ? & ? & _ & H & _).
  rewrite andb_false_r in H.
  apply bind_ret_inv in H as (tm & w5 & ? & ? & _ & H & _).
  apply bind_ret_inv in H as (st2 & w6 & ? & ? & _ & H & _).
  destruct (decide (st2 = GST_CLOCK_UNSCHEDULED)) as [->|_].
  { apply ret_inv in H as (<- & _). by right. }
  cbv zeta in H. destruct (_ <=? CLOCK_MIN_WAIT_TIME).
  - apply bind_ret_inv in H as ([] & w7 & ? & ? & _ & H & _).
    apply ret_inv in H as (<- & _). by left.
  - apply bind_ret_inv in H as ([] & w7 & ? & ? & _ & H & _). by eapply IH.
Qed.

Lemma wait_core_restart_result (fuel : nat) (e : ptr) (jitter : bool)
    (w w' : World) (r : GstClockReturn) (t : list Event) :
  gst_system_clock_id_wait_jitter_unlocked fuel e jitter true w = Ret r w' t →
  r = GST_CLOCK_OK ∨ r = GST_CLOCK_EARLY ∨ r = GST_CLOCK_UNSCHEDULED.
Proof.
  unfold gst_system_clock_id_wait_jitter_unlocked. intros H.
  apply bind_ret_inv in H as (tm & w1 & ? & ? & _ & H & _).
  apply bind_ret_inv in H as (st & w2 & ? & ? & _ & H & _).
  destruct (decide (st = GST_CLOCK_UNSCHEDULED)) as [->|_].
  { apply ret_inv in H as (<- & _). auto. }
  apply bind_ret_inv in H as (ent & w3 & ? & ? & _ & H & _). cbv zeta in H.
  apply bind_ret_inv in H as ([] & w4 & ? & ? & _ & H & _).
  destruct (CLOCK_MIN_WAIT_TIME <? _).
  - apply wait_loop_restart_result in H as [->| ->]; auto.
  - destruct (_ =? 0);
      apply bind_ret_inv in H as ([] & w5 & ? & ? & _ & H & _);
      apply ret_inv in H as (<- & _); auto.
Qed.

Lemma sync_wait_result (fuel : nat) (e : ptr) (jitter : bool)
    (w w' : World) (r : GstClockReturn) (t : list Event) :
  gst_system_clock_id_wait_jitter fuel e jitter w = Ret r w' t →
  r = GST_CLOCK_OK ∨ r = GST_CLOCK_EARLY ∨ r = GST_CLOCK_UNSCHEDULED.
Proof.
  unfold gst_system_clock_id_wait_jitter. intros H.
  apply bind_ret_inv in H as ([] & w1 & ? & ? & _ & H & _).
  apply bind_ret_inv in H as ([] & w2 & ? & ? & _ & H & _).
  apply bind_ret_inv in H as ([] & w3 & ? & ? & _ & H & _).
  apply bind_ret_inv in H as ([] & w4 & ? & ? & _ & H & _).
  apply bind_ret_inv in H as (st & w5 & ? & ? & _ & H & _).
  destruct (decide (st = GST_CLOCK_UNSCHEDULED)) as [->|_].
  { apply bind_ret_inv in H as ([] & w6 & ? & ? & _ & H & _).
    apply ret_inv in H as (<- & _). auto. }
  apply bind_ret_inv in H as ([] & w6 & ? & ? & _ & H & _).
  apply bind_ret_inv in H as ([] & w7 & ? & ? & _ & H & _).
  apply bind_ret_inv in H as (r' & w8 & ? & ? & Hcore & H & _).
  apply bind_ret_inv in H as ([] & w9 & ? & ? & _ & H & _).
  apply ret_inv in H as (<- & _).
  by eapply wait_core_restart_result.
Qed.

(** C8. Whatever the environment does, a synchronous wait that returns
    returns OK, Early or Unscheduled, hence never Busy. *)
Theorem sync_wait_never_busy (fuel : nat) (e : ptr) (jitter : bool)
    (w w' : World) (r : GstClockReturn) (t : list Event) :
  gst_system_clock_id_wait_jitter fuel e jitter w = Ret r w' t →
  (r = GST_CLOCK_OK ∨ r = GST_CLOCK_EARLY ∨ r = GST_CLOCK_UNSCHEDULED) ∧
  r ≠ GST_CLOCK_BUSY.
Proof.
  intros Hr%sync_wait_result. split; [done |]. by destruct Hr as [->|[->| ->]].
Qed.

(** The start of [gst_system_clock_id_wait_jitter] for an entry that is not
    Unscheduled: the entry is initialised, locked and marked Busy, with an
    error logged if its status was not OK, and the wait core runs. *)
Lemma sync_wait_start (fuel : nat) (e : ptr) (jitter : bool) (w : World)
    (x : GstClockEntryImpl) :
  heap w !! e = Some x →
  status x ≠ GST_CLOCK_UNSCHEDULED →
  gst_system_clock_id_wait_jitter fuel e jitter w =
  after (sync_wait_prefix e x ++
         (if decide (status x = GST_CLOCK_OK) then [] else [EvLogError (status x) e]))
    (sync_wait_body fuel e jitter
       (put_status e GST_CLOCK_BUSY (with_initialized true x) w)).
Proof.
  intros Hx Hst.
  unfold gst_system_clock_id_wait_jitter, ensure_entry_initialized, sync_wait_body,
    sync_wait_prefix, put_status, get_status, set_status.
  run. rewrite Hx. destruct x as [tm iv ty st fn ini]. run. cbn [status] in Hst.
  destruct ini; run.
  - rewrite Hx. run. destruct (decide (st = GST_CLOCK_UNSCHEDULED)) as [|_]; [done |].
    destruct (decide (st = GST_CLOCK_OK)); run; rewrite Hx; run;
      rewrite !after_after; reflexivity.
  - rewrite lookup_insert_eq. run.
    destruct (decide (st = GST_CLOCK_UNSCHEDULED)) as [|_]; [done |].
    destruct (decide (st = GST_CLOCK_OK)); run; rewrite lookup_insert_eq; run;
      rewrite insert_insert_eq, !after_after; reflexivity.
Qed.

Lemma trace_bind {A B : Type} (m : M A) (f : A → M B) (w : World) :
  trace ((m ≫= f) w) =
  trace (m w) ++ match m w with Ret a w1 _ => trace (f a w1) | Fault _ _ _ => [] end.
Proof.
  unfold mbind, M_bind. destruct (m w) as [a w1 t1|e w1 t1]; cbn [trace].
  - apply trace_after.
  - by rewrite app_nil_r.
Qed.

Lemma blocking_calls_app (t1 t2 : list Event) :
  blocking_calls (t1 ++ t2) = blocking_calls t1 ++ blocking_calls t2.
Proof. apply omap_app. Qed.

(** A pass of the loop of the wait core starts by the wait or the sleep. *)
Lemma wait_loop_blocks (fuel : nat) (e : ptr) (restart : bool) (entryt diff mono_ts : Z)
    (w : World) :
  ∃ t, blocking_calls (trace (wait_loop (S fuel) e restart entryt diff mono_ts w)) =
       blocking_calls (wait_events e diff mono_ts) ++ t.
Proof.
  cbn [wait_loop]. unfold wait_events. rewrite trace_bind.
  destruct (HAVE_CLOCK_NANOSLEEP && (diff <=? 500 * GST_USECOND)).
  - rewrite blocking_calls_app.
    match goal with |- ∃ t, blocking_calls (trace (?m w)) ++ ?t2 = _ =>
      assert (∃ t1, blocking_calls (trace (m w)) =
                    [EvNanosleep (wrap_i64 (mono_ts * 1000 + diff))] ++ t1) as [t1 ->];
      [| exists (t1 ++ t2); by rewrite app_assoc]
    end.
    run. rewrite !trace_after. cbn [app blocking_calls omap list_omap]. by eexists.
  - rewrite blocking_calls_app.
    match goal with |- ∃ t, blocking_calls (trace (?m w)) ++ ?t2 = _ =>
      assert (∃ t1, blocking_calls (trace (m w)) =
                    blocking_calls
                      [EvEntryWaitUntil e
                         (wrap_i64 (mono_ts * 1000 +
                            (if HAVE_CLOCK_NANOSLEEP && (diff <? 2 * GST_MSECOND)
                             then diff - 500 * GST_USECOND else diff)))] ++ t1) as [t1 ->];
      [| exists (t1 ++ t2); by rewrite app_assoc]
    end.
    run. rewrite !trace_after. cbn [app blocking_calls omap list_omap]. by eexists.
Qed.

Lemma sync_wait_prefix_blocking (e : ptr) (x : GstClockEntryImpl) :
  blocking_calls (sync_wait_prefix e x) = [].
Proof. unfold sync_wait_prefix. by destruct (initialized x). Qed.

(** C10, as the code has it. A synchronous wait on an entry whose status is
    neither OK nor Unscheduled logs the anomaly, overwrites the status with
    Busy and runs the wait core from the world that the same call reaches
    from status OK: the two runs differ by the one logged error. The wait
    then proceeds as any other. For the first answer of the environment: an
    entry that another thread unscheduled meanwhile gives Unscheduled; a
    deadline that is not more than CLOCK_MIN_WAIT_TIME away gives OK or
    Early by the clock alone, so that a prior status of Early is returned
    again when the deadline has passed; a deadline further away is waited
    for, by the wait or the sleep of the first pass of the loop. A result
    is OK, Early or Unscheduled: it is never a prior Busy, Done or Error,
    and it is the prior status only when that is Early. *)
Theorem sync_wait_unexpected_status (fuel : nat) (e : ptr) (jitter : bool) (w : World)
    (x : GstClockEntryImpl) :
  heap w !! e = Some x →
  status x ≠ GST_CLOCK_OK →
  status x ≠ GST_CLOCK_UNSCHEDULED →
  gst_system_clock_id_wait_jitter fuel e jitter w =
    after (sync_wait_prefix e x ++ [EvLogError (status x) e])
      (sync_wait_body fuel e jitter
         (put_status e GST_CLOCK_BUSY (with_initialized true x) w)) ∧
  gst_system_clock_id_wait_jitter fuel e jitter (put_status e GST_CLOCK_OK x w) =
    after (sync_wait_prefix e x)
      (sync_wait_body fuel e jitter
         (put_status e GST_CLOCK_BUSY (with_initialized true x) w)) ∧
  (∀ r w' t, gst_system_clock_id_wait_jitter fuel e jitter w = Ret r w' t →
     (r = GST_CLOCK_OK ∨ r = GST_CLOCK_EARLY ∨ r = GST_CLOCK_UNSCHEDULED) ∧
     (r = status x → r = GST_CLOCK_EARLY)) ∧
  (∀ step rest y,
     env w = step :: rest →
     heap (after_window step rest
             (put_status e GST_CLOCK_BUSY (with_initialized true x) w)) !! e = Some y →
     (status y = GST_CLOCK_UNSCHEDULED →
      gst_system_clock_id_wait_jitter fuel e jitter w =
        Ret GST_CLOCK_UNSCHEDULED
          (after_window step rest (put_status e GST_CLOCK_BUSY (with_initialized true x) w))
          (sync_wait_prefix e x ++
           [EvLogError (status x) e; EvEntryUnlock e; EvEntryLock e; EvEntryUnlock e])) ∧
     (status y ≠ GST_CLOCK_UNSCHEDULED →
      GST_CLOCK_DIFF (wrap_u64 (env_now step)) (time y) ≤ CLOCK_MIN_WAIT_TIME →
      gst_system_clock_id_wait_jitter fuel e jitter w =
        Ret (if GST_CLOCK_DIFF (wrap_u64 (env_now step)) (time y) =? 0
             then GST_CLOCK_OK else GST_CLOCK_EARLY)
          (put_status e
             (if GST_CLOCK_DIFF (wrap_u64 (env_now step)) (time y) =? 0
              then GST_CLOCK_OK else GST_CLOCK_EARLY) y
             (after_window step rest
                (put_status e GST_CLOCK_BUSY (with_initialized true x) w)))
          (sync_wait_prefix e x ++
           [EvLogError (status x) e; EvEntryUnlock e; EvEntryLock e] ++
           (if jitter
            then [EvJitter (wrap_i64 (- GST_CLOCK_DIFF (wrap_u64 (env_now step)) (time y)))]
            else []) ++
           [EvEntryUnlock e])) ∧
     (status y ≠ GST_CLOCK_UNSCHEDULED →
      CLOCK_MIN_WAIT_TIME < GST_CLOCK_DIFF (wrap_u64 (env_now step)) (time y) →
      fuel ≠ 0%nat →
      ∃ t,
        blocking_calls (trace (gst_system_clock_id_wait_jitter fuel e jitter w)) =
        blocking_calls
          (wait_events e (GST_CLOCK_DIFF (wrap_u64 (env_now step)) (time y))
             (wrap_i64 (env_mono step))) ++ t)).
Proof.
  intros Hx Hok Hun. split_and!.
  - rewrite (sync_wait_start fuel e jitter w x Hx Hun).
    by destruct (decide (status x = GST_CLOCK_OK)).
  - rewrite (sync_wait_start fuel e jitter _ (with_status GST_CLOCK_OK x)).
    + cbn [status]. destruct (decide (GST_CLOCK_OK = GST_CLOCK_OK)); [| done].
      rewrite app_nil_r. unfold put_status, sync_wait_prefix. cbn [heap priv env
        threads_available initialized with_status with_initialized time interval type
        func status]. by rewrite insert_insert_eq.
    + unfold put_status. cbn [heap]. by rewrite lookup_insert_eq.
    + done.
  - intros r w' t Hr%sync_wait_result. split; [done |].
    intros ->. by destruct Hr as [?|[?|?]].
  - intros step rest y Henv Hy.
    rewrite (sync_wait_start fuel e jitter w x Hx Hun).
    destruct (decide (status x = GST_CLOCK_OK)) as [|_]; [done |].
    unfold sync_wait_body. split_and!.
    + intros Hsty. unfold mbind at 1, M_bind at 1.
      rewrite (wait_core_unscheduled fuel e jitter true _ step rest y) by done.
      run. by rewrite <- app_assoc.
    + intros Hsty Hdiff. unfold mbind at 1, M_bind at 1.
      rewrite (wait_core_start fuel e jitter true _ step rest y) by done.
      assert ((CLOCK_MIN_WAIT_TIME <? GST_CLOCK_DIFF (wrap_u64 (env_now step)) (time y))
              = false) as -> by lia.
      destruct (GST_CLOCK_DIFF (wrap_u64 (env_now step)) (time y) =? 0);
        unfold mbind at 1, M_bind at 1; rewrite (set_status_run _ _ _ _ Hy); run;
        rewrite <- !app_assoc; by destruct jitter.
    + intros Hsty Hdiff Hfuel. destruct fuel as [|fuel]; [done |].
      rewrite trace_after, trace_bind.
      rewrite (wait_core_start (S fuel) e jitter true _ step rest y) by done.
      assert ((CLOCK_MIN_WAIT_TIME <? GST_CLOCK_DIFF (wrap_u64 (env_now step)) (time y))
              = true) as -> by lia.
      rewrite trace_after, !blocking_calls_app, sync_wait_prefix_blocking.
      destruct (wait_loop_blocks fuel e true (time y)
                  (GST_CLOCK_DIFF (wrap_u64 (env_now step)) (time y))
                  (wrap_i64 (env_mono step))
                  (after_window step rest
                     (put_status e GST_CLOCK_BUSY (with_initialized true x) w)))
        as (t1 & ->).
      destruct jitter; cbn [app blocking_calls omap list_omap];
        rewrite <- app_assoc; by eexists.
Qed.

(** C7 (what the code does). With [HAVE_CLOCK_NANOSLEEP] and a diff of at
    most 500 microseconds, a pass of the loop releases the entry lock,
    sleeps until [mono_ts * 1000 + diff] and takes the lock again. When the
    sleep completes ([clock_nanosleep] returns 0), [waitret] is TRUE: with
    [restart] unset the pass leaves through the branch of a signalled
    wake-up, returning the status read after the sleep and leaving the
    entry Done, without reading the time again. *)
Theorem nanosleep_completed_is_wakeup (fuel : nat) (e : ptr) (entryt diff mono_ts : Z)
    (w : World) (step : EnvStep) (rest : list EnvStep) (x : GstClockEntryImpl) :
  HAVE_CLOCK_NANOSLEEP = true →
  diff ≤ 500 * GST_USECOND →
  env w = step :: rest →
  env_ret step = 0 →
  heap (after_window step rest w) !! e = Some x →
  status x ≠ GST_CLOCK_UNSCHEDULED →
  wait_loop (S fuel) e false entryt diff mono_ts w =
  Ret (status x) (put_status e GST_CLOCK_DONE x (after_window step rest w))
    ([EvEntryUnlock e; EvNanosleep (wrap_i64 (mono_ts * 1000 + diff)); EvEntryLock e] ++
     (if decide (status x = GST_CLOCK_BUSY) then [] else [EvLogError (status x) e])).
Proof.
  intros Hns Hdiff Henv Hret Hx Hst. cbn [wait_loop]. rewrite Hns.
  assert ((diff <=? 500 * GST_USECOND) = true) as -> by lia. cbn [andb].
  unfold get_status, set_status. run. rewrite (yield_run _ _ _ Henv). run.
  rewrite Hret, Hx. run.
  destruct (decide (status x = GST_CLOCK_UNSCHEDULED)) as [|_]; [done |].
  destruct (decide (status x = GST_CLOCK_BUSY)); run; rewrite Hx; by run.
Qed.

(** The other outcome of the sleep: when it is interrupted
    ([clock_nanosleep] returns non-zero), [waitret] is FALSE and the pass
    goes on as after a time-out: the time is read again and, the deadline
    being reached, the entry is set to OK and OK is returned. *)
Lemma nanosleep_interrupted_is_timeout (fuel : nat) (e : ptr) (entryt diff mono_ts : Z)
    (w : World) (step step2 : EnvStep) (rest : list EnvStep) (x y : GstClockEntryImpl) :
  HAVE_CLOCK_NANOSLEEP = true →
  diff ≤ 500 * GST_USECOND →
  env w = step :: step2 :: rest →
  env_ret step ≠ 0 →
  heap (after_window step (step2 :: rest) w) !! e = Some x →
  status x = GST_CLOCK_BUSY →
  heap (after_window step2 rest
          (put_status e GST_CLOCK_DONE x (after_window step (step2 :: rest) w))) !! e
    = Some y →
  status y ≠ GST_CLOCK_UNSCHEDULED →
  GST_CLOCK_DIFF (wrap_u64 (env_now step2)) entryt ≤ CLOCK_MIN_WAIT_TIME →
  wait_loop (S fuel) e false entryt diff mono_ts w =
  Ret GST_CLOCK_OK
    (put_status e GST_CLOCK_OK y
       (after_window step2 rest
          (put_status e GST_CLOCK_DONE x (after_window step (step2 :: rest) w))))
    [EvEntryUnlock e; EvNanosleep (wrap_i64 (mono_ts * 1000 + diff)); EvEntryLock e;
     EvEntryUnlock e; EvEntryLock e].
Proof.
  intros Hns Hdiff Henv Hret Hx Hst Hy Hsty Hdue. cbn [wait_loop]. rewrite Hns.
  assert ((diff <=? 500 * GST_USECOND) = true) as -> by lia. cbn [andb].
  unfold get_status, set_status, read_times, yield, after_window, put_status in *.
  cbn [heap priv env threads_available] in *.
  run. rewrite Henv. run.
  assert ((env_ret step =? 0) = false) as -> by lia.
  rewrite Hx. run. rewrite Hst.
  destruct (decide (GST_CLOCK_BUSY = GST_CLOCK_UNSCHEDULED)) as [|_]; [done |].
  destruct (decide (GST_CLOCK_BUSY = GST_CLOCK_BUSY)) as [_|]; [| done].
  run. rewrite Hx. run. cbn [andb negb]. run. rewrite Hy. run.
  destruct (decide (status y = GST_CLOCK_UNSCHEDULED)) as [|_]; [done |].
  assert ((GST_CLOCK_DIFF (wrap_u64 (env_now step2)) entryt <=? CLOCK_MIN_WAIT_TIME) = true)
    as -> by lia.
  run. rewrite Hy. by run.
Qed.

(** A synchronous wait on an entry that is found due at the first time
    read does return. *)
Lemma sync_wait_returns (fuel : nat) (e : ptr) (jitter : bool) (w : World)
    (x y : GstClockEntryImpl) (step : EnvStep) (rest : list EnvStep) :
  heap w !! e = Some x →
  status x ≠ GST_CLOCK_UNSCHEDULED →
  env w = step :: rest →
  heap (after_window step rest
          (put_status e GST_CLOCK_BUSY (with_initialized true x) w)) !! e = Some y →
  status y ≠ GST_CLOCK_UNSCHEDULED →
  GST_CLOCK_DIFF (wrap_u64 (env_now step)) (time y) ≤ CLOCK_MIN_WAIT_TIME →
  ∃ r w' t, gst_system_clock_id_wait_jitter fuel e jitter w = Ret r w' t.
Proof.
  intros Hx Hst Henv Hy Hsty Hdue.
  rewrite (sync_wait_start fuel e jitter w x Hx Hst). unfold sync_wait_body.
  unfold mbind at 1, M_bind at 1.
  rewrite (wait_core_start fuel e jitter true _ step rest y) by done.
  assert ((CLOCK_MIN_WAIT_TIME <? GST_CLOCK_DIFF (wrap_u64 (env_now step)) (time y)) = false)
    as -> by lia.
  destruct (GST_CLOCK_DIFF (wrap_u64 (env_now step)) (time y) =? 0);
    unfold mbind at 1, M_bind at 1; rewrite (set_status_run _ _ _ _ Hy); run; eauto.
Qed.

(** ** The dispatcher *)

Lemma callbacks_app (t1 t2 : list Event) : callbacks (t1 ++ t2) = callbacks t1 ++ callbacks t2.
Proof. apply omap_app. Qed.

Lemma hoare_quiet {A B : Type} (m : M A) (f : A → M B) (P : list Event → World → Prop)
    (Q : B → list Event → World → Prop) (F : list Event → World → Prop) :
  quiet m → stable P → (∀ t w, P t w → F t w) → (∀ a, hoare P (f a) Q F) →
  hoare P (m ≫= f) Q F.
Proof.
  intros Hq Hs HF Hf. apply hoare_bind with (Q := λ _, P); [| done].
  intros t0 w HP. destruct (Hq w) as (Hh & _ & Hc).
  destruct (m w) as [a w' t|e w' t]; cbn [final trace] in *.
  - apply (Hs t0 _ w); [| done..]. by rewrite callbacks_app, Hc, app_nil_r.
  - apply HF, (Hs t0 _ w); [| done..]. by rewrite callbacks_app, Hc, app_nil_r.
Qed.

Lemma hoare_quiet_end {A : Type} (m : M A) (P : list Event → World → Prop)
    (F : list Event → World → Prop) :
  quiet m → stable P → (∀ t w, P t w → F t w) → hoare P m (λ _, P) F.
Proof.
  intros Hq Hs HF t0 w HP. destruct (Hq w) as (Hh & _ & Hc).
  destruct (m w) as [a w' t|e w' t]; cbn [final trace] in *.
  - apply (Hs t0 _ w); [| done..]. by rewrite callbacks_app, Hc, app_nil_r.
  - apply HF, (Hs t0 _ w); [| done..]. by rewrite callbacks_app, Hc, app_nil_r.
Qed.

Lemma hoare_load {B : Type} (e : ptr) (f : GstClockEntryImpl → M B)
    (P : list Event → World → Prop) (Q : B → list Event → World → Prop)
    (F : list Event → World → Prop) :
  (∀ t w, P t w → F t w) →
  (∀ x, hoare (λ t w, P t w ∧ heap w !! e = Some x) (f x) Q F) →
  hoare P (load e ≫= f) Q F.
Proof.
  intros HF Hf.
  apply hoare_bind with (Q := λ x t w, P t w ∧ heap w !! e = Some x); [| done].
  intros t0 w HP. unfold load.
  destruct (heap w !! e) eqn:He; rewrite app_nil_r; [done | by apply HF].
Qed.

Lemma hoare_pure {A : Type} (φ : Prop) (P : list Event → World → Prop) (m : M A)
    (Q : A → list Event → World → Prop) (F : list Event → World → Prop) :
  (∀ t w, P t w → φ) → (φ → hoare P m Q F) → hoare P m Q F.
Proof. intros Hφ Hm t0 w HP. by apply Hm; [eapply Hφ |]. Qed.

Section Cadence.

(** A periodic entry [p], its first deadline [t0], its interval [I0] and
    whether it has a callback. *)
Variable p : ptr.
Variables t0 I0 : Z.
Variable cb : bool.

Definition nth_deadline (k : nat) : Z := wrap_u64 (t0 + Z.of_nat k * I0).

Definition fired (t : list Event) : nat := length (callbacks_of p t).

(** The callbacks delivered for [p] so far were given the deadlines
    [t0], [t0 + I0], [t0 + 2 * I0], ... in this order. *)
Definition cadence (t : list Event) : Prop :=
  callbacks_of p t = nth_deadline <$> seq 0 (fired t).

(** [p] is a periodic entry of interval [I0] and, if it has a callback,
    its deadline [d] is the one of the next firing. *)
Definition armed (d : GstClockEntryImpl → Z) (t : list Event) (w : World) : Prop :=
  ∃ x, heap w !! p = Some x ∧ type x = GST_CLOCK_ENTRY_PERIODIC ∧ interval x = I0 ∧
       func x = cb ∧ (func x = true → d x = nth_deadline (fired t)).

Definition at_head : list Event → World → Prop :=
  λ t w, cadence t ∧ armed time t w.

(** While the dispatcher works on [entry], read as [x] under the clock
    lock; [pending] holds between the callback and the new deadline. *)
Definition working (entry : ptr) (x : GstClockEntryImpl) (pending : bool) :
    list Event → World → Prop :=
  λ t w, cadence t ∧ (statics <$> heap w) !! entry = Some (statics x) ∧
         armed (if pending && bool_decide (entry = p)
                then λ _, wrap_u64 (time x + I0) else time) t w.

Lemma cadence_callbacks (t t' : list Event) :
  callbacks t' = callbacks t → cadence t → cadence t'.
Proof. unfold cadence, fired, callbacks_of. by intros ->. Qed.

Lemma armed_stable (d : GstClockEntryImpl → Z) :
  (∀ x y, statics x = statics y → d x = d y) → stable (armed d).
Proof.
  intros Hd t t' w w' Hc Hh (x & Hx & Hty & Hiv & Hfc & Hf).
  assert ((statics <$> heap w') !! p = Some (statics x)) as Hx'.
  { by rewrite Hh, lookup_fmap, Hx. }
  rewrite lookup_fmap in Hx'. destruct (heap w' !! p) as [y|] eqn:Hy; [| done].
  injection Hx' as Ht Hi Hty' Hfn. exists y. split; [done |].
  split_and!; [congruence.. |].
  intros Hfy. rewrite (Hd y x) by (unfold statics; congruence).
  unfold fired, callbacks_of. rewrite Hc. apply Hf. congruence.
Qed.

Lemma at_head_stable : stable at_head.
Proof.
  intros t t' w w' Hc Hh [Hcad Harm]. split; [by eapply cadence_callbacks |].
  eapply armed_stable; [| done..]. unfold statics. intros ?? [=]. done.
Qed.

Lemma working_stable (entry : ptr) (x : GstClockEntryImpl) (pending : bool) :
  stable (working entry x pending).
Proof.
  intros t t' w w' Hc Hh (Hcad & Hsnap & Harm). split_and!.
  - by eapply cadence_callbacks.
  - by rewrite Hh.
  - eapply armed_stable; [| done..].
    destruct (pending && bool_decide (entry = p)); [done |].
    unfold statics. intros ?? [=]. done.
Qed.

Lemma at_head_working (entry : ptr) (x : GstClockEntryImpl) (t : list Event) (w : World) :
  at_head t w → heap w !! entry = Some x → working entry x false t w.
Proof. intros [Hcad Harm] Hx. split_and!; [done | by rewrite lookup_fmap, Hx | done]. Qed.

Lemma working_at_head (entry : ptr) (x : GstClockEntryImpl) (t : list Event) (w : World) :
  working entry x false t w → at_head t w.
Proof. by intros (Hcad & _ & Harm). Qed.

Lemma working_same_statics (entry : ptr) (x y : GstClockEntryImpl) (pending : bool)
    (t : list Event) (w : World) :
  working entry x pending t w → heap w !! entry = Some y → statics y = statics x.
Proof.
  intros (_ & Hsnap & _) Hy. rewrite lookup_fmap, Hy in Hsnap.
  cbn [fmap option_fmap option_map] in Hsnap. congruence.
Qed.

Lemma callbacks_of_app (t1 t2 : list Event) :
  callbacks_of p (t1 ++ t2) = callbacks_of p t1 ++ callbacks_of p t2.
Proof. unfold callbacks_of. by rewrite callbacks_app, omap_app. Qed.

Lemma nth_deadline_next (k : nat) (d : Z) :
  d = nth_deadline k → wrap_u64 (d + I0) = nth_deadline (S k).
Proof.
  intros ->. unfold nth_deadline, wrap_u64. rewrite Zplus_mod_idemp_l.
  f_equal. lia.
Qed.

(** The callback is given the deadline of the firing that is due. *)
Lemma callback_step (entry : ptr) (x y : GstClockEntryImpl) :
  hoare (λ t w, working entry x false t w ∧ heap w !! entry = Some y)
    (if func y then emit (EvCallback entry (time y)) else mret tt)
    (λ _, working entry x true) (λ t _, cadence t).
Proof.
  intros t w [Hw Hy]. pose proof (working_same_statics _ _ _ _ _ _ Hw Hy) as Hs.
  destruct Hw as (Hcad & Hsnap & (x' & Hx' & Hty & Hiv & Hfc & Hd)).
  injection Hs as Ht Hi Hty' Hfn. cbn [andb] in Hd.
  destruct (func y) eqn:Hf; unfold emit, mret, M_ret.
  - destruct (decide (entry = p)) as [->|Hne].
    + assert (x' = y) as -> by congruence. specialize (Hd Hf).
      assert (callbacks_of p (t ++ [EvCallback p (time y)]) = callbacks_of p t ++ [time y])
        as Hcb.
      { rewrite callbacks_of_app. f_equal. unfold callbacks_of, callbacks.
        cbn [omap list_omap fst snd]. by rewrite decide_True. }
      assert (fired (t ++ [EvCallback p (time y)]) = S (fired t)) as Hn.
      { unfold fired. rewrite Hcb, length_app. cbn [length]. lia. }
      split_and!.
      * unfold cadence. rewrite Hn, Hcb, seq_S, fmap_app, <- Hcad. cbn [fmap list_fmap].
        by rewrite Nat.add_0_l, Hd.
      * done.
      * exists y. split_and!; [done.. |]. intros _. cbn [andb].
        rewrite bool_decide_eq_true_2 by done. rewrite Hn.
        apply nth_deadline_next. congruence.
    + assert (callbacks_of p (t ++ [EvCallback entry (time y)]) = callbacks_of p t) as Hcb.
      { rewrite callbacks_of_app. unfold callbacks_of at 2, callbacks.
        cbn [omap list_omap fst snd]. rewrite decide_False by done. apply app_nil_r. }
      split_and!.
      * unfold cadence, fired. by rewrite Hcb.
      * done.
      * exists x'. split_and!; [done.. |]. cbn [andb].
        rewrite bool_decide_eq_false_2 by done. unfold fired. rewrite Hcb. done.
  - rewrite app_nil_r. split_and!; [done.. |].
    exists x'. split_and!; [done.. |]. intros Hfx. cbn [andb].
    destruct (bool_decide (entry = p)) eqn:Hep; [| by apply Hd].
    apply bool_decide_eq_true_1 in Hep as ->. congruence.
Qed.

(** The new deadline of a periodic entry is the requested one plus the
    interval. *)
Lemma rearm_step (entry : ptr) (x z : GstClockEntryImpl) :
  hoare (λ t w, working entry x true t w ∧ heap w !! entry = Some z)
    (store entry (with_time (wrap_u64 (time x + interval z)) z))
    (λ _, at_head) (λ t _, cadence t).
Proof.
  intros t w [(Hcad & Hsnap & (x' & Hx' & Hty & Hiv & Hfc & Hd)) Hz]. unfold store.
  rewrite app_nil_r. split; [done |]. unfold armed. cbn [heap andb] in *.
  destruct (decide (entry = p)) as [->|Hne].
  - assert (x' = z) as -> by congruence. rewrite bool_decide_eq_true_2 in Hd by done.
    eexists. rewrite lookup_insert_eq. split_and!; [done.. |].
    cbn [func time with_time]. rewrite Hiv. done.
  - rewrite bool_decide_eq_false_2 in Hd by done.
    exists x'. rewrite lookup_insert_ne by done. done.
Qed.

Lemma working_not_periodic (entry : ptr) (x : GstClockEntryImpl) (pending : bool)
    (t : list Event) (w : World) :
  type x ≠ GST_CLOCK_ENTRY_PERIODIC → working entry x pending t w → at_head t w.
Proof.
  intros Hty (Hcad & Hsnap & (x' & Hx' & Hty' & Hiv & Hfc & Hd)). split; [done |].
  exists x'. split_and!; [done.. |].
  destruct (decide (entry = p)) as [->|Hne].
  - rewrite lookup_fmap, Hx' in Hsnap. injection Hsnap as ????. congruence.
  - by rewrite bool_decide_eq_false_2, andb_false_r in Hd.
Qed.

Lemma quiet_relock_clock : quiet relock_clock.
Proof. unfold relock_clock. repeat quiet_step. Qed.

Lemma quiet_next_entry (entry : ptr) : quiet (next_entry entry).
Proof. unfold next_entry. repeat first [ apply quiet_relock_clock | quiet_step ]. Qed.

Lemma quiet_unlock_entry_and_next_entry (entry : ptr) :
  quiet (unlock_entry_and_next_entry entry).
Proof. unfold unlock_entry_and_next_entry. repeat first [ apply quiet_next_entry | quiet_step ]. Qed.

Lemma quiet_wait_core (fuel : nat) (e : ptr) (restart : bool) :
  quiet (gst_system_clock_id_wait_jitter_unlocked fuel e false restart).
Proof.
  unfold gst_system_clock_id_wait_jitter_unlocked.
  repeat first [ apply quiet_wait_loop | quiet_step ].
Qed.

Ltac quiet_solve :=
  repeat first
    [ apply quiet_relock_clock | apply quiet_next_entry
    | apply quiet_unlock_entry_and_next_entry | apply quiet_wait_core | quiet_step ].

Ltac hq :=
  apply hoare_quiet;
  [ quiet_solve
  | first [ apply at_head_stable | apply working_stable ]
  | first [ by intros ?? [? _] | by intros ?? (? & _ & _) ]
  | intros ? ].

(** Every run of the dispatcher loop from a world where [p] is armed, as
    far as it gets, delivers the callbacks of [p] in cadence; when the
    loop is left, [p] is armed for its next firing. *)
Lemma async_loop_cadence (fuel : nat) :
  hoare at_head (async_loop fuel) (λ _, at_head) (λ t _, cadence t).
Proof.
  induction fuel as [|fuel IH]; cbn [async_loop].
  { apply hoare_fault. by intros t w [? _]. }
  hq. destruct (stopping _).
  { by apply hoare_ret. }
  destruct (entries _) as [|entry l].
  { do 3 hq. destruct (stopping _); [| done]. by apply hoare_ret. }
  apply hoare_load; [by intros ?? [? _] |]. intros x.
  destruct (negb (initialized x)).
  { apply hoare_fault. by intros t w [[? _] _]. }
  apply hoare_pre with (P := working entry x false).
  { intros t w [? ?]. by apply at_head_working. }
  hq. cbv zeta.
  assert (hoare (working entry x false) (async_loop fuel)
            (λ _, at_head) (λ t _, cadence t)) as IHw.
  { eapply hoare_pre; [| exact IH]. apply working_at_head. }
  destruct (decide (status x = GST_CLOCK_UNSCHEDULED)).
  { by do 2 hq. }
  do 4 hq.
  match goal with |- hoare _ (match ?r with _ => _ end) _ _ => destruct r end.
  - (* OK *)
    hq. apply hoare_load; [by intros ?? (? & _ & _) |]. intros y.
    eapply hoare_pure; [intros t w [Hw Hy]; exact (working_same_statics _ _ _ _ _ _ Hw Hy) |].
    intros Hs. injection Hs as Ht Hi Hty Hfn.
    eapply hoare_bind; [apply callback_step |]. intros [].
    destruct (decide (type y = GST_CLOCK_ENTRY_PERIODIC)) as [Hp|Hp].
    + hq. apply hoare_load; [by intros ?? (? & _ & _) |]. intros z.
      eapply hoare_bind; [apply rearm_step |]. intros []. by do 3 hq.
    + hq. eapply hoare_pre; [| exact IH].
      intros t w. apply working_not_periodic. congruence.
  - (* EARLY *)
    hq. apply hoare_load; [by intros ?? (? & _ & _) |]. intros y.
    eapply hoare_pure; [intros t w [Hw Hy]; exact (working_same_statics _ _ _ _ _ _ Hw Hy) |].
    intros Hs. injection Hs as Ht Hi Hty Hfn.
    eapply hoare_bind; [apply callback_step |]. intros [].
    destruct (decide (type y = GST_CLOCK_ENTRY_PERIODIC)) as [Hp|Hp].
    + hq. apply hoare_load; [by intros ?? (? & _ & _) |]. intros z.
      eapply hoare_bind; [apply rearm_step |]. intros []. by do 3 hq.
    + hq. eapply hoare_pre; [| exact IH].
      intros t w. apply working_not_periodic. congruence.
  - by hq.
  - by do 3 hq.
  - by do 2 hq.
  - by do 2 hq.
Qed.

Lemma async_thread_cadence (fuel : nat) :
  hoare at_head (gst_system_clock_async_thread fuel) (λ _, at_head) (λ t _, cadence t).
Proof.
  unfold gst_system_clock_async_thread. do 4 hq.
  eapply hoare_bind; [apply async_loop_cadence |]. intros []. hq.
  apply hoare_quiet_end; [by apply quiet_emit | apply at_head_stable | by intros ?? [? _]].
Qed.

End Cadence.

(** C3. A periodic entry whose deadline is [time x] when the dispatcher
    starts gets its callbacks with the deadlines [time x + k * interval x],
    k = 0, 1, 2, ..., in [GstClockTime] arithmetic (exactly, as long as the
    sum fits 64 bits), whatever the environment does and however late each
    wait returns; and when the dispatcher has left its loop after n
    callbacks the entry's deadline is [time x + n * interval x]: each
    firing moved it by one interval from the deadline that was requested. *)
Theorem periodic_cadence (fuel : nat) (p : ptr) (w : World) (x : GstClockEntryImpl) :
  heap w !! p = Some x →
  type x = GST_CLOCK_ENTRY_PERIODIC →
  0 ≤ time x < 2 ^ 64 →
  (∀ (k : nat) (r : Z),
     callbacks_of p (trace (gst_system_clock_async_thread fuel w)) !! k = Some r →
     r = wrap_u64 (time x + Z.of_nat k * interval x) ∧
     (0 ≤ interval x → time x + Z.of_nat k * interval x < 2 ^ 64 →
      r = time x + Z.of_nat k * interval x)) ∧
  (∀ w' t y,
     gst_system_clock_async_thread fuel w = Ret tt w' t →
     heap w' !! p = Some y →
     func x = true →
     time y = wrap_u64 (time x + Z.of_nat (length (callbacks_of p t)) * interval x)).
Proof.
  intros Hx Hty Hrange.
  pose proof (async_thread_cadence p (time x) (interval x) (func x) fuel [] w) as H.
  assert (at_head p (time x) (interval x) (func x) [] w) as H0.
  { split; [done |]. exists x. split_and!; [done.. |]. intros _.
    unfold nth_deadline, fired. cbn. rewrite Z.add_0_r. by rewrite wrap_u64_small. }
  specialize (H H0). cbn [app] in H. split.
  - intros k r Hk.
    assert (cadence p (time x) (interval x) (trace (gst_system_clock_async_thread fuel w)))
      as Hcad.
    { destruct (gst_system_clock_async_thread fuel w); [apply H | exact H]. }
    unfold cadence in Hcad. rewrite Hcad, list_lookup_fmap in Hk.
    destruct (seq 0 _ !! k) as [k'|] eqn:Hseq; [| done].
    apply lookup_seq in Hseq as [-> _]. injection Hk as <-. cbn [Nat.add].
    split; [done |]. intros Hi Hlt. unfold nth_deadline. apply wrap_u64_small. lia.
  - intros w' t y Hrun Hy Hf. rewrite Hrun in H.
    destruct H as [_ (x' & Hx' & _ & _ & Hfc & Hd)].
    assert (x' = y) as -> by congruence. apply Hd. congruence.
Qed.

(** ** The locking discipline of the waits and of the dispatcher *)

Lemma lock_run_app (L : Locks) (t1 t2 : list Event) :
  lock_run L (t1 ++ t2) =
  match lock_run L t1 with Some L1 => lock_run L1 t2 | None => None end.
Proof.
  revert L. induction t1 as [|ev t1 IH]; intros L; cbn [app lock_run]; [done |].
  destruct (lock_step L ev); [apply IH | done].
Qed.

Lemma disciplined_ret {A : Type} (L : Locks) (a : A) : disciplined L (mret a) L.
Proof. by intros w. Qed.

Lemma disciplined_fault {A : Type} (L L' : Locks) (f : Failure) :
  disciplined L (fault (A := A) f) L'.
Proof. intros w. by eexists. Qed.

Lemma disciplined_emit (L L' : Locks) (ev : Event) :
  lock_step L ev = Some L' → disciplined L (emit ev) L'.
Proof. intros H w. unfold emit. cbn [lock_run]. by rewrite H. Qed.

Lemma disciplined_silent {A : Type} (L : Locks) (m : M A) : silent m → disciplined L m L.
Proof.
  intros H w. specialize (H w). destruct (m w); cbn [trace] in H; subst; [done | by eexists].
Qed.

Lemma disciplined_bind {A B : Type} (L L1 L2 : Locks) (m : M A) (f : A → M B) :
  disciplined L m L1 → (∀ a, disciplined L1 (f a) L2) → disciplined L (m ≫= f) L2.
Proof.
  intros Hm Hf w. specialize (Hm w). unfold mbind, M_bind.
  destruct (m w) as [a w1 t1|e w1 t1]; [| done].
  specialize (Hf a w1). destruct (f a w1); cbn [after]; by rewrite lock_run_app, Hm.
Qed.

Lemma silent_ret {A : Type} (a : A) : silent (mret a).
Proof. done. Qed.

Lemma silent_bind {A B : Type} (m : M A) (f : A → M B) :
  silent m → (∀ a, silent (f a)) → silent (m ≫= f).
Proof.
  intros Hm Hf w. specialize (Hm w). unfold mbind, M_bind.
  destruct (m w) as [a w1 t1|e w1 t1]; cbn [trace] in *; [| done].
  rewrite trace_after, Hm. apply Hf.
Qed.

Lemma silent_load (p : ptr) : silent (load p).
Proof. intros w. unfold load. by destruct (heap w !! p). Qed.

Lemma silent_store (p : ptr) (x : GstClockEntryImpl) : silent (store p x).
Proof. done. Qed.

Lemma silent_get_status (p : ptr) : silent (get_status p).
Proof. apply silent_bind; [apply silent_load | intros; apply silent_ret]. Qed.

Lemma silent_set_status (p : ptr) (st : GstClockReturn) : silent (set_status p st).
Proof. apply silent_bind; [apply silent_load | intros; apply silent_store]. Qed.

Lemma silent_yield : silent yield.
Proof. intros w. unfold yield. by destruct (env w). Qed.

Lemma silent_set_entries (l : list ptr) : silent (set_entries l).
Proof. done. Qed.

Ltac lock_step :=
  first
    [ apply disciplined_ret | apply disciplined_fault
    | apply disciplined_emit; cbn [lock_step clock_held entry_held];
      rewrite ?decide_True by (by split || done); reflexivity
    | apply disciplined_silent;
      first [ apply silent_load | apply silent_store | apply silent_get_status
            | apply silent_set_status | apply silent_yield | apply silent_set_entries
            | done ]
    | eapply disciplined_bind; [| intros ?]
    | match goal with |- disciplined _ (if ?c then _ else _) _ => destruct c end
    | match goal with |- disciplined _ (match ?c with _ => _ end) _ => destruct c end
    | match goal with |- disciplined _ (let _ := _ in _) _ => cbv zeta end ].

Lemma disciplined_ensure_entry_initialized (e : ptr) (q : option ptr) :
  disciplined (mkLocks true q) (ensure_entry_initialized e) (mkLocks true q).
Proof. unfold ensure_entry_initialized. repeat lock_step. Qed.

Lemma disciplined_read_times (e : ptr) :
  disciplined (mkLocks false (Some e)) (read_times e) (mkLocks false (Some e)).
Proof.
  unfold read_times. repeat lock_step.
Qed.

Lemma disciplined_wait_loop (fuel : nat) (e : ptr) (restart : bool) (entryt diff mono_ts : Z) :
  disciplined (mkLocks false (Some e)) (wait_loop fuel e restart entryt diff mono_ts)
    (mkLocks false (Some e)).
Proof.
  revert diff mono_ts. induction fuel as [|fuel IH]; intros diff mono_ts; cbn [wait_loop].
  - apply disciplined_fault.
  - repeat first [ apply IH | apply disciplined_read_times | lock_step ].
Qed.

Lemma disciplined_wait_core (fuel : nat) (e : ptr) (jitter restart : bool) :
  disciplined (mkLocks false (Some e))
    (gst_system_clock_id_wait_jitter_unlocked fuel e jitter restart)
    (mkLocks false (Some e)).
Proof.
  unfold gst_system_clock_id_wait_jitter_unlocked.
  repeat first [ apply disciplined_wait_loop | apply disciplined_read_times | lock_step ].
Qed.

Lemma disciplined_relock_clock :
  disciplined (mkLocks false None) relock_clock (mkLocks true None).
Proof. unfold relock_clock. repeat lock_step. Qed.

Lemma disciplined_next_entry (e : ptr) :
  disciplined (mkLocks false None) (next_entry e) (mkLocks true None).
Proof. unfold next_entry. repeat first [ apply disciplined_relock_clock | lock_step ]. Qed.

Lemma disciplined_unlock_entry_and_next_entry (e : ptr) :
  disciplined (mkLocks false (Some e)) (unlock_entry_and_next_entry e) (mkLocks true None).
Proof.
  unfold unlock_entry_and_next_entry. repeat first [ apply disciplined_next_entry | lock_step ].
Qed.

Lemma disciplined_async_loop (fuel : nat) :
  disciplined (mkLocks true None) (async_loop fuel) (mkLocks true None).
Proof.
  induction fuel as [|fuel IH]; cbn [async_loop].
  - apply disciplined_fault.
  - repeat first
      [ apply IH | apply disciplined_wait_core | apply disciplined_relock_clock
      | apply disciplined_next_entry | apply disciplined_unlock_entry_and_next_entry
      | lock_step ].
Qed.

(** X2. The dispatcher thread [gst_system_clock_async_thread] keeps the
    locking discipline in every run: it never takes the clock lock while it
    holds an entry lock, it waits for the head entry with that entry's lock
    and without the clock lock, and every callback is run with no lock
    held; no lock is held when the thread function returns. *)
Theorem dispatcher_locks (fuel : nat) :
  disciplined unlocked (gst_system_clock_async_thread fuel) unlocked.
Proof.
  unfold gst_system_clock_async_thread, unlocked.
  repeat first [ apply disciplined_async_loop | lock_step ].
Qed.

(** ** The side of the clock lock on which entry locks are taken *)

Lemma lock_run_at_app (inside : bool) (L : Locks) (t1 t2 : list Event) :
  lock_run_at inside L (t1 ++ t2) =
  match lock_run_at inside L t1 with Some L1 => lock_run_at inside L1 t2 | None => None end.
Proof.
  revert L. induction t1 as [|ev t1 IH]; intros L; cbn [app lock_run_at]; [done |].
  destruct (lock_step_at inside L ev); [apply IH | done].
Qed.

(** The stricter discipline implies the common one. *)
Lemma lock_run_at_lock_run (inside : bool) (L L' : Locks) (t : list Event) :
  lock_run_at inside L t = Some L' → lock_run L t = Some L'.
Proof.
  revert L. induction t as [|ev t IH]; intros L; cbn [lock_run_at lock_run]; [done |].
  destruct (lock_step_at inside L ev) as [L1|] eqn:Hs; [| done].
  assert (lock_step L ev = Some L1) as ->.
  { destruct ev; try exact Hs. unfold lock_step_at in Hs.
    by destruct (bool_decide (clock_held L = inside)). }
  apply IH.
Qed.

Lemma disciplined_at_disciplined {A : Type} (inside : bool) (L L' : Locks) (m : M A) :
  disciplined_at inside L m L' → disciplined L m L'.
Proof.
  intros H w. specialize (H w). destruct (m w) as [a w' t|f w' t].
  - by eapply lock_run_at_lock_run.
  - destruct H as [L1 H]. exists L1. by eapply lock_run_at_lock_run.
Qed.

Lemma disciplined_at_ret {A : Type} (inside : bool) (L : Locks) (a : A) :
  disciplined_at inside L (mret a) L.
Proof. by intros w. Qed.

Lemma disciplined_at_fault {A : Type} (inside : bool) (L L' : Locks) (f : Failure) :
  disciplined_at inside L (fault (A := A) f) L'.
Proof. intros w. by eexists. Qed.

Lemma disciplined_at_emit (inside : bool) (L L' : Locks) (ev : Event) :
  lock_step_at inside L ev = Some L' → disciplined_at inside L (emit ev) L'.
Proof. intros H w. unfold emit. cbn [lock_run_at]. by rewrite H. Qed.

Lemma disciplined_at_silent {A : Type} (inside : bool) (L : Locks) (m : M A) :
  silent m → disciplined_at inside L m L.
Proof.
  intros H w. specialize (H w). destruct (m w); cbn [trace] in H; subst; [done | by eexists].
Qed.

Lemma disciplined_at_bind {A B : Type} (inside : bool) (L L1 L2 : Locks) (m : M A)
    (f : A → M B) :
  disciplined_at inside L m L1 → (∀ a, disciplined_at inside L1 (f a) L2) →
  disciplined_at inside L (m ≫= f) L2.
Proof.
  intros Hm Hf w. specialize (Hm w). unfold mbind, M_bind.
  destruct (m w) as [a w1 t1|e w1 t1]; [| done].
  specialize (Hf a w1). destruct (f a w1); cbn [after]; by rewrite lock_run_at_app, Hm.
Qed.

Ltac lock_step_at :=
  first
    [ apply disciplined_at_ret | apply disciplined_at_fault
    | apply disciplined_at_emit; cbn [lock_step_at lock_step clock_held entry_held];
      rewrite ?bool_decide_eq_true_2 by done;
      cbn [lock_step clock_held entry_held];
      rewrite ?decide_True by (by split || done); reflexivity
    | apply disciplined_at_silent;
      first [ apply silent_load | apply silent_store | apply silent_get_status
            | apply silent_set_status | apply silent_yield | apply silent_set_entries
            | done ]
    | eapply disciplined_at_bind; [| intros ?]
    | match goal with |- disciplined_at _ _ (if ?c then _ else _) _ => destruct c end
    | match goal with |- disciplined_at _ _ (match ?c with _ => _ end) _ => destruct c end
    | match goal with |- disciplined_at _ _ (let _ := _ in _) _ => cbv zeta end ].

Lemma disciplined_at_ensure_entry_initialized (inside : bool) (e : ptr) (q : option ptr) :
  disciplined_at inside (mkLocks true q) (ensure_entry_initialized e) (mkLocks true q).
Proof. unfold ensure_entry_initialized. repeat lock_step_at. Qed.

Lemma disciplined_at_read_times (e : ptr) :
  disciplined_at false (mkLocks false (Some e)) (read_times e) (mkLocks false (Some e)).
Proof. unfold read_times. repeat lock_step_at. Qed.

Lemma disciplined_at_wait_loop (fuel : nat) (e : ptr) (restart : bool)
    (entryt diff mono_ts : Z) :
  disciplined_at false (mkLocks false (Some e))
    (wait_loop fuel e restart entryt diff mono_ts) (mkLocks false (Some e)).
Proof.
  revert diff mono_ts. induction fuel as [|fuel IH]; intros diff mono_ts; cbn [wait_loop].
  - apply disciplined_at_fault.
  - repeat first [ apply IH | apply disciplined_at_read_times | lock_step_at ].
Qed.

Lemma disciplined_at_wait_core (fuel : nat) (e : ptr) (jitter restart : bool) :
  disciplined_at false (mkLocks false (Some e))
    (gst_system_clock_id_wait_jitter_unlocked fuel e jitter restart)
    (mkLocks false (Some e)).
Proof.
  unfold gst_system_clock_id_wait_jitter_unlocked.
  repeat first [ apply disciplined_at_wait_loop | apply disciplined_at_read_times
               | lock_step_at ].
Qed.

(** X1. [gst_system_clock_id_wait_jitter], called with no lock held, keeps
    the locking discipline in every run, and takes the entry lock only
    when it does not hold the clock lock: the clock lock is released before
    the entry lock is taken, the first time and after every time read and
    sleep. The waits on the entry's condition are made with the entry lock
    and without the clock lock, the sleeps with no lock; and no lock is
    held when it returns. *)
Theorem sync_wait_locks (fuel : nat) (e : ptr) (jitter : bool) :
  disciplined_at false unlocked (gst_system_clock_id_wait_jitter fuel e jitter) unlocked.
Proof.
  unfold gst_system_clock_id_wait_jitter, unlocked.
  repeat first [ apply disciplined_at_wait_core
               | apply disciplined_at_ensure_entry_initialized | lock_step_at ].
Qed.




(** ** The status a synchronous wait leaves *)

Lemma set_status_ret (e : ptr) (st : GstClockReturn) (w w' : World) (t : list Event) :
  set_status e st w = Ret tt w' t → status <$> (heap w' !! e) = Some st ∧ t = [].
Proof.
  unfold set_status. run. destruct (heap w !! e) as [x|]; run; [| discriminate].
  intros [= <- <-]. cbn [heap]. by rewrite lookup_insert_eq.
Qed.

Lemma get_status_ret (e : ptr) (st : GstClockReturn) (w w' : World) (t : list Event) :
  get_status e w = Ret st w' t → w' = w ∧ status <$> (heap w !! e) = Some st ∧ t = [].
Proof.
  unfold get_status. run. destruct (heap w !! e) as [x|]; run; [| discriminate].
  by intros [= <- <- <-].
Qed.

Lemma load_ret (e : ptr) (x : GstClockEntryImpl) (w w' : World) (t : list Event) :
  load e w = Ret x w' t → w' = w ∧ heap w !! e = Some x ∧ t = [].
Proof.
  unfold load. destruct (heap w !! e) as [y|]; [| discriminate]. by intros [= <- <- <-].
Qed.

Lemma read_times_ret (e : ptr) (tm : Z * Z) (w w' : World) (t : list Event) :
  read_times e w = Ret tm w' t → t = [EvEntryUnlock e; EvEntryLock e].
Proof.
  unfold read_times. run. unfold yield. destruct (env w); run; [discriminate |].
  by intros [= _ _ <-].
Qed.

Lemma ensure_entry_initialized_ret (e : ptr) (w w' : World) (t : list Event) :
  ensure_entry_initialized e w = Ret tt w' t → blocking_calls t = [].
Proof.
  unfold ensure_entry_initialized. run. destruct (heap w !! e) as [x|]; run; [| discriminate].
  destruct (initialized x); run; by intros [= _ <-].
Qed.

Lemma wait_loop_restart_status (fuel : nat) (e : ptr) (entryt diff mono_ts : Z)
    (w w' : World) (r : GstClockReturn) (t : list Event) :
  wait_loop fuel e true entryt diff mono_ts w = Ret r w' t →
  status <$> (heap w' !! e) = Some r.
Proof.
  revert diff mono_ts w t. induction fuel as [|fuel IH]; intros diff mono_ts w t H;
    cbn [wait_loop] in H; [discriminate |].
  apply bind_ret_inv in H as (waitret & w1 & ? & ? & _ & H & _).
  apply bind_ret_inv in H as (st & w2 & ? & ? & (-> & Hst & _)%get_status_ret & H & _).
  destruct (decide (st = GST_CLOCK_UNSCHEDULED)) as [->|_].
  { by apply ret_inv in H as (<- & <- & _). }
  apply bind_ret_inv in H as ([] & w3 & ? & ? & _ & H & _).
  apply bind_ret_inv in H as ([] & w4 & ? & ? & _ & H & _).
  rewrite andb_false_r in H.
  apply bind_ret_inv in H as (tm & w5 & ? & ? & _ & H & _).
  apply bind_ret_inv in H as (st2 & w6 & ? & ? & (-> & Hst2 & _)%get_status_ret & H & _).
  destruct (decide (st2 = GST_CLOCK_UNSCHEDULED)) as [->|_].
  { by apply ret_inv in H as (<- & <- & _). }
  cbv zeta in H. destruct (_ <=? CLOCK_MIN_WAIT_TIME).
  - apply bind_ret_inv in H as ([] & w7 & ? & ? & (Hs & _)%set_status_ret & H & _).
    by apply ret_inv in H as (<- & <- & _).
  - apply bind_ret_inv in H as ([] & w7 & ? & ? & _ & H & _). by eapply IH.
Qed.

Lemma wait_core_restart_status (fuel : nat) (e : ptr) (jitter : bool)
    (w w' : World) (r : GstClockReturn) (t : list Event) :
  gst_system_clock_id_wait_jitter_unlocked fuel e jitter true w = Ret r w' t →
  status <$> (heap w' !! e) = Some r ∧ (r = GST_CLOCK_EARLY → blocking_calls t = []).
Proof.
  unfold gst_system_clock_id_wait_jitter_unlocked. intros H.
  apply bind_ret_inv in H as (tm & w1 & t1 & ? & ->%read_times_ret & H & ->).
  apply bind_ret_inv in H as (st & w2 & ? & ? & (-> & Hst & ->)%get_status_ret & H & ->).
  destruct (decide (st = GST_CLOCK_UNSCHEDULED)) as [->|_].
  { by apply ret_inv in H as (<- & <- & ->). }
  apply bind_ret_inv in H as (ent & w3 & ? & ? & (_ & _ & ->)%load_ret & H & ->).
  cbv zeta in H.
  apply bind_ret_inv in H as ([] & w4 & t4 & ? & Hj & H & ->).
  assert (blocking_calls t4 = []) as Hb4.
  { destruct jitter; [| by apply ret_inv in Hj as (_ & _ & ->)].
    unfold emit in Hj. by injection Hj as _ <-. }
  destruct (CLOCK_MIN_WAIT_TIME <? _).
  - split; [by eapply wait_loop_restart_status |].
    intros ->. by apply wait_loop_restart_result in H as [|].
  - destruct (_ =? 0);
      apply bind_ret_inv in H as ([] & w5 & ? & ? & (Hs & ->)%set_status_ret & H & ->);
      apply ret_inv in H as (<- & <- & ->); (split; [done |]); intros _;
      unfold blocking_calls in *; rewrite !omap_app, Hb4; done.
Qed.

(** X4. When [gst_system_clock_id_wait_jitter] returns, the status it
    leaves in the entry is the value it returns; and it returns Early only
    from the first look at the clock, without having waited or slept. *)
Theorem sync_wait_leaves_result (fuel : nat) (e : ptr) (jitter : bool)
    (w w' : World) (r : GstClockReturn) (t : list Event) :
  gst_system_clock_id_wait_jitter fuel e jitter w = Ret r w' t →
  status <$> (heap w' !! e) = Some r ∧
  (r = GST_CLOCK_EARLY → blocking_calls t = []).
Proof.
  unfold gst_system_clock_id_wait_jitter. intros H.
  apply bind_ret_inv in H as ([] & w1 & ? & ? & [= <- <-] & H & ->).
  apply bind_ret_inv in H as ([] & w2 & t2 & ? & Hi%ensure_entry_initialized_ret & H & ->).
  apply bind_ret_inv in H as ([] & w3 & ? & ? & [= <- <-] & H & ->).
  apply bind_ret_inv in H as ([] & w4 & ? & ? & [= <- <-] & H & ->).
  apply bind_ret_inv in H as (st & w5 & ? & ? & (-> & Hst & ->)%get_status_ret & H & ->).
  destruct (decide (st = GST_CLOCK_UNSCHEDULED)) as [->|_].
  { apply bind_ret_inv in H as ([] & w6 & ? & ? & [= <- <-] & H & ->).
    by apply ret_inv in H as (<- & <- & ->). }
  apply bind_ret_inv in H as ([] & w6 & t6 & ? & Hlog & H & ->).
  assert (blocking_calls t6 = []) as Hb6.
  { destruct (decide (st = GST_CLOCK_OK)); [by apply ret_inv in Hlog as (_ & _ & ->) |].
    unfold emit in Hlog. by injection Hlog as _ <-. }
  apply bind_ret_inv in H as ([] & w7 & ? & ? & (_ & ->)%set_status_ret & H & ->).
  apply bind_ret_inv in H as (r' & w8 & t8 & ? & (Hs & Hb)%wait_core_restart_status & H & ->).
  apply bind_ret_inv in H as ([] & w9 & ? & ? & [= <- <-] & H & ->).
  apply ret_inv in H as (<- & <- & ->). split; [done |].
  intros Hr. specialize (Hb Hr). unfold blocking_calls in *.
  rewrite !omap_app, Hi, Hb6, Hb. done.
Qed.

(** ** The dispatcher and the entries that stay unscheduled *)

Lemma keeps_bind {A B : Type} (J : list Event → World → Prop) (m : M A) (f : A → M B) :
  keeps J m → (∀ a, keeps J (f a)) → keeps J (m ≫= f).
Proof. intros Hm Hf. by apply hoare_bind with (Q := λ _, J). Qed.

Lemma keeps_ret {A : Type} (J : list Event → World → Prop) (a : A) : keeps J (mret a).
Proof. by apply hoare_ret. Qed.

Lemma keeps_fault {A : Type} (J : list Event → World → Prop) (f : Failure) :
  keeps J (fault (A := A) f).
Proof. by apply hoare_fault. Qed.

Lemma interfere_unscheduled (p : ptr) (acts : list EnvAct) (h : gmap ptr GstClockEntryImpl)
    (q : GstSystemClockPrivate) :
  forallb (act_leaves_unscheduled p) acts = true →
  status <$> (h !! p) = Some GST_CLOCK_UNSCHEDULED →
  status <$> ((interfere acts (h, q)).1 !! p) = Some GST_CLOCK_UNSCHEDULED.
Proof.
  revert h q. induction acts as [|a acts IH]; intros h q Ha Hp; [done |].
  cbn [forallb] in Ha. apply andb_prop in Ha as [Ha Hacts].
  unfold interfere in *. cbn [foldl fst snd]. apply IH; [done |].
  destruct a as [e st| |]; cbn [act_heap]; try done.
  destruct (h !! e) as [x|] eqn:He; [| done].
  destruct (decide (e = p)) as [->|Hne].
  - rewrite lookup_insert_eq. cbn [act_leaves_unscheduled] in Ha.
    rewrite bool_decide_eq_true_2 in Ha by done. cbn [negb orb] in Ha.
    apply bool_decide_eq_true_1 in Ha. by subst st.
  - by rewrite lookup_insert_ne.
Qed.

Section Unscheduled.

Variable p : ptr.














End Unscheduled.


(** ** One pass of the dispatcher *)

Lemma next_entry_run (e : ptr) (w : World) (step : EnvStep) (rest : list EnvStep) :
  env w = step :: rest →
  next_entry e w = Ret tt (dequeued_world e (after_window step rest w)) [EvClockLock; EvUnref e].
Proof.
  intros Henv. unfold next_entry, relock_clock, set_entries.
  run. rewrite (yield_run _ _ _ Henv). by run.
Qed.

(** One pass of the dispatcher loop over a head entry that is due. *)
Lemma fire_pass (fuel : nat) (e : ptr) (l : list ptr) (w : World)
    (x y : GstClockEntryImpl) (s1 s2 : EnvStep) (rest : list EnvStep) :
  stopping (priv w) = false →
  entries (priv w) = e :: l →
  heap w !! e = Some x →
  initialized x = true →
  status x = GST_CLOCK_OK ∨ status x = GST_CLOCK_EARLY →
  env w = s1 :: s2 :: rest →
  heap (after_window s1 (s2 :: rest) (put_status e GST_CLOCK_BUSY x w)) !! e = Some y →
  status y ≠ GST_CLOCK_UNSCHEDULED →
  GST_CLOCK_DIFF (wrap_u64 (env_now s1)) (time y) ≤ CLOCK_MIN_WAIT_TIME →
  func y = true →
  type y ≠ GST_CLOCK_ENTRY_PERIODIC →
  async_loop (S fuel) w =
  after [EvEntryLock e; EvClockUnlock; EvEntryUnlock e; EvEntryLock e; EvEntryUnlock e;
         EvCallback e (time y); EvClockLock; EvUnref e]
    (async_loop fuel
       (dequeued_world e
          (after_window s2 rest
             (put_status e
                (if GST_CLOCK_DIFF (wrap_u64 (env_now s1)) (time y) =? 0
                 then GST_CLOCK_OK else GST_CLOCK_EARLY) y
                (after_window s1 (s2 :: rest) (put_status e GST_CLOCK_BUSY x w)))))).
Proof.
  intros Hstop Hq Hx Hini Hst Henv Hy Hsty Hdue Hf Hty. cbn [async_loop].
  unfold mbind at 1, M_bind at 1. unfold get_priv at 1. rewrite Hstop, Hq. cbn [after].
  unfold mbind at 1, M_bind at 1. rewrite (load_run e w x Hx). rewrite Hini.
  cbn [negb after]. cbv zeta.
  unfold mbind at 1, M_bind at 1. unfold emit at 1. cbn [after].
  destruct (decide (status x = GST_CLOCK_UNSCHEDULED)) as [Hu|_].
  { destruct Hst; congruence. }
  destruct (decide (status x ≠ GST_CLOCK_OK ∧ status x ≠ GST_CLOCK_EARLY)) as [[??]|_].
  { destruct Hst; congruence. }
  unfold mbind at 1 2, M_bind at 1 2. unfold mret at 1, M_ret at 1. cbn [after].
  rewrite (set_status_run e _ w x Hx). cbn [after].
  unfold mbind at 1, M_bind at 1. unfold emit at 1. cbn [after].
  unfold mbind at 1, M_bind at 1.
  rewrite (wait_core_start fuel e false false _ s1 (s2 :: rest) y) by done.
  assert ((CLOCK_MIN_WAIT_TIME <? GST_CLOCK_DIFF (wrap_u64 (env_now s1)) (time y)) = false)
    as -> by lia.
  set (w1 := after_window s1 (s2 :: rest) (put_status e GST_CLOCK_BUSY x w)) in *.
  assert (∀ r,
            (emit (EvEntryUnlock e);;
             z ← load e;
             (if func z then emit (EvCallback e (time z)) else mret tt);;
             if decide (type z = GST_CLOCK_ENTRY_PERIODIC) then
               relock_clock;;
               z' ← load e;
               store e (with_time (wrap_u64 (time x + interval z')) z');;
               q ← get_priv;
               h ← get_heap;
               set_entries (g_list_sort (entries q) (gst_clock_id_compare_func h));;
               async_loop fuel
             else next_entry e;; async_loop fuel) (put_status e r y w1) =
            after [EvEntryUnlock e; EvCallback e (time y); EvClockLock; EvUnref e]
              (async_loop fuel
                 (dequeued_world e (after_window s2 rest (put_status e r y w1))))) as Hgo.
  { intros r.
    assert (heap (put_status e r y w1) !! e = Some (with_status r y)) as Hz
      by apply lookup_insert_eq.
    unfold mbind at 1, M_bind at 1. unfold emit at 1. cbn [after].
    unfold mbind at 1, M_bind at 1. rewrite (load_run e _ _ Hz).
    cbn [func type time with_status after]. rewrite Hf.
    unfold mbind at 1, M_bind at 1. unfold emit at 1. cbn [after].
    destruct (decide (type y = GST_CLOCK_ENTRY_PERIODIC)) as [|_]; [done |].
    unfold mbind at 1, M_bind at 1.
    rewrite (next_entry_run e (put_status e r y w1) s2 rest) by done.
    cbn [after]. by rewrite !after_after. }
  assert (∀ r, (set_status e r;; mret r) w1 = Ret r (put_status e r y w1) []) as Hset.
  { intros r. unfold mbind, M_bind. by rewrite (set_status_run e _ w1 y Hy). }
  destruct (GST_CLOCK_DIFF (wrap_u64 (env_now s1)) (time y) =? 0);
    rewrite Hset; cbn [after app]; rewrite Hgo; by rewrite !after_after.
Qed.

(** X15. A head entry that is due is fired. When the dispatcher finds at
    the head of the queue a single-shot entry with a callback, whose
    status is OK or Early, and the clock read in the wait core shows it due
    (diff at most [CLOCK_MIN_WAIT_TIME]) while it was not unscheduled
    meanwhile, the pass waits for nothing, runs the callback once, with
    the entry's deadline and with no lock held, then takes the clock lock,
    removes the entry from the queue, drops the queue's reference and
    goes on with the loop. *)
Theorem dispatcher_fires_due_head (fuel : nat) (e : ptr) (l : list ptr) (w : World)
    (x y : GstClockEntryImpl) (s1 s2 : EnvStep) (rest : list EnvStep) :
  stopping (priv w) = false →
  entries (priv w) = e :: l →
  heap w !! e = Some x →
  initialized x = true →
  status x = GST_CLOCK_OK ∨ status x = GST_CLOCK_EARLY →
  env w = s1 :: s2 :: rest →
  heap (after_window s1 (s2 :: rest) (put_status e GST_CLOCK_BUSY x w)) !! e = Some y →
  status y ≠ GST_CLOCK_UNSCHEDULED →
  GST_CLOCK_DIFF (wrap_u64 (env_now s1)) (time y) ≤ CLOCK_MIN_WAIT_TIME →
  func y = true →
  type y ≠ GST_CLOCK_ENTRY_PERIODIC →
  async_loop (S fuel) w =
  after [EvEntryLock e; EvClockUnlock; EvEntryUnlock e; EvEntryLock e; EvEntryUnlock e;
         EvCallback e (time y); EvClockLock; EvUnref e]
    (async_loop fuel
       (dequeued_world e
          (after_window s2 rest
             (put_status e
                (if GST_CLOCK_DIFF (wrap_u64 (env_now s1)) (time y) =? 0
                 then GST_CLOCK_OK else GST_CLOCK_EARLY) y
                (after_window s1 (s2 :: rest) (put_status e GST_CLOCK_BUSY x w)))))).
Proof. apply fire_pass. Qed.

(** A head that was unscheduled is dropped: no clock is read, nothing is
    waited for and no callback is run. *)
Lemma drop_unscheduled_pass (fuel : nat) (e : ptr) (l : list ptr) (w : World)
    (x : GstClockEntryImpl) (s1 : EnvStep) (rest : list EnvStep) :
  stopping (priv w) = false →
  entries (priv w) = e :: l →
  heap w !! e = Some x →
  initialized x = true →
  status x = GST_CLOCK_UNSCHEDULED →
  env w = s1 :: rest →
  async_loop (S fuel) w =
  after [EvEntryLock e; EvClockUnlock; EvEntryUnlock e; EvClockLock; EvUnref e]
    (async_loop fuel (dequeued_world e (after_window s1 rest w))).
Proof.
  intros Hstop Hq Hx Hini Hst Henv. cbn [async_loop].
  unfold mbind at 1, M_bind at 1. unfold get_priv at 1. rewrite Hstop, Hq. cbn [after].
  unfold mbind at 1, M_bind at 1. rewrite (load_run e w x Hx). rewrite Hini.
  cbn [negb after]. cbv zeta.
  unfold mbind at 1, M_bind at 1. unfold emit at 1. cbn [after].
  destruct (decide (status x = GST_CLOCK_UNSCHEDULED)) as [_|]; [| done].
  unfold mbind at 1, M_bind at 1. unfold emit at 1. cbn [after].
  unfold unlock_entry_and_next_entry.
  unfold mbind at 1 2, M_bind at 1 2. unfold emit at 1. cbn [after].
  rewrite (next_entry_run e w s1 rest Henv). cbn [after]. by rewrite !after_after.
Qed.

Lemma wait_loop_woken (fuel : nat) (e : ptr) (entryt diff mono_ts : Z) (w : World)
    (s : EnvStep) (rest : list EnvStep) (z : GstClockEntryImpl) :
  env w = s :: rest →
  heap (after_window s rest w) !! e = Some z →
  status z = GST_CLOCK_BUSY →
  wait_woken s diff = true →
  wait_loop (S fuel) e false entryt diff mono_ts w =
  Ret GST_CLOCK_BUSY (put_status e GST_CLOCK_DONE z (after_window s rest w))
    (wait_events e diff mono_ts).
Proof.
  intros Henv Hz Hst Hwoken. cbn [wait_loop]. unfold wait_woken, wait_events in *.
  unfold get_status, set_status.
  destruct (HAVE_CLOCK_NANOSLEEP && (diff <=? 500 * GST_USECOND)).
  - run. rewrite (yield_run _ _ _ Henv). run. rewrite Hwoken, Hz. run. rewrite Hst.
    destruct (decide (GST_CLOCK_BUSY = GST_CLOCK_UNSCHEDULED)) as [|_]; [done |].
    destruct (decide (GST_CLOCK_BUSY = GST_CLOCK_BUSY)) as [_|]; [| done].
    run. rewrite Hz. by run.
  - run. rewrite (yield_run _ _ _ Henv). run. rewrite Hwoken, Hz. run. rewrite Hst.
    destruct (decide (GST_CLOCK_BUSY = GST_CLOCK_UNSCHEDULED)) as [|_]; [done |].
    destruct (decide (GST_CLOCK_BUSY = GST_CLOCK_BUSY)) as [_|]; [| done].
    run. rewrite Hz. by run.
Qed.

(** One pass of the dispatcher loop whose wait is ended by a wake-up. *)
Lemma restart_pass (fuel : nat) (e : ptr) (l : list ptr) (w : World)
    (x y z : GstClockEntryImpl) (s1 s2 s3 : EnvStep) (rest : list EnvStep) :
  stopping (priv w) = false →
  entries (priv w) = e :: l →
  heap w !! e = Some x →
  initialized x = true →
  status x = GST_CLOCK_OK ∨ status x = GST_CLOCK_EARLY →
  env w = s1 :: s2 :: s3 :: rest →
  heap (after_window s1 (s2 :: s3 :: rest) (put_status e GST_CLOCK_BUSY x w)) !! e = Some y →
  status y ≠ GST_CLOCK_UNSCHEDULED →
  CLOCK_MIN_WAIT_TIME < GST_CLOCK_DIFF (wrap_u64 (env_now s1)) (time y) →
  heap (after_window s2 (s3 :: rest)
          (after_window s1 (s2 :: s3 :: rest) (put_status e GST_CLOCK_BUSY x w))) !! e
    = Some z →
  status z = GST_CLOCK_BUSY →
  wait_woken s2 (GST_CLOCK_DIFF (wrap_u64 (env_now s1)) (time y)) = true →
  async_loop (S (S fuel)) w =
  after ([EvEntryLock e; EvClockUnlock; EvEntryUnlock e; EvEntryLock e] ++
         wait_events e (GST_CLOCK_DIFF (wrap_u64 (env_now s1)) (time y))
           (wrap_i64 (env_mono s1)) ++
         [EvEntryUnlock e; EvClockLock])
    (async_loop (S fuel)
       (after_window s3 rest
          (put_status e GST_CLOCK_OK (with_status GST_CLOCK_DONE z)
             (put_status e GST_CLOCK_DONE z
                (after_window s2 (s3 :: rest)
                   (after_window s1 (s2 :: s3 :: rest)
                      (put_status e GST_CLOCK_BUSY x w))))))).
Proof.
  intros Hstop Hq Hx Hini Hst Henv Hy Hsty Hfar Hz Hstz Hwoken.
  remember (S fuel) as fuel1 eqn:Hfuel. cbn [async_loop].
  unfold mbind at 1, M_bind at 1. unfold get_priv at 1. rewrite Hstop, Hq. cbn [after].
  unfold mbind at 1, M_bind at 1. rewrite (load_run e w x Hx). rewrite Hini.
  cbn [negb after]. cbv zeta.
  unfold mbind at 1, M_bind at 1. unfold emit at 1. cbn [after].
  destruct (decide (status x = GST_CLOCK_UNSCHEDULED)) as [Hu|_].
  { destruct Hst; congruence. }
  destruct (decide (status x ≠ GST_CLOCK_OK ∧ status x ≠ GST_CLOCK_EARLY)) as [[??]|_].
  { destruct Hst; congruence. }
  unfold mbind at 1 2, M_bind at 1 2. unfold mret at 1, M_ret at 1. cbn [after].
  rewrite (set_status_run e _ w x Hx). cbn [after].
  unfold mbind at 1, M_bind at 1. unfold emit at 1. cbn [after].
  unfold mbind at 1, M_bind at 1.
  rewrite (wait_core_start fuel1 e false false _ s1 (s2 :: s3 :: rest) y) by done.
  assert ((CLOCK_MIN_WAIT_TIME <? GST_CLOCK_DIFF (wrap_u64 (env_now s1)) (time y)) = true)
    as -> by lia.
  set (w1 := after_window s1 (s2 :: s3 :: rest) (put_status e GST_CLOCK_BUSY x w)) in *.
  subst fuel1.
  rewrite (wait_loop_woken fuel e _ _ _ w1 s2 (s3 :: rest) z) by done.
  set (w2 := put_status e GST_CLOCK_DONE z (after_window s2 (s3 :: rest) w1)).
  assert (heap w2 !! e = Some (with_status GST_CLOCK_DONE z)) as Hz2
    by apply lookup_insert_eq.
  cbn [after app].
  unfold mbind at 1, M_bind at 1. rewrite (set_status_run e _ w2 _ Hz2). cbn [after].
  unfold mbind at 1, M_bind at 1. unfold emit at 1. cbn [after].
  unfold relock_clock.
  unfold mbind at 1 2, M_bind at 1 2.
  rewrite (yield_run (put_status e GST_CLOCK_OK (with_status GST_CLOCK_DONE z) w2) s3 rest)
    by done.
  unfold emit at 1. cbn [after]. rewrite !after_after. f_equal.
  cbn [app]. by rewrite <- !app_assoc.
Qed.

(** X17. A wake-up makes the dispatcher look at the queue again. When
    the dispatcher waits for the head entry and the wait is ended by a
    wake-up ([waitret] TRUE, which with [clock_nanosleep] is a sleep that
    completed) while the entry is still Busy, the pass runs no callback and
    does not read the clock again: the entry stays in the queue, its status
    is set back to OK under its lock, and the clock lock is taken for the
    next pass. *)
Theorem dispatcher_restarts_after_wakeup (fuel : nat) (e : ptr) (l : list ptr) (w : World)
    (x y z : GstClockEntryImpl) (s1 s2 s3 : EnvStep) (rest : list EnvStep) :
  stopping (priv w) = false →
  entries (priv w) = e :: l →
  heap w !! e = Some x →
  initialized x = true →
  status x = GST_CLOCK_OK ∨ status x = GST_CLOCK_EARLY →
  env w = s1 :: s2 :: s3 :: rest →
  heap (after_window s1 (s2 :: s3 :: rest) (put_status e GST_CLOCK_BUSY x w)) !! e = Some y →
  status y ≠ GST_CLOCK_UNSCHEDULED →
  CLOCK_MIN_WAIT_TIME < GST_CLOCK_DIFF (wrap_u64 (env_now s1)) (time y) →
  heap (after_window s2 (s3 :: rest)
          (after_window s1 (s2 :: s3 :: rest) (put_status e GST_CLOCK_BUSY x w))) !! e
    = Some z →
  status z = GST_CLOCK_BUSY →
  wait_woken s2 (GST_CLOCK_DIFF (wrap_u64 (env_now s1)) (time y)) = true →
  async_loop (S (S fuel)) w =
  after ([EvEntryLock e; EvClockUnlock; EvEntryUnlock e; EvEntryLock e] ++
         wait_events e (GST_CLOCK_DIFF (wrap_u64 (env_now s1)) (time y))
           (wrap_i64 (env_mono s1)) ++
         [EvEntryUnlock e; EvClockLock])
    (async_loop (S fuel)
       (after_window s3 rest
          (put_status e GST_CLOCK_OK (with_status GST_CLOCK_DONE z)
             (put_status e GST_CLOCK_DONE z
                (after_window s2 (s3 :: rest)
                   (after_window s1 (s2 :: s3 :: rest)
                      (put_status e GST_CLOCK_BUSY x w))))))).
Proof. apply restart_pass. Qed.

Lemma after_window_quiet (s : EnvStep) (rest : list EnvStep) (w : World) :
  env_acts s = [] →
  after_window s rest w = mkWorld (heap w) (priv w) rest (threads_available w).
Proof. intros Hs. unfold after_window. by rewrite Hs. Qed.

(** X18. With [clock_nanosleep], an entry that is due within 500
    microseconds is fired all the same. The dispatcher sleeps until the
    deadline; the completed sleep is taken for a wake-up, so the first pass
    ends without a callback and with the entry set back to OK; the second
    pass reads the clock, finds the entry due and runs the callback with
    the entry's deadline, then removes the entry from the queue and drops
    the reference. No other thread acts meanwhile. *)
Theorem nanosleep_entry_still_fired (fuel : nat) (e : ptr) (l : list ptr) (w : World)
    (x : GstClockEntryImpl) (s1 s2 s3 s4 s5 : EnvStep) (rest : list EnvStep) :
  HAVE_CLOCK_NANOSLEEP = true →
  stopping (priv w) = false →
  entries (priv w) = e :: l →
  heap w !! e = Some x →
  initialized x = true →
  status x = GST_CLOCK_OK →
  func x = true →
  type x ≠ GST_CLOCK_ENTRY_PERIODIC →
  env w = s1 :: s2 :: s3 :: s4 :: s5 :: rest →
  Forall (λ s, env_acts s = []) [s1; s2; s3; s4; s5] →
  CLOCK_MIN_WAIT_TIME < GST_CLOCK_DIFF (wrap_u64 (env_now s1)) (time x) ≤ 500 * GST_USECOND →
  env_ret s2 = 0 →
  GST_CLOCK_DIFF (wrap_u64 (env_now s4)) (time x) ≤ CLOCK_MIN_WAIT_TIME →
  ∃ r w',
    async_loop (S (S (S fuel))) w =
    after [EvEntryLock e; EvClockUnlock; EvEntryUnlock e; EvEntryLock e;
           EvEntryUnlock e;
           EvNanosleep (wrap_i64 (wrap_i64 (env_mono s1) * 1000 +
                                  GST_CLOCK_DIFF (wrap_u64 (env_now s1)) (time x)));
           EvEntryLock e; EvEntryUnlock e; EvClockLock;
           EvEntryLock e; EvClockUnlock; EvEntryUnlock e; EvEntryLock e; EvEntryUnlock e;
           EvCallback e (time x); EvClockLock; EvUnref e]
      (async_loop (S fuel) w') ∧
    (r = GST_CLOCK_OK ∨ r = GST_CLOCK_EARLY) ∧
    heap w' = <[e := with_status r x]> (heap w) ∧
    entries (priv w') = l ∧
    env w' = rest.
Proof.
  intros Hns Hstop Hq Hx Hini Hst Hf Hty Henv Hquiet [Hfar Hnear] Hret Hdue.
  apply Forall_cons in Hquiet as [Hq1 Hquiet]. apply Forall_cons in Hquiet as [Hq2 Hquiet].
  apply Forall_cons in Hquiet as [Hq3 Hquiet]. apply Forall_cons in Hquiet as [Hq4 Hquiet].
  apply Forall_cons in Hquiet as [Hq5 _].
  set (d1 := GST_CLOCK_DIFF (wrap_u64 (env_now s1)) (time x)) in *.
  set (r := if GST_CLOCK_DIFF (wrap_u64 (env_now s4)) (time x) =? 0
            then GST_CLOCK_OK else GST_CLOCK_EARLY).
  assert (wait_events e d1 (wrap_i64 (env_mono s1)) =
          [EvEntryUnlock e; EvNanosleep (wrap_i64 (wrap_i64 (env_mono s1) * 1000 + d1));
           EvEntryLock e]) as Hev.
  { unfold wait_events. rewrite Hns. by assert ((d1 <=? 500 * GST_USECOND) = true) as -> by lia. }
  assert (wait_woken s2 d1 = true) as Hwoken.
  { unfold wait_woken. rewrite Hns, Hret.
    by assert ((d1 <=? 500 * GST_USECOND) = true) as -> by lia. }
  rewrite (restart_pass (S fuel) e l w x (with_status GST_CLOCK_BUSY x)
             (with_status GST_CLOCK_BUSY x) s1 s2 s3 (s4 :: s5 :: rest)); try done.
  2:{ by left. }
  2:{ rewrite after_window_quiet by done. apply lookup_insert_eq. }
  2:{ rewrite !after_window_quiet by done. apply lookup_insert_eq. }
  cbn [time with_status]. fold d1. rewrite Hev.
  rewrite !after_window_quiet by done.
  unfold put_status. cbn [heap priv env threads_available with_status time interval type
    status func initialized]. rewrite !insert_insert_eq.
  set (x1 := mkEntry (time x) (interval x) (type x) GST_CLOCK_OK (func x) (initialized x)).
  rewrite (fire_pass (S fuel) e l _ x1 (with_status GST_CLOCK_BUSY x1) s4 s5 rest); try done.
  2:{ apply lookup_insert_eq. }
  2:{ by left. }
  2:{ rewrite after_window_quiet by done. apply lookup_insert_eq. }
  cbn [time with_status x1]. fold r.
  rewrite !after_window_quiet by done.
  unfold put_status, dequeued_world.
  cbn [heap priv env threads_available thread starting stopping entries with_status time
    interval type status func initialized]. rewrite !insert_insert_eq, after_after.
  rewrite Hq. cbn [g_list_remove]. rewrite decide_True by done.
  exists r. eexists. split; [reflexivity |]. cbn [heap priv entries env].
  split_and!; [| | done..].
  - subst r. destruct (_ =? 0); auto.
  - by destruct x.
Qed.

Lemma wait_loop_unscheduled (fuel : nat) (e : ptr) (restart : bool) (entryt diff mono_ts : Z)
    (w : World) (s : EnvStep) (rest : list EnvStep) (z : GstClockEntryImpl) :
  env w = s :: rest →
  heap (after_window s rest w) !! e = Some z →
  status z = GST_CLOCK_UNSCHEDULED →
  wait_loop (S fuel) e restart entryt diff mono_ts w =
  Ret GST_CLOCK_UNSCHEDULED (after_window s rest w) (wait_events e diff mono_ts).
Proof.
  intros Henv Hz Hst. cbn [wait_loop]. unfold wait_events. unfold get_status.
  destruct (HAVE_CLOCK_NANOSLEEP && (diff <=? 500 * GST_USECOND)).
  - run. rewrite (yield_run _ _ _ Henv). run. rewrite Hz. run. rewrite Hst.
    by destruct (decide (GST_CLOCK_UNSCHEDULED = GST_CLOCK_UNSCHEDULED)).
  - run. rewrite (yield_run _ _ _ Henv). run. rewrite Hz. run. rewrite Hst.
    by destruct (decide (GST_CLOCK_UNSCHEDULED = GST_CLOCK_UNSCHEDULED)).
Qed.

(** X22. The dispatcher stops when the clock is disposed while it waits.
    When, during its wait for the head entry, the entry is unscheduled and
    [stopping] is set, as [gst_system_clock_dispose] does, the thread runs
    no callback: it unlocks the entry, takes the clock lock, removes that
    one entry from the queue and drops its reference, and leaves the loop;
    the entries behind it stay in the queue. *)
Theorem dispatcher_stops_when_disposed (fuel : nat) (e : ptr) (l : list ptr) (w : World)
    (x y z : GstClockEntryImpl) (s1 s2 s3 : EnvStep) (rest : list EnvStep) :
  stopping (priv w) = false →
  entries (priv w) = e :: l →
  heap w !! e = Some x →
  initialized x = true →
  status x = GST_CLOCK_OK ∨ status x = GST_CLOCK_EARLY →
  env w = s1 :: s2 :: s3 :: rest →
  heap (after_window s1 (s2 :: s3 :: rest) (put_status e GST_CLOCK_BUSY x w)) !! e = Some y →
  status y ≠ GST_CLOCK_UNSCHEDULED →
  CLOCK_MIN_WAIT_TIME < GST_CLOCK_DIFF (wrap_u64 (env_now s1)) (time y) →
  heap (after_window s2 (s3 :: rest)
          (after_window s1 (s2 :: s3 :: rest) (put_status e GST_CLOCK_BUSY x w))) !! e
    = Some z →
  status z = GST_CLOCK_UNSCHEDULED →
  stopping (priv (after_window s3 rest
                    (after_window s2 (s3 :: rest)
                       (after_window s1 (s2 :: s3 :: rest)
                          (put_status e GST_CLOCK_BUSY x w))))) = true →
  async_loop (S (S fuel)) w =
  Ret tt
    (dequeued_world e
       (after_window s3 rest
          (after_window s2 (s3 :: rest)
             (after_window s1 (s2 :: s3 :: rest) (put_status e GST_CLOCK_BUSY x w)))))
    ([EvEntryLock e; EvClockUnlock; EvEntryUnlock e; EvEntryLock e] ++
     wait_events e (GST_CLOCK_DIFF (wrap_u64 (env_now s1)) (time y))
       (wrap_i64 (env_mono s1)) ++
     [EvEntryUnlock e; EvClockLock; EvUnref e]).
Proof.
  intros Hstop Hq Hx Hini Hst Henv Hy Hsty Hfar Hz Hstz Hstopped.
  remember (S fuel) as fuel1 eqn:Hfuel. cbn [async_loop].
  unfold mbind at 1, M_bind at 1. unfold get_priv at 1. rewrite Hstop, Hq. cbn [after].
  unfold mbind at 1, M_bind at 1. rewrite (load_run e w x Hx). rewrite Hini.
  cbn [negb after]. cbv zeta.
  unfold mbind at 1, M_bind at 1. unfold emit at 1. cbn [after].
  destruct (decide (status x = GST_CLOCK_UNSCHEDULED)) as [Hu|_].
  { destruct Hst; congruence. }
  destruct (decide (status x ≠ GST_CLOCK_OK ∧ status x ≠ GST_CLOCK_EARLY)) as [[??]|_].
  { destruct Hst; congruence. }
  unfold mbind at 1 2, M_bind at 1 2. unfold mret at 1, M_ret at 1. cbn [after].
  rewrite (set_status_run e _ w x Hx). cbn [after].
  unfold mbind at 1, M_bind at 1. unfold emit at 1. cbn [after].
  unfold mbind at 1, M_bind at 1.
  rewrite (wait_core_start fuel1 e false false _ s1 (s2 :: s3 :: rest) y) by done.
  assert ((CLOCK_MIN_WAIT_TIME <? GST_CLOCK_DIFF (wrap_u64 (env_now s1)) (time y)) = true)
    as -> by lia.
  set (w1 := after_window s1 (s2 :: s3 :: rest) (put_status e GST_CLOCK_BUSY x w)) in *.
  subst fuel1.
  rewrite (wait_loop_unscheduled fuel e _ _ _ _ w1 s2 (s3 :: rest) z) by done.
  cbn [after app]. unfold unlock_entry_and_next_entry.
  unfold mbind at 1 2, M_bind at 1 2. unfold emit at 1. cbn [after].
  rewrite (next_entry_run e (after_window s2 (s3 :: rest) w1) s3 rest) by done.
  cbn [after async_loop].
  unfold mbind at 1, M_bind at 1. unfold get_priv at 1.
  unfold dequeued_world at 1. cbn [priv stopping]. rewrite Hstopped.
  unfold mret, M_ret. cbn [after]. by f_equal.
Qed.

(** ** The assertion and the pointers of the dispatcher *)

Lemma safe_bind {A B : Type} (J : World → Prop) (m : M A) (f : A → M B)
    (Q : A → World → Prop) (R : B → World → Prop) :
  safe J m Q → (∀ a, safe (Q a) (f a) R) → safe J (m ≫= f) R.
Proof.
  intros Hm Hf w HJ. specialize (Hm w HJ). unfold mbind, M_bind.
  destruct (m w) as [a w1 t1|e w1 t1]; [| done].
  specialize (Hf a w1 Hm). by destruct (f a w1).
Qed.

Lemma Forall_g_list_remove (P : ptr → Prop) (l : list ptr) (e : ptr) :
  Forall P l → Forall P (g_list_remove l e).
Proof.
  induction 1 as [|a l Ha Hl IH]; cbn [g_list_remove]; [done |].
  destruct (decide (a = e)); [done | by constructor].
Qed.

Lemma Forall_sort_insert {A : Type} (P : A → Prop) (cmp : A → A → Z) (x : A) (l : list A) :
  P x → Forall P l → Forall P (sort_insert cmp x l).
Proof.
  intros Hx. induction 1 as [|a l Ha Hl IH]; cbn [sort_insert]; [by constructor |].
  destruct (cmp x a <=? 0); by repeat constructor.
Qed.

Lemma Forall_g_list_sort {A : Type} (P : A → Prop) (cmp : A → A → Z) (l : list A) :
  Forall P l → Forall P (g_list_sort l cmp).
Proof.
  unfold g_list_sort. induction 1 as [|a l Ha Hl IH]; cbn [foldr]; [done |].
  by apply Forall_sort_insert.
Qed.

Lemma Forall_g_list_insert_sorted {A : Type} (P : A → Prop) (cmp : A → A → Z) (x : A)
    (l : list A) :
  P x → Forall P l → Forall P (g_list_insert_sorted l x cmp).
Proof.
  intros Hx. induction 1 as [|a l Ha Hl IH]; cbn [g_list_insert_sorted]; [by constructor |].
  destruct (cmp x a <? 0); by repeat constructor.
Qed.

Section Ready.

(** The entries at the start of the run. *)
Variable h0 : gmap ptr GstClockEntryImpl.

Lemma sf_ret {A : Type} (a : A) : safe (ready_inv h0) (mret a) (λ _, ready_inv h0).
Proof. by intros w HJ. Qed.

Lemma sf_out_of_fuel {A : Type} :
  safe (ready_inv h0) (fault (A := A) OutOfFuel) (λ _, ready_inv h0).
Proof. intros w HJ. by right. Qed.

Lemma sf_emit (ev : Event) : safe (ready_inv h0) (emit ev) (λ _, ready_inv h0).
Proof. by intros w HJ. Qed.

Lemma sf_get_heap {B : Type} (f : gmap ptr GstClockEntryImpl → M B) (Q : B → World → Prop) :
  (∀ h, safe (ready_inv h0) (f h) Q) → safe (ready_inv h0) (get_heap ≫= f) Q.
Proof. intros Hf. apply safe_bind with (Q := λ _, ready_inv h0); [by intros w HJ | done]. Qed.

Lemma sf_get_priv {B : Type} (f : GstSystemClockPrivate → M B) (Q : B → World → Prop) :
  (∀ p, Forall (ready_at h0) (entries p) → safe (ready_inv h0) (f p) Q) →
  safe (ready_inv h0) (get_priv ≫= f) Q.
Proof.
  intros Hf w HJ. unfold mbind, M_bind, get_priv. rewrite after_nil.
  apply Hf; [| done]. by destruct HJ as (_ & ? & _).
Qed.

Lemma sf_set_entries (l : list ptr) :
  Forall (ready_at h0) l → safe (ready_inv h0) (set_entries l) (λ _, ready_inv h0).
Proof. intros Hl w (Hh & _ & He). by split_and!. Qed.

Lemma sf_set_priv_starting (p : GstSystemClockPrivate) (b : bool) :
  Forall (ready_at h0) (entries p) →
  safe (ready_inv h0) (set_priv (mkPriv (thread p) b (stopping p) (entries p)))
    (λ _, ready_inv h0).
Proof. intros Hl w (Hh & _ & He). by split_and!. Qed.

Lemma sf_load {B : Type} (e : ptr) (f : GstClockEntryImpl → M B) (Q : B → World → Prop) :
  ready_at h0 e → (∀ x, initialized x = true → safe (ready_inv h0) (f x) Q) →
  safe (ready_inv h0) (load e ≫= f) Q.
Proof.
  intros He Hf w HJ. unfold mbind, M_bind, load.
  pose proof (proj1 HJ e He) as Hx.
  destruct (heap w !! e) as [x|]; [| discriminate]. injection Hx as Hx.
  rewrite after_nil. by apply Hf.
Qed.

Lemma sf_store (e : ptr) (y : GstClockEntryImpl) :
  initialized y = true → safe (ready_inv h0) (store e y) (λ _, ready_inv h0).
Proof.
  intros Hy w (Hh & Hq & He). split_and!; [| done..]. intros q Hr. cbn [heap].
  destruct (decide (e = q)) as [<-|Hne].
  - rewrite lookup_insert_eq. cbn. by rewrite Hy.
  - rewrite lookup_insert_ne by done. by apply Hh.
Qed.

Lemma sf_set_status (e : ptr) (st : GstClockReturn) :
  ready_at h0 e → safe (ready_inv h0) (set_status e st) (λ _, ready_inv h0).
Proof.
  intros He. unfold set_status. apply sf_load; [done |]. intros x Hx. by apply sf_store.
Qed.

Lemma sf_get_status {B : Type} (e : ptr) (f : GstClockReturn → M B) (Q : B → World → Prop) :
  ready_at h0 e → (∀ st, safe (ready_inv h0) (f st) Q) →
  safe (ready_inv h0) (get_status e ≫= f) Q.
Proof.
  intros He Hf. unfold get_status.
  apply safe_bind with (Q := λ _, ready_inv h0); [| done].
  apply sf_load; [done |]. intros x _. apply sf_ret.
Qed.

Lemma interfere_ready (acts : list EnvAct) (h : gmap ptr GstClockEntryImpl)
    (q : GstSystemClockPrivate) :
  forallb (λ a, match a with
                | EnvEnqueue e => bool_decide (initialized <$> (h0 !! e) = Some true)
                | _ => true
                end) acts = true →
  (∀ e, ready_at h0 e → initialized <$> (h !! e) = Some true) →
  Forall (ready_at h0) (entries q) →
  (∀ e, ready_at h0 e → initialized <$> ((interfere acts (h, q)).1 !! e) = Some true) ∧
  Forall (ready_at h0) (entries (interfere acts (h, q)).2).
Proof.
  revert h q. induction acts as [|a acts IH]; intros h q Ha Hh Hq; [done |].
  cbn [forallb] in Ha. apply andb_prop in Ha as [Ha Hacts].
  unfold interfere in *. cbn [foldl fst snd]. apply IH; [done | |].
  - intros e He. destruct a as [p st| |]; cbn [act_heap]; try by apply Hh.
    destruct (h !! p) as [x|] eqn:Hp; [| by apply Hh].
    destruct (decide (p = e)) as [->|Hne].
    + rewrite lookup_insert_eq. specialize (Hh e He). rewrite Hp in Hh. exact Hh.
    + rewrite lookup_insert_ne by done. by apply Hh.
  - destruct a as [p st|p|]; cbn [act_priv entries]; try done.
    apply Forall_g_list_insert_sorted; [| done]. by apply bool_decide_eq_true_1 in Ha.
Qed.

Lemma sf_yield : safe (ready_inv h0) yield (λ _, ready_inv h0).
Proof.
  intros w (Hh & Hq & He). unfold yield. destruct (env w) as [|s rest] eqn:Hw.
  - by left.
  - cbn [env_enqueues_ready forallb] in He. apply andb_prop in He as [Hs Hrest].
    destruct (interfere_ready (env_acts s) (heap w) (priv w) Hs Hh Hq) as [Hh' Hq'].
    by split_and!.
Qed.

Ltac sf_step :=
  first
    [ apply sf_ret | apply sf_out_of_fuel | apply sf_emit | apply sf_yield
    | apply sf_set_status; assumption
    | apply sf_store; assumption
    | apply sf_get_status; [assumption | intros ?]
    | apply sf_load; [assumption | intros ??]
    | apply sf_get_priv; intros ??
    | apply sf_get_heap; intros ?
    | apply sf_set_entries;
      first [ assumption | by apply Forall_g_list_remove | by apply Forall_g_list_sort ]
    | apply safe_bind with (Q := λ _, ready_inv h0); [| intros ?]
    | match goal with |- safe _ (if ?c then _ else _) _ => destruct c end
    | match goal with |- safe _ (match ?c with _ => _ end) _ => destruct c end
    | match goal with |- safe _ (let _ := _ in _) _ => cbv zeta end ].

Lemma sf_read_times (e : ptr) : safe (ready_inv h0) (read_times e) (λ _, ready_inv h0).
Proof. unfold read_times. repeat sf_step. Qed.

Lemma sf_wait_loop (fuel : nat) (e : ptr) (restart : bool) (entryt diff mono_ts : Z) :
  ready_at h0 e →
  safe (ready_inv h0) (wait_loop fuel e restart entryt diff mono_ts) (λ _, ready_inv h0).
Proof.
  intros He. revert diff mono_ts.
  induction fuel as [|fuel IH]; intros diff mono_ts; cbn [wait_loop].
  - apply sf_out_of_fuel.
  - repeat first [ apply IH | apply sf_read_times | sf_step ].
Qed.

Lemma sf_wait_core (fuel : nat) (e : ptr) (jitter restart : bool) :
  ready_at h0 e →
  safe (ready_inv h0) (gst_system_clock_id_wait_jitter_unlocked fuel e jitter restart)
    (λ _, ready_inv h0).
Proof.
  intros He. unfold gst_system_clock_id_wait_jitter_unlocked.
  repeat first [ by apply sf_wait_loop | apply sf_read_times | sf_step ].
Qed.

Lemma sf_next_entry (e : ptr) : safe (ready_inv h0) (next_entry e) (λ _, ready_inv h0).
Proof. unfold next_entry, relock_clock. repeat sf_step. Qed.

Lemma sf_async_loop (fuel : nat) : safe (ready_inv h0) (async_loop fuel) (λ _, ready_inv h0).
Proof.
  induction fuel as [|fuel IH]; cbn [async_loop].
  - apply sf_out_of_fuel.
  - apply sf_get_priv. intros p Hp. destruct (stopping p); [apply sf_ret |].
    destruct (entries p) as [|entry l] eqn:Hl.
    { repeat first [ apply IH | sf_step ]. }
    apply Forall_cons in Hp as [He _].
    apply sf_load; [done |]. intros x Hx. rewrite Hx. cbn [negb].
    unfold unlock_entry_and_next_entry, relock_clock.
    repeat first [ apply IH | by apply sf_wait_core | apply sf_next_entry | sf_step ].
    all: apply sf_store; cbn [initialized with_time]; assumption.
Qed.

End Ready.

(** X16. The dispatcher never fails its assertion and never dereferences
    an address that is not an entry. When every queued address is an entry
    whose lock has been created, and the other threads only queue such
    entries, a run of [gst_system_clock_async_thread] can stop short only
    because the environment gave no further answer or the loop was cut,
    and a run that returns leaves a queue of such entries. *)
Theorem dispatcher_never_asserts (fuel : nat) (w : World) :
  queue_ready w →
  env_enqueues_ready (heap w) (env w) = true →
  match gst_system_clock_async_thread fuel w with
  | Ret _ w' _ => queue_ready w'
  | Fault f _ _ => f = EnvExhausted ∨ f = OutOfFuel
  end.
Proof.
  intros Hq He.
  assert (ready_inv (heap w) w) as HJ by (by split_and!).
  assert (safe (ready_inv (heap w)) (gst_system_clock_async_thread fuel)
            (λ _, ready_inv (heap w))) as Hs.
  { unfold gst_system_clock_async_thread.
    apply safe_bind with (Q := λ _, ready_inv (heap w)); [apply sf_emit |]. intros _.
    apply sf_get_priv. intros p Hp.
    apply safe_bind with (Q := λ _, ready_inv (heap w));
      [by apply sf_set_priv_starting |]. intros _.
    apply safe_bind with (Q := λ _, ready_inv (heap w)); [apply sf_emit |]. intros _.
    apply safe_bind with (Q := λ _, ready_inv (heap w)); [apply sf_async_loop |]. intros _.
    apply safe_bind with (Q := λ _, ready_inv (heap w)); [apply sf_emit |]. intros _.
    apply sf_emit. }
  specialize (Hs w HJ).
  destruct (gst_system_clock_async_thread fuel w) as [a w' t|f w' t]; [| exact Hs].
  destruct Hs as (Hh & Hq' & _). unfold queue_ready.
  eapply Forall_impl; [exact Hq' |]. intros q Hr. by apply Hh.
Qed.

(** ** The creation of the entry locks *)

Lemma interfere_initialized (acts : list EnvAct) (h : gmap ptr GstClockEntryImpl)
    (p : GstSystemClockPrivate) (q : ptr) :
  ready_at h q → ready_at (interfere acts (h, p)).1 q.
Proof.
  revert h p. induction acts as [|a acts IH]; intros h p Hq; [done |].
  unfold interfere in *. cbn [foldl fst snd]. apply IH.
  destruct a as [e st| |]; cbn [act_heap]; try done.
  destruct (h !! e) as [x|] eqn:He; [| done]. unfold ready_at in *.
  destruct (decide (e = q)) as [->|Hne].
  - rewrite lookup_insert_eq. by rewrite He in Hq.
  - by rewrite lookup_insert_ne.
Qed.

Section LockKept.

Variable q : ptr.

Lemma lk_frame {A : Type} (m : M A) :
  (∀ w, heap (final (m w)) = heap w ∧ trace (m w) = []) → keeps (lock_kept q) m.
Proof.
  intros Hm t0 w (Hq & Ht). destruct (Hm w) as (Hh & Htr). unfold lock_kept.
  destruct (m w) as [a w' t|f w' t]; cbn [final trace] in *; subst t;
    by rewrite app_nil_r, Hh.
Qed.

Lemma lk_emit (ev : Event) : ev ≠ EvInitEntry q → keeps (lock_kept q) (emit ev).
Proof.
  intros Hev t0 w (Hq & Ht). unfold emit. split; [done |]. unfold inits in *.
  rewrite omap_app. apply Forall_app. split; [done |].
  destruct ev; cbn; try done. constructor; [congruence | done].
Qed.

Lemma lk_yield : keeps (lock_kept q) yield.
Proof.
  intros t0 w (Hq & Ht). unfold yield. destruct (env w) as [|s rest].
  - by rewrite app_nil_r.
  - rewrite app_nil_r. split; [| done]. cbn [heap]. by apply interfere_initialized.
Qed.

Lemma lk_store (e : ptr) (y : GstClockEntryImpl) :
  (e = q → initialized y = true) → keeps (lock_kept q) (store e y).
Proof.
  intros Hy t0 w (Hq & Ht). unfold store. rewrite app_nil_r. split; [| done].
  unfold ready_at in *. cbn [heap]. destruct (decide (e = q)) as [->|Hne].
  - rewrite lookup_insert_eq. cbn. by rewrite Hy.
  - by rewrite lookup_insert_ne.
Qed.

Lemma lk_load {B : Type} (e : ptr) (f : GstClockEntryImpl → M B)
    (Q : B → list Event → World → Prop) :
  (∀ x, (e = q → initialized x = true) →
        hoare (lock_kept q) (f x) Q (lock_kept q)) →
  hoare (lock_kept q) (load e ≫= f) Q (lock_kept q).
Proof.
  intros Hf. apply hoare_load; [done |]. intros x.
  apply hoare_pure with (φ := e = q → initialized x = true).
  - intros t w ((Hq & _) & Hx) ->. unfold ready_at in Hq. rewrite Hx in Hq.
    by injection Hq.
  - intros Hφ. eapply hoare_pre; [| by apply Hf]. by intros t w [H _].
Qed.

Lemma lk_set_status (e : ptr) (st : GstClockReturn) : keeps (lock_kept q) (set_status e st).
Proof. unfold set_status. apply lk_load. intros x Hx. by apply lk_store. Qed.

Lemma lk_get_status (e : ptr) : keeps (lock_kept q) (get_status e).
Proof. unfold get_status. apply lk_load. intros x _. apply keeps_ret. Qed.

Lemma lk_ensure_entry_initialized (e : ptr) :
  keeps (lock_kept q) (ensure_entry_initialized e).
Proof.
  unfold ensure_entry_initialized. apply lk_load. intros x Hx.
  destruct (initialized x) eqn:Hi; [apply keeps_ret |].
  apply keeps_bind; [| intros _; apply lk_store; by intros _].
  apply lk_emit. intros [= ->]. specialize (Hx eq_refl). congruence.
Qed.

Ltac lk_step :=
  first
    [ apply keeps_ret | apply keeps_fault | apply lk_yield
    | apply lk_set_status | apply lk_get_status | apply lk_ensure_entry_initialized
    | apply lk_store; solve [intuition congruence]
    | apply lk_emit; discriminate
    | apply lk_frame; done
    | apply lk_load; intros ??
    | apply keeps_bind; [| intros ?]
    | match goal with |- keeps _ (if ?c then _ else _) => destruct c end
    | match goal with |- hoare _ (if ?c then _ else _) _ _ => destruct c end
    | match goal with |- keeps _ (match ?c with _ => _ end) => destruct c end
    | match goal with |- hoare _ (match ?c with _ => _ end) _ _ => destruct c end
    | match goal with |- keeps _ (let _ := _ in _) => cbv zeta end
    | match goal with |- hoare _ (let _ := _ in _) _ _ => cbv zeta end ].

Lemma lk_read_times (e : ptr) : keeps (lock_kept q) (read_times e).
Proof. unfold read_times. repeat lk_step. Qed.

Lemma lk_wait_loop (fuel : nat) (e : ptr) (restart : bool) (entryt diff mono_ts : Z) :
  keeps (lock_kept q) (wait_loop fuel e restart entryt diff mono_ts).
Proof.
  revert diff mono_ts. induction fuel as [|fuel IH]; intros diff mono_ts; cbn [wait_loop].
  - apply keeps_fault.
  - repeat first [ apply IH | apply lk_read_times | lk_step ].
Qed.

Lemma lk_wait_core (fuel : nat) (e : ptr) (jitter restart : bool) :
  keeps (lock_kept q) (gst_system_clock_id_wait_jitter_unlocked fuel e jitter restart).
Proof.
  unfold gst_system_clock_id_wait_jitter_unlocked.
  repeat first [ apply lk_wait_loop | apply lk_read_times | lk_step ].
Qed.

Lemma lk_next_entry (e : ptr) : keeps (lock_kept q) (next_entry e).
Proof. unfold next_entry, relock_clock. repeat lk_step. Qed.

Lemma lk_async_loop (fuel : nat) : keeps (lock_kept q) (async_loop fuel).
Proof.
  induction fuel as [|fuel IH]; cbn [async_loop].
  - apply keeps_fault.
  - unfold unlock_entry_and_next_entry, relock_clock.
    repeat first [ apply IH | apply lk_wait_core | apply lk_next_entry | lk_step ].
Qed.

Lemma lk_dispose_entries (first : bool) (l : list ptr) :
  keeps (lock_kept q) (dispose_entries first l).
Proof.
  revert first. induction l as [|e l IH]; intros first; cbn [dispose_entries].
  - apply keeps_ret.
  - repeat first [ apply IH | lk_step ].
Qed.

Lemma lk_operations (fuel : nat) (e : ptr) (jitter : bool) :
  keeps (lock_kept q) (gst_system_clock_id_wait_jitter fuel e jitter) ∧
  keeps (lock_kept q) (gst_system_clock_id_wait_async e) ∧
  keeps (lock_kept q) (gst_system_clock_id_unschedule e) ∧
  keeps (lock_kept q) (gst_system_clock_async_thread fuel) ∧
  keeps (lock_kept q) gst_system_clock_dispose_stop.
Proof.
  split_and!.
  - unfold gst_system_clock_id_wait_jitter. repeat first [ apply lk_wait_core | lk_step ].
  - unfold gst_system_clock_id_wait_async, gst_system_clock_start_async, set_entries.
    repeat lk_step.
  - unfold gst_system_clock_id_unschedule. repeat lk_step.
  - unfold gst_system_clock_async_thread. repeat first [ apply lk_async_loop | lk_step ].
  - unfold gst_system_clock_dispose_stop. repeat first [ apply lk_dispose_entries | lk_step ].
Qed.

End LockKept.

Lemma keeps_run {A : Type} (J : list Event → World → Prop) (m : M A) (w : World) :
  keeps J m → J [] w → J (trace (m w)) (final (m w)).
Proof.
  intros Hk HJ. specialize (Hk [] w HJ). cbn [app] in Hk. by destruct (m w).
Qed.

(** X19. The mutex and the condition of an entry are created once. From
    a world where they exist for the entry [q], no run of a synchronous
    wait, of an asynchronous submission, of an unschedule, of the
    dispatcher or of the locked part of dispose, on any entry, creates them
    again, and [q] is still marked initialised at the end of the run. *)
Theorem entry_lock_created_once (fuel : nat) (e q : ptr) (jitter : bool) (w : World) :
  ready_at (heap w) q →
  lock_kept q (trace (gst_system_clock_id_wait_jitter fuel e jitter w))
    (final (gst_system_clock_id_wait_jitter fuel e jitter w)) ∧
  lock_kept q (trace (gst_system_clock_id_wait_async e w))
    (final (gst_system_clock_id_wait_async e w)) ∧
  lock_kept q (trace (gst_system_clock_id_unschedule e w))
    (final (gst_system_clock_id_unschedule e w)) ∧
  lock_kept q (trace (gst_system_clock_async_thread fuel w))
    (final (gst_system_clock_async_thread fuel w)) ∧
  lock_kept q (trace (gst_system_clock_dispose_stop w))
    (final (gst_system_clock_dispose_stop w)).
Proof.
  intros Hq. assert (lock_kept q [] w) as HJ by by split.
  destruct (lk_operations q fuel e jitter) as (H1 & H2 & H3 & H4 & H5).
  split_and!; by apply keeps_run.
Qed.

(** ** The references of the queue *)

Lemma occ_app (q : ptr) (l1 l2 : list ptr) : occ q (l1 ++ l2) = (occ q l1 + occ q l2)%nat.
Proof. unfold occ. by rewrite filter_app, length_app. Qed.

Lemma occ_cons (q e : ptr) (l : list ptr) :
  occ q (e :: l) = ((if decide (e = q) then 1 else 0) + occ q l)%nat.
Proof. unfold occ. rewrite filter_cons. by destruct (decide (e = q)). Qed.

Lemma occ_g_list_remove (q e : ptr) (l : list ptr) :
  e ∈ l → ((if decide (e = q) then 1 else 0) + occ q (g_list_remove l e) = occ q l)%nat.
Proof.
  induction l as [|a l IH]; [by intros ?%elem_of_nil |].
  intros Hin. cbn [g_list_remove]. destruct (decide (a = e)) as [->|Hne].
  - by rewrite occ_cons.
  - apply elem_of_cons in Hin as [->|Hin]; [done |]. specialize (IH Hin).
    rewrite !occ_cons. lia.
Qed.

Lemma occ_sort_insert (q : ptr) (cmp : ptr → ptr → Z) (x : ptr) (l : list ptr) :
  occ q (sort_insert cmp x l) = occ q (x :: l).
Proof.
  induction l as [|a l IH]; cbn [sort_insert]; [done |].
  destruct (cmp x a <=? 0); [done |]. rewrite !occ_cons in *. lia.
Qed.

Lemma occ_g_list_sort (q : ptr) (cmp : ptr → ptr → Z) (l : list ptr) :
  occ q (g_list_sort l cmp) = occ q l.
Proof.
  unfold g_list_sort. induction l as [|a l IH]; cbn [foldr]; [done |].
  by rewrite occ_sort_insert, !occ_cons, IH.
Qed.

Lemma occ_g_list_insert_sorted (q : ptr) (cmp : ptr → ptr → Z) (x : ptr) (l : list ptr) :
  occ q (g_list_insert_sorted l x cmp) = occ q (x :: l).
Proof.
  induction l as [|a l IH]; cbn [g_list_insert_sorted]; [done |].
  destruct (cmp x a <? 0); [done |]. rewrite !occ_cons in *. lia.
Qed.

Lemma elem_of_g_list_insert_sorted (cmp : ptr → ptr → Z) (x e : ptr) (l : list ptr) :
  e ∈ l → e ∈ g_list_insert_sorted l x cmp.
Proof.
  induction l as [|a l IH]; cbn [g_list_insert_sorted]; [by intros ?%elem_of_nil |].
  intros Hin. destruct (cmp x a <? 0).
  - apply elem_of_cons. by right.
  - apply elem_of_cons in Hin as [->|Hin]; apply elem_of_cons; [by left | right; by apply IH].
Qed.

Lemma interfere_queue (acts : list EnvAct) (h : gmap ptr GstClockEntryImpl)
    (p : GstSystemClockPrivate) (q : ptr) :
  occ q (entries (interfere acts (h, p)).2) =
    (occ q (entries p) + occ q (act_enqueues acts))%nat ∧
  (∀ e, e ∈ entries p → e ∈ entries (interfere acts (h, p)).2).
Proof.
  revert h p. induction acts as [|a acts IH]; intros h p.
  { unfold interfere, act_enqueues, occ. cbn. split; [lia | done]. }
  unfold interfere in *. cbn [foldl fst snd].
  destruct (IH (act_heap a h) (act_priv a h p)) as [IH1 IH2]. rewrite IH1. split.
  - unfold act_enqueues. destruct a as [e st|e|]; cbn [act_priv entries omap list_omap];
      try done.
    rewrite occ_g_list_insert_sorted, !occ_cons. fold (act_enqueues acts). lia.
  - intros e He. apply IH2. destruct a as [e' st|e'|]; cbn [act_priv entries]; try done.
    by apply elem_of_g_list_insert_sorted.
Qed.

Lemma unrefs_app (t1 t2 : list Event) : unrefs (t1 ++ t2) = unrefs t1 ++ unrefs t2.
Proof. apply omap_app. Qed.

Section Balance.

Variable q : ptr.
Variable n : nat.

Lemma balanced_at_balanced (e : ptr) (t : list Event) (w : World) :
  balanced_at q n e t w → balanced q n t w.
Proof. by intros [? _]. Qed.

Lemma bal_frame {A : Type} (e : ptr) (m : M A) :
  (∀ w, priv (final (m w)) = priv w ∧ env (final (m w)) = env w ∧ unrefs (trace (m w)) = []) →
  hoare (balanced_at q n e) m (λ _, balanced_at q n e) (balanced q n).
Proof.
  intros Hm t0 w (Hb & He). destruct (Hm w) as (Hp & Hv & Ht).
  unfold balanced_at, balanced in *.
  destruct (m w) as [a w' t|f w' t]; cbn [final trace] in *;
    rewrite unrefs_app, Ht, app_nil_r, Hp, Hv; done.
Qed.

Lemma bal_yield (e : ptr) :
  hoare (balanced_at q n e) yield (λ _, balanced_at q n e) (balanced q n).
Proof.
  intros t0 w (Hb & He). unfold yield. destruct (env w) as [|s rest] eqn:Hw.
  - by rewrite app_nil_r.
  - rewrite app_nil_r.
    destruct (interfere_queue (env_acts s) (heap w) (priv w) q) as [Hocc Hin].
    split; [| by apply Hin]. unfold balanced in *. cbn [priv env].
    rewrite Hocc. rewrite Hw in Hb. cbn [enqueues flat_map] in Hb. rewrite occ_app in Hb.
    fold (enqueues rest) in Hb. lia.
Qed.

Lemma bal_load (e p : ptr) : hoare (balanced_at q n e) (load p) (λ _, balanced_at q n e)
                               (balanced q n).
Proof. apply bal_frame. intros w. unfold load. by destruct (heap w !! p). Qed.

Lemma bal_set_status (e p : ptr) (st : GstClockReturn) :
  hoare (balanced_at q n e) (set_status p st) (λ _, balanced_at q n e) (balanced q n).
Proof.
  apply bal_frame. intros w. unfold set_status. run. by destruct (heap w !! p).
Qed.

Lemma bal_get_status (e p : ptr) :
  hoare (balanced_at q n e) (get_status p) (λ _, balanced_at q n e) (balanced q n).
Proof.
  apply bal_frame. intros w. unfold get_status. run. by destruct (heap w !! p).
Qed.

Lemma bal_emit (e : ptr) (ev : Event) :
  unrefs [ev] = [] →
  hoare (balanced_at q n e) (emit ev) (λ _, balanced_at q n e) (balanced q n).
Proof. intros Hev. apply bal_frame. by intros w. Qed.

Ltac bal_step :=
  first
    [ apply hoare_ret; done
    | apply hoare_fault; apply balanced_at_balanced
    | apply bal_yield | apply bal_load | apply bal_set_status | apply bal_get_status
    | apply bal_emit; reflexivity
    | apply bal_frame; done
    | eapply hoare_bind; [| intros ?]
    | match goal with |- hoare _ (if ?c then _ else _) _ _ => destruct c end
    | match goal with |- hoare _ (match ?c with _ => _ end) _ _ => destruct c end
    | match goal with |- hoare _ (let _ := _ in _) _ _ => cbv zeta end ].

Lemma bal_read_times (e p : ptr) :
  hoare (balanced_at q n e) (read_times p) (λ _, balanced_at q n e) (balanced q n).
Proof. unfold read_times. repeat bal_step. Qed.

Lemma bal_wait_loop (fuel : nat) (e p : ptr) (restart : bool) (entryt diff mono_ts : Z) :
  hoare (balanced_at q n e) (wait_loop fuel p restart entryt diff mono_ts)
    (λ _, balanced_at q n e) (balanced q n).
Proof.
  revert diff mono_ts. induction fuel as [|fuel IH]; intros diff mono_ts; cbn [wait_loop].
  - apply hoare_fault. apply balanced_at_balanced.
  - repeat first [ apply IH | apply bal_read_times | bal_step ].
Qed.

Lemma bal_wait_core (fuel : nat) (e p : ptr) (jitter restart : bool) :
  hoare (balanced_at q n e) (gst_system_clock_id_wait_jitter_unlocked fuel p jitter restart)
    (λ _, balanced_at q n e) (balanced q n).
Proof.
  unfold gst_system_clock_id_wait_jitter_unlocked.
  repeat first [ apply bal_wait_loop | apply bal_read_times | bal_step ].
Qed.

Lemma bal_relock_clock (e : ptr) :
  hoare (balanced_at q n e) relock_clock (λ _, balanced_at q n e) (balanced q n).
Proof. unfold relock_clock. repeat bal_step. Qed.

(** The entry leaves the queue and its reference is dropped. *)
Lemma bal_dequeue (e : ptr) :
  hoare (balanced_at q n e)
    (p ← get_priv; set_entries (g_list_remove (entries p) e);; emit (EvUnref e))
    (λ _, balanced q n) (balanced q n).
Proof.
  intros t0 w (Hb & He). unfold set_entries. run. unfold balanced in *. cbn [priv entries env].
  rewrite unrefs_app, occ_app. unfold unrefs at 2. cbn [omap list_omap].
  pose proof (occ_g_list_remove q e _ He) as Hrem.
  change (occ q [e]) with (occ q (e :: [])). rewrite occ_cons.
  change (occ q []) with 0%nat. lia.
Qed.

Lemma bal_next_entry (e : ptr) :
  hoare (balanced_at q n e) (next_entry e) (λ _, balanced q n) (balanced q n).
Proof.
  unfold next_entry. eapply hoare_bind; [apply bal_relock_clock |]. intros ?.
  apply bal_dequeue.
Qed.

(** The queue is sorted again. *)
Lemma bal_resort (e : ptr) :
  hoare (balanced_at q n e)
    (p ← get_priv; h ← get_heap;
     set_entries (g_list_sort (entries p) (gst_clock_id_compare_func h)))
    (λ _, balanced q n) (balanced q n).
Proof.
  intros t0 w (Hb & He). unfold set_entries. run. unfold balanced in *. cbn [priv entries env].
  by rewrite app_nil_r, occ_g_list_sort.
Qed.

Lemma bal_drop (e : ptr) {A : Type} (m : M A) :
  hoare (balanced_at q n e) m (λ _, balanced_at q n e) (balanced q n) →
  hoare (balanced_at q n e) m (λ _, balanced q n) (balanced q n).
Proof.
  apply hoare_post; [| done]. intros ? t w. apply balanced_at_balanced.
Qed.

Lemma bal_idle {A : Type} (m : M A) :
  (∀ w, priv (final (m w)) = priv w ∧ env (final (m w)) = env w ∧ unrefs (trace (m w)) = []) →
  hoare (balanced q n) m (λ _, balanced q n) (balanced q n).
Proof.
  intros Hm t0 w Hb. destruct (Hm w) as (Hp & Hv & Ht). unfold balanced in *.
  destruct (m w) as [a w' t|f w' t]; cbn [final trace] in *;
    rewrite unrefs_app, Ht, app_nil_r, Hp, Hv; done.
Qed.

Lemma bal_idle_yield : hoare (balanced q n) yield (λ _, balanced q n) (balanced q n).
Proof.
  intros t0 w Hb. unfold yield. destruct (env w) as [|s rest] eqn:Hw.
  - by rewrite app_nil_r.
  - rewrite app_nil_r.
    destruct (interfere_queue (env_acts s) (heap w) (priv w) q) as [Hocc _].
    unfold balanced in *. cbn [priv env].
    rewrite Hocc. rewrite Hw in Hb. cbn [enqueues flat_map] in Hb. rewrite occ_app in Hb.
    fold (enqueues rest) in Hb. lia.
Qed.

Lemma bal_async_loop (fuel : nat) :
  hoare (balanced q n) (async_loop fuel) (λ _, balanced q n) (balanced q n).
Proof.
  induction fuel as [|fuel IH]; cbn [async_loop].
  { by apply hoare_fault. }
  apply hoare_bind with (Q := λ p t w, balanced q n t w ∧ priv w = p).
  { intros t0 w Hb. unfold get_priv. by rewrite app_nil_r. }
  intros p. destruct (stopping p).
  { apply hoare_ret. by intros t w [? _]. }
  destruct (entries p) as [|entry l] eqn:Hl.
  { eapply hoare_pre with (P := balanced q n); [by intros t w [? _] |].
    eapply hoare_bind; [by apply bal_idle |]. intros ?.
    eapply hoare_bind; [apply bal_idle_yield |]. intros ?.
    eapply hoare_bind; [by apply bal_idle |]. intros p'.
    destruct (stopping p'); [by apply hoare_ret | done]. }
  eapply hoare_pre with (P := balanced_at q n entry).
  { intros t w [Hb <-]. split; [done |]. rewrite Hl. apply elem_of_cons. by left. }
  assert (hoare (balanced_at q n entry) (unlock_entry_and_next_entry entry;; async_loop fuel)
            (λ _, balanced q n) (balanced q n)) as Hnext.
  { unfold unlock_entry_and_next_entry.
    eapply hoare_bind; [| intros ?; exact IH].
    eapply hoare_bind; [by apply bal_emit |]. intros ?. apply bal_next_entry. }
  eapply hoare_bind; [apply bal_load |]. intros x.
  destruct (negb (initialized x)).
  { apply hoare_fault. apply balanced_at_balanced. }
  eapply hoare_bind; [by apply bal_emit |]. intros ?. cbv zeta.
  destruct (decide (status x = GST_CLOCK_UNSCHEDULED)).
  { eapply hoare_bind; [by apply bal_emit |]. intros ?. exact Hnext. }
  eapply hoare_bind.
  { destruct (decide _); [by apply bal_emit | apply hoare_ret; done]. }
  intros ?.
  eapply hoare_bind; [apply bal_set_status |]. intros ?.
  eapply hoare_bind; [by apply bal_emit |]. intros ?.
  eapply hoare_bind; [apply bal_wait_core |]. intros res.
  assert (hoare (balanced_at q n entry)
            (emit (EvEntryUnlock entry);;
             y ← load entry;
             (if func y then emit (EvCallback entry (time y)) else mret tt);;
             if decide (type y = GST_CLOCK_ENTRY_PERIODIC) then
               relock_clock;;
               z ← load entry;
               store entry (with_time (wrap_u64 (time x + interval z)) z);;
               p0 ← get_priv;
               h ← get_heap;
               set_entries (g_list_sort (entries p0) (gst_clock_id_compare_func h));;
               async_loop fuel
             else next_entry entry;; async_loop fuel)
            (λ _, balanced q n) (balanced q n)) as Hfire.
  { eapply hoare_bind; [by apply bal_emit |]. intros ?.
    eapply hoare_bind; [apply bal_load |]. intros y.
    eapply hoare_bind.
    { destruct (func y); [by apply bal_emit | apply hoare_ret; done]. }
    intros ?. destruct (decide (type y = GST_CLOCK_ENTRY_PERIODIC)).
    - eapply hoare_bind; [apply bal_relock_clock |]. intros ?.
      eapply hoare_bind; [apply bal_load |]. intros z.
      eapply hoare_bind; [by apply bal_frame |]. intros ?.
      intros t0 w HP.
      pose proof (hoare_bind _ _ (λ _, async_loop fuel) _ _ _ (bal_resort entry)
                    (λ _, IH) t0 w HP) as Hgo.
      unfold set_entries in *. revert Hgo. run. by rewrite !after_nil.
    - eapply hoare_bind; [apply bal_next_entry |]. intros ?. exact IH. }
  destruct res; try exact Hfire.
  - exact Hnext.
  - eapply hoare_bind; [apply bal_set_status |]. intros ?.
    eapply hoare_bind; [by apply bal_emit |]. intros ?.
    eapply hoare_bind; [apply bal_drop, bal_relock_clock |]. intros ?. exact IH.
  - eapply hoare_bind; [by apply bal_emit |]. intros ?. exact Hnext.
  - eapply hoare_bind; [by apply bal_emit |]. intros ?. exact Hnext.
Qed.

End Balance.

(** X20. The dispatcher drops a reference exactly when an entry leaves
    the queue. Over every run of [gst_system_clock_async_thread], as far
    as it gets and whatever the other threads queue meanwhile, for each
    entry: its occurrences in the queue at the end, plus the references the
    thread dropped on it, plus the submissions of it the thread has not
    seen yet, are its occurrences in the queue at the start plus all the
    submissions of it. *)
Theorem dispatcher_reference_balance (fuel : nat) (w : World) (q : ptr) :
  (occ q (entries (priv (final (gst_system_clock_async_thread fuel w)))) +
   occ q (unrefs (trace (gst_system_clock_async_thread fuel w))) +
   occ q (enqueues (env (final (gst_system_clock_async_thread fuel w)))) =
   occ q (entries (priv w)) + occ q (enqueues (env w)))%nat.
Proof.
  set (n := (occ q (entries (priv w)) + occ q (enqueues (env w)))%nat).
  assert (hoare (balanced q n) (gst_system_clock_async_thread fuel)
            (λ _, balanced q n) (balanced q n)) as Hk.
  { unfold gst_system_clock_async_thread.
    eapply hoare_bind; [by apply bal_idle |]. intros ?.
    apply hoare_bind with (Q := λ p t w, balanced q n t w ∧ priv w = p).
    { intros t0 w0 Hb. unfold get_priv. by rewrite app_nil_r. }
    intros p.
    apply hoare_bind with (Q := λ _, balanced q n).
    { intros t0 w0 [Hb <-]. unfold set_priv. by rewrite app_nil_r. }
    intros ?.
    eapply hoare_bind; [by apply bal_idle |]. intros ?.
    eapply hoare_bind; [apply bal_async_loop |]. intros ?.
    eapply hoare_bind; [by apply bal_idle |]. intros ?.
    by apply bal_idle. }
  assert (balanced q n [] w) as Hb.
  { unfold balanced, n. change (occ q (unrefs [])) with 0%nat. lia. }
  specialize (Hk [] w Hb). cbn [app] in Hk.
  by destruct (gst_system_clock_async_thread fuel w).
Qed.

(** ** What a result of OK or Early rests on *)

Lemma yield_ret (s : EnvStep) (w w' : World) (t : list Event) :
  yield w = Ret s w' t →
  env w = s :: env w' ∧ statics <$> heap w' = statics <$> heap w ∧ t = [].
Proof.
  unfold yield. destruct (env w) as [|s0 rest]; [discriminate |].
  intros [= <- <- <-]. cbn [env heap]. by rewrite interfere_statics.
Qed.

Lemma read_times_env (e : ptr) (tm : Z * Z) (w w' : World) (t : list Event) :
  read_times e w = Ret tm w' t →
  ∃ s, env w = s :: env w' ∧ tm.1 = wrap_u64 (env_now s) ∧
       statics <$> heap w' = statics <$> heap w.
Proof.
  unfold read_times. intros H.
  apply bind_ret_inv in H as ([] & w1 & ? & ? & [= <- <-] & H & _).
  apply bind_ret_inv in H as (s & w2 & ? & ? & (Henv & Hst & _)%yield_ret & H & _).
  apply bind_ret_inv in H as ([] & w3 & ? & ? & [= <- <-] & H & _).
  apply ret_inv in H as (<- & <- & _). by exists s.
Qed.

Lemma set_status_env (e : ptr) (st : GstClockReturn) (w w' : World) (t : list Event) :
  set_status e st w = Ret tt w' t →
  env w' = env w ∧ statics <$> heap w' = statics <$> heap w.
Proof.
  unfold set_status. run. destruct (heap w !! e) as [x|] eqn:He; run; [| discriminate].
  intros [= <- <-]. cbn [env heap]. split; [done |]. by apply statics_insert_same with x.
Qed.

Lemma ensure_entry_initialized_env (e : ptr) (w w' : World) (t : list Event) :
  ensure_entry_initialized e w = Ret tt w' t →
  env w' = env w ∧ statics <$> heap w' = statics <$> heap w.
Proof.
  unfold ensure_entry_initialized. run.
  destruct (heap w !! e) as [x|] eqn:He; run; [| discriminate].
  destruct (initialized x); run; intros [= <- <-]; [done |]. cbn [env heap].
  split; [done |]. by apply statics_insert_same with x.
Qed.

Lemma wait_loop_ok_due (fuel : nat) (e : ptr) (entryt diff mono_ts : Z)
    (w w' : World) (t : list Event) :
  wait_loop fuel e true entryt diff mono_ts w = Ret GST_CLOCK_OK w' t →
  ∃ pre s, env w = pre ++ s :: env w' ∧
           GST_CLOCK_DIFF (wrap_u64 (env_now s)) entryt ≤ CLOCK_MIN_WAIT_TIME.
Proof.
  revert diff mono_ts w t. induction fuel as [|fuel IH]; intros diff mono_ts w t H;
    cbn [wait_loop] in H; [discriminate |].
  apply bind_ret_inv in H as (waitret & w1 & ? & ? & Hwait & H & _).
  assert (∃ sA, env w = sA :: env w1) as [sA HsA].
  { destruct (HAVE_CLOCK_NANOSLEEP && (diff <=? 500 * GST_USECOND)).
    - apply bind_ret_inv in Hwait as ([] & ? & ? & ? & [= <- <-] & Hwait & _).
      apply bind_ret_inv in Hwait as ([] & ? & ? & ? & [= <- <-] & Hwait & _).
      apply bind_ret_inv in Hwait as (sA & ? & ? & ? & (Henv & _)%yield_ret & Hwait & _).
      apply bind_ret_inv in Hwait as ([] & ? & ? & ? & [= <- <-] & Hwait & _).
      apply ret_inv in Hwait as (_ & <- & _). by exists sA.
    - cbv zeta in Hwait.
      apply bind_ret_inv in Hwait as ([] & ? & ? & ? & [= <- <-] & Hwait & _).
      apply bind_ret_inv in Hwait as (sA & ? & ? & ? & (Henv & _)%yield_ret & Hwait & _).
      apply ret_inv in Hwait as (_ & <- & _). by exists sA. }
  apply bind_ret_inv in H as (st & w2 & ? & ? & (-> & _)%get_status_ret & H & _).
  destruct (decide (st = GST_CLOCK_UNSCHEDULED)) as [->|_].
  { by apply ret_inv in H as ([=] & _). }
  apply bind_ret_inv in H as ([] & w3 & ? & ? & Hlog & H & _).
  assert (w3 = w1) as ->.
  { destruct (decide (st = GST_CLOCK_BUSY)); [by apply ret_inv in Hlog as (_ & <- & _) |].
    unfold emit in Hlog. by injection Hlog as <-. }
  apply bind_ret_inv in H as ([] & w4 & ? & ? & (Henv4 & _)%set_status_env & H & _).
  rewrite andb_false_r in H.
  apply bind_ret_inv in H as (tm & w5 & ? & ? & (sB & HsB & Htm & _)%read_times_env & H & _).
  apply bind_ret_inv in H as (st2 & w6 & ? & ? & (-> & _)%get_status_ret & H & _).
  destruct (decide (st2 = GST_CLOCK_UNSCHEDULED)) as [->|_].
  { by apply ret_inv in H as ([=] & _). }
  cbv zeta in H. destruct (_ <=? CLOCK_MIN_WAIT_TIME) eqn:Hdue.
  - apply bind_ret_inv in H as ([] & w7 & ? & ? & (Henv7 & _)%set_status_env & H & _).
    apply ret_inv in H as (_ & <- & _).
    exists [sA], sB. rewrite HsA, <- Henv4, HsB, Henv7. split; [done |].
    rewrite <- Htm. lia.
  - apply bind_ret_inv in H as ([] & w7 & ? & ? & (Henv7 & _)%set_status_env & H & _).
    apply IH in H as (pre & s & Hpre & Hs).
    exists (sA :: sB :: pre), s. rewrite HsA, <- Henv4, HsB, <- Henv7, Hpre. done.
Qed.

(** X21. A synchronous wait returns OK or Early only on the evidence of
    the clock. When [gst_system_clock_id_wait_jitter] returns OK or Early,
    the last answer it took from the environment is a reading of the clock
    for which the entry's deadline less the time read is at most
    [CLOCK_MIN_WAIT_TIME]: however the waits before ended, by a wake-up, a
    time-out or a sleep, the result rests on a reading made after them. *)
Theorem sync_wait_ok_means_due (fuel : nat) (e : ptr) (jitter : bool)
    (w w' : World) (x : GstClockEntryImpl) (r : GstClockReturn) (t : list Event) :
  heap w !! e = Some x →
  gst_system_clock_id_wait_jitter fuel e jitter w = Ret r w' t →
  r = GST_CLOCK_OK ∨ r = GST_CLOCK_EARLY →
  ∃ pre s,
    env w = pre ++ s :: env w' ∧
    GST_CLOCK_DIFF (wrap_u64 (env_now s)) (time x) ≤ CLOCK_MIN_WAIT_TIME.
Proof.
  intros Hx H Hr. unfold gst_system_clock_id_wait_jitter in H.
  apply bind_ret_inv in H as ([] & w1 & ? & ? & [= <- <-] & H & _).
  apply bind_ret_inv in H
    as ([] & w2 & ? & ? & (Henv2 & Hst2)%ensure_entry_initialized_env & H & _).
  apply bind_ret_inv in H as ([] & w3 & ? & ? & [= <- <-] & H & _).
  apply bind_ret_inv in H as ([] & w4 & ? & ? & [= <- <-] & H & _).
  apply bind_ret_inv in H as (st & w5 & ? & ? & (-> & _)%get_status_ret & H & _).
  destruct (decide (st = GST_CLOCK_UNSCHEDULED)) as [->|_].
  { apply bind_ret_inv in H as ([] & w6 & ? & ? & [= <- <-] & H & _).
    apply ret_inv in H as (<- & _). by destruct Hr. }
  apply bind_ret_inv in H as ([] & w6 & ? & ? & Hlog & H & _).
  assert (w6 = w2) as ->.
  { destruct (decide (st = GST_CLOCK_OK)); [by apply ret_inv in Hlog as (_ & <- & _) |].
    unfold emit in Hlog. by injection Hlog as <-. }
  apply bind_ret_inv in H as ([] & w7 & ? & ? & (Henv7 & Hst7)%set_status_env & H & _).
  apply bind_ret_inv in H as (r' & w8 & ? & ? & Hcore & H & _).
  apply bind_ret_inv in H as ([] & w9 & ? & ? & [= <- <-] & H & _).
  apply ret_inv in H as (<- & <- & _).
  assert (statics <$> heap w7 = statics <$> heap w) as Hs7 by by rewrite Hst7.
  assert (env w7 = env w) as He7 by by rewrite Henv7.
  clear Hst7 Henv7 Hlog. rewrite <- He7.
  unfold gst_system_clock_id_wait_jitter_unlocked in Hcore.
  apply bind_ret_inv in Hcore
    as (tm & wa & ? & ? & (s1 & Hs1 & Htm & Hsa)%read_times_env & Hcore & _).
  apply bind_ret_inv in Hcore as (st1 & wb & ? & ? & (-> & _)%get_status_ret & Hcore & _).
  destruct (decide (st1 = GST_CLOCK_UNSCHEDULED)) as [->|_].
  { apply ret_inv in Hcore as (<- & _). by destruct Hr. }
  apply bind_ret_inv in Hcore as (y & wc & ? & ? & (-> & Hy & _)%load_ret & Hcore & _).
  assert (time y = time x) as Hty.
  { assert ((statics <$> heap wa) !! e = (statics <$> heap w) !! e) as Heq
      by by rewrite Hsa, Hs7.
    rewrite !lookup_fmap, Hy, Hx in Heq. by injection Heq. }
  cbv zeta in Hcore. rewrite Hty in Hcore.
  apply bind_ret_inv in Hcore as ([] & wd & ? & ? & Hj & Hcore & _).
  assert (wd = wa) as ->.
  { destruct jitter; [| by apply ret_inv in Hj as (_ & <- & _)].
    unfold emit in Hj. by injection Hj as <-. }
  destruct (CLOCK_MIN_WAIT_TIME <? _) eqn:Hfar.
  - destruct Hr as [->| ->].
    + apply wait_loop_ok_due in Hcore as (pre & s & Hpre & Hs).
      exists (s1 :: pre), s. by rewrite Hs1, Hpre.
    + by apply wait_loop_restart_result in Hcore as [|].
  - exists [], s1. rewrite <- Htm. split; [| lia].
    destruct (_ =? 0);
      apply bind_ret_inv in Hcore as ([] & we & ? & ? & (Henv & _)%set_status_env & Hcore & _);
      apply ret_inv in Hcore as (_ & <- & _); by rewrite Hs1, Henv.
Qed.

(** ** What a synchronous wait leaves alone *)










End Platform.

(** ** Submitting and unscheduling entries *)

Lemma ensure_entry_initialized_run (e : ptr) (w : World) (x : GstClockEntryImpl) :
  heap w !! e = Some x →
  ensure_entry_initialized e w =
  Ret tt (init_world e x w) (if initialized x then [] else [EvInitEntry e]).
Proof.
  intros Hx. unfold ensure_entry_initialized, init_world. run. rewrite Hx.
  destruct x as [tm iv ty st fn ini]. destruct ini; run; [| done].
  rewrite insert_id by done. by destruct w.
Qed.

Lemma start_async_run (w : World) :
  start_answered w = true →
  gst_system_clock_start_async w =
  Ret (dispatcher_available w) (started_world w) (start_events w).
Proof.
  unfold gst_system_clock_start_async, dispatcher_available, started_world, start_events,
    start_answered, spun_up_world, after_window, yield.
  destruct (thread (priv w)) eqn:Ht; run; rewrite Ht; [done |].
  destruct (threads_available w) eqn:Ha; run; [| done].
  destruct (env w) as [|step rest] eqn:He; [done |]. intros _. done.
Qed.

Lemma start_async_blocked (w : World) :
  start_answered w = false →
  ∃ w1, gst_system_clock_start_async w = Fault EnvExhausted w1 [EvThreadNew; EvClockWait].
Proof.
  unfold gst_system_clock_start_async, start_answered, yield.
  destruct (thread (priv w)) eqn:Ht; run; rewrite Ht; [done |].
  destruct (threads_available w) eqn:Ha; run; [| done].
  destruct (env w) as [|step rest] eqn:He; [| done]. intros _.
  by eexists.
Qed.

Lemma start_async_ret (w w1 : World) (b : bool) (t : list Event) :
  gst_system_clock_start_async w = Ret b w1 t →
  start_answered w = true ∧ b = dispatcher_available w ∧ w1 = started_world w ∧
  t = start_events w.
Proof.
  intros H. destruct (start_answered w) eqn:Ha.
  - rewrite start_async_run in H by done. by injection H as <- <- <-.
  - apply start_async_blocked in Ha as (w2 & Ha). congruence.
Qed.

(** A call of [gst_system_clock_id_wait_async] that returns was not kept
    waiting for the thread. *)
Lemma wait_async_started (e : ptr) (w w' : World) (r : GstClockReturn) (t : list Event) :
  gst_system_clock_id_wait_async e w = Ret r w' t →
  gst_system_clock_start_async w =
  Ret (dispatcher_available w) (started_world w) (start_events w).
Proof.
  intros H. unfold gst_system_clock_id_wait_async in H.
  apply bind_ret_inv in H as ([] & w1 & t1 & ? & [= <- <-] & H & ->).
  apply bind_ret_inv in H as (started & w2 & t2 & ? & Hs & H & ->).
  apply start_async_ret in Hs as (Ha & _). by apply start_async_run.
Qed.

Lemma started_world_running (w : World) : thread (priv w) = true → started_world w = w.
Proof. intros Ht. unfold started_world. by rewrite Ht. Qed.

Lemma started_world_failed (w : World) :
  dispatcher_available w = false →
  heap (started_world w) = heap w ∧ entries (priv (started_world w)) = entries (priv w) ∧
  stopping (priv (started_world w)) = stopping (priv w).
Proof.
  unfold dispatcher_available, started_world. intros [-> ->]%orb_false_iff. done.
Qed.

Lemma started_world_thread (w : World) :
  dispatcher_available w = true → start_answered w = true →
  thread (priv (started_world w)) = true.
Proof.
  unfold dispatcher_available, started_world, start_answered, spun_up_world, after_window.
  destruct (thread (priv w)) eqn:Ht; cbn [orb negb]; [done |].
  intros ->. cbn [negb orb]. destruct (env w) as [|step rest]; [done |]. intros _.
  cbn [priv thread heap].
  generalize (env_acts step), (heap w). intros acts.
  assert (∀ h q, thread q = true → thread (interfere acts (h, q)).2 = true) as Hth.
  { induction acts as [|a acts IH]; intros h q Hq; [done |].
    unfold interfere in *. cbn [foldl fst snd]. apply IH. by destruct a. }
  intros h. by apply Hth.
Qed.

Lemma start_events_quiet (w : World) :
  signals (start_events w) = [] ∧ refs (start_events w) = [] ∧
  (thread (priv w) = true → start_events w = []).
Proof. unfold start_events. by destruct (thread (priv w)), (threads_available w). Qed.

Lemma signals_app (t1 t2 : list Event) : signals (t1 ++ t2) = signals t1 ++ signals t2.
Proof. apply omap_app. Qed.

Lemma signals_cons (ev : Event) (t : list Event) :
  signals (ev :: t) = signals [ev] ++ signals t.
Proof. apply (signals_app [ev]). Qed.

Lemma lookup_init_status (h : gmap ptr GstClockEntryImpl) (e hd : ptr)
    (x : GstClockEntryImpl) :
  h !! e = Some x →
  status <$> (<[e := with_initialized true x]> h !! hd) = status <$> (h !! hd).
Proof.
  intros Hx. destruct (decide (e = hd)) as [->|Hne].
  - by rewrite lookup_insert_eq, Hx.
  - by rewrite lookup_insert_ne.
Qed.

(** What a call of [gst_system_clock_id_wait_async] that returns has done,
    from the world [started_world w] in which it looked at the entry. *)
Lemma wait_async_inv (e : ptr) (w w' : World) (r : GstClockReturn) (t : list Event) :
  gst_system_clock_id_wait_async e w = Ret r w' t →
  (dispatcher_available w = false ∧ r = GST_CLOCK_ERROR ∧ w' = started_world w ∧
   signals t = []) ∨
  (∃ x, heap (started_world w) !! e = Some x ∧ dispatcher_available w = true ∧
     heap w' = <[e := with_initialized true x]> (heap (started_world w)) ∧
     ((status x = GST_CLOCK_UNSCHEDULED ∧ r = GST_CLOCK_UNSCHEDULED ∧
       entries (priv w') = entries (priv (started_world w)) ∧ signals t = []) ∨
      (status x ≠ GST_CLOCK_UNSCHEDULED ∧ r = GST_CLOCK_OK ∧
       ∃ first rest,
         g_list_insert_sorted (entries (priv (started_world w))) e
           (gst_clock_id_compare_func (heap w')) = first :: rest ∧
         entries (priv w') = first :: rest ∧
         signals t =
           head_signals (heap (started_world w)) (entries (priv (started_world w)))
             first e))).
Proof.
  intros H. pose proof (wait_async_started _ _ _ _ _ H) as Hs.
  unfold gst_system_clock_id_wait_async in H.
  unfold mbind at 1 2, M_bind at 1 2 in H. unfold emit at 1 in H.
  rewrite Hs in H. clear Hs.
  destruct (start_events_quiet w) as (Ht1 & _). revert H.
  generalize (start_events w) Ht1. generalize (started_world w). clear Ht1.
  intros ws t1 Ht1 H. cbn [after] in H.
  destruct (dispatcher_available w) eqn:Hd; cbn [negb] in H.
  2:{ left. run_in H. injection H as <- <- <-.
      split_and!; try done. by rewrite signals_cons, signals_app, Ht1. }
  right.
  unfold mbind at 1, M_bind at 1 in H.
  destruct (heap ws !! e) as [x|] eqn:Hx.
  2:{ unfold ensure_entry_initialized in H. run_in H.
      rewrite Hx in H. discriminate. }
  rewrite (ensure_entry_initialized_run e _ x) in H by done.
  set (t2 := if initialized x then [] else _) in H.
  assert (signals t2 = []) as Ht2.
  { subst t2. by destruct (initialized x). }
  clearbody t2.
  unfold mbind at 1 2, M_bind at 1 2 in H. unfold emit at 1 in H. cbn [after] in H.
  rewrite (get_status_run e _ (with_initialized true x)) in H
    by (unfold init_world; cbn [heap]; apply lookup_insert_eq).
  cbn [status with_initialized after] in H.
  exists x. split; [done |]. split; [done |].
  destruct (decide (status x = GST_CLOCK_UNSCHEDULED)) as [Hst|Hst].
  { run_in H. injection H as <- <- <-. unfold init_world. cbn [heap priv].
    split; [done |]. left.
    split_and!; try done.
    by rewrite signals_cons, signals_app, Ht1, signals_app, Ht2. }
  unfold set_entries in H. run_in H. unfold init_world in H. cbn [heap priv] in H.
  rewrite !after_after in H. cbn [app] in H.
  destruct (g_list_insert_sorted _ _ _) as [|first rest0] eqn:Hins; [discriminate |].
  unfold signals in Ht1, Ht2.
  destruct (decide (first = e)) as [->|Hne].
  - destruct (entries (priv ws)) as [|hd q] eqn:Hq; cbn [head] in H.
    + cbn [after] in H. injection H as <- <- <-. cbn [heap priv entries].
      split; [done |]. right. split_and!; try done. exists e, rest0.
      split_and!; try done. unfold signals. cbn [omap list_omap]. rewrite !omap_app, Ht1, Ht2.
      unfold head_signals.
      by rewrite decide_True.
    + pose proof (lookup_init_status (heap ws) e hd x Hx) as Hhs.
      cbn [heap priv env threads_available] in H.
      destruct (<[e:=with_initialized true x]> (heap ws) !! hd) as [xh|] eqn:Hhd;
        [| by cbn [after] in H].
      destruct (initialized xh); cbn [negb] in H; [| by cbn [after] in H].
      destruct (decide (status xh = GST_CLOCK_BUSY)) as [Hb|Hb];
        cbn [after app] in H; injection H as <- <- <-; cbn [heap priv entries];
        (split; [done |]); right; (split_and!; try done); exists e, rest0;
        (split_and!; try done);
        unfold signals; cbn [omap list_omap]; rewrite !omap_app, Ht1, Ht2;
        unfold head_signals; rewrite decide_True by done; rewrite <- Hhs; cbn.
      * rewrite decide_True; [done | congruence].
      * rewrite decide_False; [done | congruence].
  - cbn [after app] in H. injection H as <- <- <-. cbn [heap priv entries].
    split; [done |]. right. split_and!; try done. exists first, rest0.
    split_and!; try done. unfold signals. cbn [omap list_omap]. rewrite !omap_app, Ht1, Ht2.
    unfold head_signals.
    by rewrite decide_False.
Qed.

(** *** The queue *)

Lemma compare_lt (h : gmap ptr GstClockEntryImpl) (a b : ptr) :
  (gst_clock_id_compare_func h a b <? 0) = true ↔
  GST_CLOCK_ENTRY_TIME h a < GST_CLOCK_ENTRY_TIME h b.
Proof.
  unfold gst_clock_id_compare_func.
  destruct (GST_CLOCK_ENTRY_TIME h b <? GST_CLOCK_ENTRY_TIME h a) eqn:H1;
    destruct (GST_CLOCK_ENTRY_TIME h a <? GST_CLOCK_ENTRY_TIME h b) eqn:H2; lia.
Qed.

Lemma insert_sorted_split (h : gmap ptr GstClockEntryImpl) (l : list ptr) (e : ptr) :
  ∃ l1 l2,
    l = l1 ++ l2 ∧
    g_list_insert_sorted l e (gst_clock_id_compare_func h) = l1 ++ e :: l2 ∧
    Forall (λ y, GST_CLOCK_ENTRY_TIME h y ≤ GST_CLOCK_ENTRY_TIME h e) l1 ∧
    (∀ y, head l2 = Some y → GST_CLOCK_ENTRY_TIME h e < GST_CLOCK_ENTRY_TIME h y).
Proof.
  induction l as [|a l IH]; cbn [g_list_insert_sorted].
  - exists [], []. split_and!; [done.. |]. intros y [=].
  - destruct (gst_clock_id_compare_func h e a <? 0) eqn:Hc.
    + exists [], (a :: l). split_and!; [done.. |]. intros y [= <-]. by apply compare_lt.
    + destruct IH as (l1 & l2 & -> & -> & Hl1 & Hl2).
      exists (a :: l1), l2. split_and!; [done | done | | done].
      constructor; [| done].
      destruct (decide (GST_CLOCK_ENTRY_TIME h e < GST_CLOCK_ENTRY_TIME h a)) as [Hlt|]; [| lia].
      apply compare_lt in Hlt. congruence.
Qed.

Lemma insert_sorted_elem (h : gmap ptr GstClockEntryImpl) (l : list ptr) (e : ptr) :
  e ∈ g_list_insert_sorted l e (gst_clock_id_compare_func h).
Proof.
  destruct (insert_sorted_split h l e) as (l1 & l2 & _ & -> & _). set_solver.
Qed.

Lemma entry_time_init (h : gmap ptr GstClockEntryImpl) (e y : ptr) (x : GstClockEntryImpl) :
  h !! e = Some x →
  GST_CLOCK_ENTRY_TIME (<[e := with_initialized true x]> h) y = GST_CLOCK_ENTRY_TIME h y.
Proof.
  intros Hx. unfold GST_CLOCK_ENTRY_TIME. destruct (decide (e = y)) as [->|Hne].
  - by rewrite lookup_insert_eq, Hx.
  - by rewrite lookup_insert_ne.
Qed.

Lemma insert_sorted_ext {A : Type} (cmp1 cmp2 : A → A → Z) (l : list A) (e : A) :
  (∀ a b, cmp1 a b = cmp2 a b) →
  g_list_insert_sorted l e cmp1 = g_list_insert_sorted l e cmp2.
Proof.
  intros Hc. induction l as [|a l IH]; cbn [g_list_insert_sorted]; [done |].
  by rewrite Hc, IH.
Qed.

Lemma insert_sorted_init (h : gmap ptr GstClockEntryImpl) (l : list ptr) (e : ptr)
    (x : GstClockEntryImpl) :
  h !! e = Some x →
  g_list_insert_sorted l e (gst_clock_id_compare_func (<[e := with_initialized true x]> h)) =
  g_list_insert_sorted l e (gst_clock_id_compare_func h).
Proof.
  intros Hx. apply insert_sorted_ext. intros a b. unfold gst_clock_id_compare_func.
  by rewrite !(entry_time_init h e _ x).
Qed.

(** C2. Unscheduling sets the status to Unscheduled whatever it was; a
    second call on the same entry leaves the entries and the clock as the
    first left them, sends no broadcast, and the status stays Unscheduled. *)
Theorem unschedule_idempotent (e : ptr) (w : World) (x : GstClockEntryImpl) :
  heap w !! e = Some x →
  ∃ w1 t1,
    gst_system_clock_id_unschedule e w = Ret tt w1 t1 ∧
    status <$> (heap w1 !! e) = Some GST_CLOCK_UNSCHEDULED ∧
    signals t1 = (if decide (status x = GST_CLOCK_BUSY) then [EvEntryBroadcast e] else []) ∧
    gst_system_clock_id_unschedule e w1 =
      Ret tt w1 [EvClockLock; EvEntryLock e; EvEntryUnlock e; EvClockUnlock].
Proof.
  assert (∀ w x, heap w !! e = Some x →
            gst_system_clock_id_unschedule e w =
            Ret tt (put_status e GST_CLOCK_UNSCHEDULED (with_initialized true x) w)
              ([EvClockLock] ++ (if initialized x then [] else [EvInitEntry e]) ++
               [EvEntryLock e] ++
               (if decide (status x = GST_CLOCK_BUSY) then [EvEntryBroadcast e] else []) ++
               [EvEntryUnlock e; EvClockUnlock])) as Hrun.
  { clear. intros w x Hx. unfold gst_system_clock_id_unschedule.
    unfold mbind at 1 2, M_bind at 1 2. unfold emit at 1.
    rewrite (ensure_entry_initialized_run e w x Hx).
    assert (heap (init_world e x w) !! e = Some (with_initialized true x)) as Hx'
      by apply lookup_insert_eq.
    unfold mbind at 1 2, M_bind at 1 2. unfold emit at 1. cbn [after].
    rewrite (get_status_run e _ _ Hx'). unfold mbind at 1, M_bind at 1.
    rewrite (set_status_run e _ _ _ Hx'). cbn [status with_initialized after].
    unfold put_status, init_world. cbn [heap priv env threads_available].
    rewrite insert_insert_eq.
    destruct (initialized x), (decide (status x = GST_CLOCK_BUSY)); by run. }
  intros Hx. eexists _, _. split; [by apply Hrun |].
  unfold put_status. cbn [heap]. rewrite lookup_insert_eq. split; [done |]. split.
  - by destruct (initialized x), (decide (status x = GST_CLOCK_BUSY)).
  - erewrite Hrun by (cbn [heap]; apply lookup_insert_eq).
    cbn [initialized status with_status with_initialized].
    destruct (decide (GST_CLOCK_UNSCHEDULED = GST_CLOCK_BUSY)); [done |].
    unfold put_status. cbn [heap priv env threads_available app]. by rewrite insert_insert_eq.
Qed.

Lemma started_world_statics (w : World) :
  statics <$> heap (started_world w) = statics <$> heap w.
Proof.
  unfold started_world. destruct (thread (priv w)); [done |].
  destruct (threads_available w); [| done]. destruct (env w) as [|step rest]; [done |].
  unfold spun_up_world, after_window. cbn [heap priv]. apply interfere_statics.
Qed.

Lemma started_world_lookup (w : World) (e : ptr) (x : GstClockEntryImpl) :
  heap w !! e = Some x → ∃ y, heap (started_world w) !! e = Some y.
Proof.
  intros Hx. pose proof (started_world_statics w) as Hs.
  apply (f_equal (λ m, m !! e)) in Hs. rewrite !lookup_fmap, Hx in Hs.
  destruct (heap (started_world w) !! e) as [y|]; [by exists y | done].
Qed.

Lemma started_world_unscheduled (e : ptr) (w : World) :
  env_leaves_unscheduled e (env w) = true → unscheduled e w → unscheduled e (started_world w).
Proof.
  intros He Hu. unfold started_world. destruct (thread (priv w)); [done |].
  destruct (threads_available w); [| done].
  destruct (env w) as [|step rest] eqn:Hw; [done |].
  cbn [env_leaves_unscheduled forallb] in He. apply andb_prop in He as [Hs _].
  unfold unscheduled, spun_up_world, after_window. cbn [heap priv].
  by apply interfere_unscheduled.
Qed.

Lemma started_world_ready (w : World) :
  queue_ready w → env_enqueues_ready (heap w) (env w) = true → queue_ready (started_world w).
Proof.
  intros Hq He. unfold started_world. destruct (thread (priv w)); [done |].
  destruct (threads_available w); [| done].
  destruct (env w) as [|step rest] eqn:Hw; [done |].
  cbn [env_enqueues_ready forallb] in He. apply andb_prop in He as [Hs _].
  unfold queue_ready, spun_up_world, after_window. cbn [heap priv entries].
  destruct (interfere_ready (heap w) (env_acts step) (heap w)
              (mkPriv true true (stopping (priv w)) (entries (priv w))) Hs
              (λ _ H, H) Hq) as [Hh' Hq'].
  eapply Forall_impl; [exact Hq' |]. intros q Hr. by apply Hh'.
Qed.

(** C4, as the code has it. A call of [gst_system_clock_id_wait_async]
    that returns has looked at the entry in the world that
    [gst_system_clock_start_async] left, which is the world of the call
    when the dispatcher thread was running. It gives Error exactly when
    the thread is not running and cannot be created, whatever the status of
    the entry, and the queue is then as it was; Unscheduled exactly when
    the dispatcher is available and the entry's status is Unscheduled at
    the moment the call looks at it, and the entry is then not queued; OK
    in the remaining case, with the entry inserted into the queue of that
    moment. *)
Theorem wait_async_results (e : ptr) (w w' : World) (r : GstClockReturn) (t : list Event) :
  gst_system_clock_id_wait_async e w = Ret r w' t →
  gst_system_clock_start_async w =
    Ret (dispatcher_available w) (started_world w) (start_events w) ∧
  (thread (priv w) = true → started_world w = w) ∧
  (r = GST_CLOCK_ERROR ↔ dispatcher_available w = false) ∧
  (r = GST_CLOCK_ERROR → entries (priv w') = entries (priv w)) ∧
  (r = GST_CLOCK_UNSCHEDULED ↔
     dispatcher_available w = true ∧
     status <$> (heap (started_world w) !! e) = Some GST_CLOCK_UNSCHEDULED) ∧
  (r = GST_CLOCK_UNSCHEDULED → entries (priv w') = entries (priv (started_world w))) ∧
  (r ≠ GST_CLOCK_ERROR → r ≠ GST_CLOCK_UNSCHEDULED →
     r = GST_CLOCK_OK ∧
     entries (priv w') =
       g_list_insert_sorted (entries (priv (started_world w))) e
         (gst_clock_id_compare_func (heap (started_world w))) ∧
     e ∈ entries (priv w')).
Proof.
  intros H. split; [by eapply wait_async_started |].
  split; [apply started_world_running |].
  apply wait_async_inv in H as [(Hd & -> & -> & _)|(x & Hx & Hd & Hh & H)].
  { destruct (started_world_failed w Hd) as (_ & He & _). rewrite Hd.
    split_and!; intuition congruence. }
  rewrite Hd, Hx. cbn [fmap option_fmap option_map].
  destruct H as [(Hst & -> & He & _)|(Hst & -> & first & rest & Hins & He & _)].
  - rewrite Hst. split_and!; intuition congruence.
  - rewrite Hh, (insert_sorted_init _ _ _ _ Hx) in Hins.
    split_and!; [intuition congruence.. |].
    intros _ _. rewrite He, <- Hins. split_and!; [done.. |]. apply insert_sorted_elem.
Qed.

(** C5. In a call of [gst_system_clock_id_wait_async] that returns OK, the
    entry is inserted into the queue of the world that
    [gst_system_clock_start_async] left (the world of the call when the
    dispatcher thread was running). If the entry is the head of the queue
    after the insertion, the clock condition is broadcast when the queue
    was empty before it, and otherwise the old head's condition is
    broadcast exactly when the old head's status is Busy; if the entry is
    not the head, nothing is broadcast. *)
Theorem wait_async_signals (e : ptr) (w w' : World) (t : list Event) :
  gst_system_clock_id_wait_async e w = Ret GST_CLOCK_OK w' t →
  ∃ first,
    gst_system_clock_start_async w = Ret true (started_world w) (start_events w) ∧
    (thread (priv w) = true → started_world w = w) ∧
    entries (priv w') =
      g_list_insert_sorted (entries (priv (started_world w))) e
        (gst_clock_id_compare_func (heap (started_world w))) ∧
    head (entries (priv w')) = Some first ∧
    (first = e → entries (priv (started_world w)) = [] → signals t = [EvClockBroadcast]) ∧
    (first = e → ∀ hd, head (entries (priv (started_world w))) = Some hd →
       status <$> (heap (started_world w) !! hd) = Some GST_CLOCK_BUSY →
       signals t = [EvEntryBroadcast hd]) ∧
    (first = e → ∀ hd, head (entries (priv (started_world w))) = Some hd →
       status <$> (heap (started_world w) !! hd) ≠ Some GST_CLOCK_BUSY → signals t = []) ∧
    (first ≠ e → signals t = []).
Proof.
  intros H. pose proof (wait_async_started _ _ _ _ _ H) as Hs.
  apply wait_async_inv in H as [(_ & [=] & _)|(x & Hx & Hd & Hh & H)].
  destruct H as [(_ & [=] & _)|(Hst & _ & first & rest & Hins & He & Hsig)].
  exists first. rewrite Hd in Hs. split; [done |].
  split; [apply started_world_running |].
  rewrite Hh, (insert_sorted_init _ _ _ _ Hx) in Hins.
  rewrite He, Hsig, Hins. unfold head_signals. split; [done |]. split; [done |].
  split_and!.
  - intros -> Hq. rewrite Hq. by rewrite decide_True.
  - intros -> hd Hhd Hb. rewrite decide_True by done.
    destruct (entries (priv (started_world w))) as [|hd' q]; [done |]. injection Hhd as ->.
    by rewrite decide_True.
  - intros -> hd Hhd Hb. rewrite decide_True by done.
    destruct (entries (priv (started_world w))) as [|hd' q]; [done |]. injection Hhd as ->.
    by rewrite decide_False.
  - intros Hne. by rewrite decide_False.
Qed.

(** ** Entries that were unscheduled *)

Lemma unschedule_run (e : ptr) (w : World) (x : GstClockEntryImpl) :
  heap w !! e = Some x →
  gst_system_clock_id_unschedule e w =
  Ret tt (put_status e GST_CLOCK_UNSCHEDULED (with_initialized true x) w)
    ([EvClockLock] ++ (if initialized x then [] else [EvInitEntry e]) ++
     [EvEntryLock e] ++
     (if decide (status x = GST_CLOCK_BUSY) then [EvEntryBroadcast e] else []) ++
     [EvEntryUnlock e; EvClockUnlock]).
Proof.
  intros Hx. unfold gst_system_clock_id_unschedule.
  unfold mbind at 1 2, M_bind at 1 2. unfold emit at 1.
  rewrite (ensure_entry_initialized_run e w x Hx).
  assert (heap (init_world e x w) !! e = Some (with_initialized true x)) as Hx'
    by apply lookup_insert_eq.
  unfold mbind at 1 2, M_bind at 1 2. unfold emit at 1. cbn [after].
  rewrite (get_status_run e _ _ Hx'). unfold mbind at 1, M_bind at 1.
  rewrite (set_status_run e _ _ _ Hx'). cbn [status with_initialized after].
  unfold put_status, init_world. cbn [heap priv env threads_available].
  rewrite insert_insert_eq.
  destruct (initialized x), (decide (status x = GST_CLOCK_BUSY)); by run.
Qed.

(** ** What a submission takes and leaves *)

Lemma contents_init (h : gmap ptr GstClockEntryImpl) (e : ptr) (x : GstClockEntryImpl) :
  h !! e = Some x → contents <$> <[e := with_initialized true x]> h = contents <$> h.
Proof.
  intros Hx. rewrite fmap_insert. apply insert_id. by rewrite lookup_fmap, Hx.
Qed.

(** The wake-up of the old head at the end of
    [gst_system_clock_id_wait_async] changes nothing and takes no
    reference. *)
Lemma wake_head_ret (first e : ptr) (head : option ptr) (w w' : World) (t : list Event) :
  (if decide (first = e) then
     match head with
     | None => emit EvClockBroadcast
     | Some hd =>
         x ← load hd;
         if negb (initialized x) then fault AssertFailed
         else
           emit (EvEntryLock hd);;
           (if decide (status x = GST_CLOCK_BUSY)
            then emit (EvEntryBroadcast hd) else mret tt);;
           emit (EvEntryUnlock hd)
     end
   else mret tt) w = Ret tt w' t →
  w' = w ∧ refs t = [] ∧ threads_created t = [].
Proof.
  destruct (decide (first = e)) as [_|_]; [| by intros (_ & <- & ->)%ret_inv].
  destruct head as [hd|]; [| unfold emit; by intros [= <- <-]].
  unfold load. run. destruct (heap w !! hd) as [x|]; run; [| discriminate].
  destruct (initialized x); run; [| discriminate].
  destruct (decide (status x = GST_CLOCK_BUSY)); run; by intros [= <- <-].
Qed.

(** What a call of [gst_system_clock_id_wait_async] that returns has done
    to the entries, the references and the clock, from the world
    [started_world w] in which it looked at the entry. *)
Lemma wait_async_effects (e : ptr) (w w' : World) (r : GstClockReturn) (t : list Event) :
  gst_system_clock_id_wait_async e w = Ret r w' t →
  contents <$> heap w' = contents <$> heap (started_world w) ∧
  refs t = (if decide (r = GST_CLOCK_OK) then [e] else []) ∧
  threads_created t = threads_created (start_events w) ∧
  (r ≠ GST_CLOCK_ERROR → thread (priv w') = true) ∧
  stopping (priv w') = stopping (priv (started_world w)).
Proof.
  intros H. pose proof (wait_async_started _ _ _ _ _ H) as Hs.
  unfold gst_system_clock_id_wait_async in H.
  apply bind_ret_inv in H as ([] & w1 & t1 & ? & [= <- <-] & H & ->).
  apply bind_ret_inv in H as (started & w2 & t2 & ? & Hs' & H & ->).
  rewrite Hs in Hs'. injection Hs' as <- <- <-.
  apply start_async_ret in Hs as (Ha & _).
  pose proof (λ Hd, started_world_thread w Hd Ha) as Hthread.
  destruct (start_events_quiet w) as (_ & Hr2 & _).
  revert H Hthread Hr2. generalize (start_events w). generalize (started_world w).
  intros ws t2 H Hthread Hr2.
  destruct (dispatcher_available w) eqn:Hd; cbn [negb] in H.
  2:{ apply bind_ret_inv in H as ([] & ? & ? & ? & [= <- <-] & H & ->).
      apply ret_inv in H as (<- & <- & ->).
      unfold refs, threads_created in *.
      rewrite !omap_app, ?app_nil_r, ?Hr2, ?app_nil_r. by split_and!. }
  specialize (Hthread eq_refl).
  apply bind_ret_inv in H as ([] & w3 & t3 & ? & Hi & H & ->).
  destruct (heap ws !! e) as [ent|] eqn:Hx.
  2:{ unfold ensure_entry_initialized in Hi. run_in Hi.
      rewrite Hx in Hi. discriminate. }
  rewrite (ensure_entry_initialized_run e _ ent) in Hi by done.
  injection Hi as <- <-.
  set (t3 := if initialized ent then [] else _) in *.
  assert (refs t3 = [] ∧ threads_created t3 = []) as [Hr3 Hn3].
  { subst t3. by destruct (initialized ent). }
  clearbody t3.
  apply bind_ret_inv in H as ([] & ? & ? & ? & [= <- <-] & H & ->).
  apply bind_ret_inv in H as (st & ? & ? & ? & Hg & H & ->).
  rewrite (get_status_run e _ (with_initialized true ent)) in Hg
    by (unfold init_world; cbn [heap]; apply lookup_insert_eq).
  injection Hg as <- <- <-. cbn [status with_initialized] in H.
  assert (contents <$> heap (init_world e ent ws) = contents <$> heap ws) as Hcontents.
  { unfold init_world. cbn [heap]. by apply contents_init. }
  destruct (decide (status ent = GST_CLOCK_UNSCHEDULED)) as [Hst|Hst].
  { apply bind_ret_inv in H as ([] & ? & ? & ? & [= <- <-] & H & ->).
    apply bind_ret_inv in H as ([] & ? & ? & ? & [= <- <-] & H & ->).
    apply ret_inv in H as (<- & <- & ->).
    unfold refs, threads_created in *. rewrite !omap_app, ?app_nil_r, ?Hr2, ?Hr3, ?Hn3, ?app_nil_r.
    split_and!; try done; by auto. }
  apply bind_ret_inv in H as ([] & ? & ? & ? & [= <- <-] & H & ->).
  apply bind_ret_inv in H as (q & ? & ? & ? & [= <- <- <-] & H & ->). cbv zeta in H.
  apply bind_ret_inv in H as ([] & ? & ? & ? & [= <- <-] & H & ->).
  apply bind_ret_inv in H as (h & ? & ? & ? & [= <- <- <-] & H & ->).
  apply bind_ret_inv in H as ([] & w4 & ? & ? & [= <- <-] & H & ->).
  apply bind_ret_inv in H as (q' & ? & ? & ? & [= <- <- <-] & H & ->).
  cbn [priv entries] in H.
  destruct (g_list_insert_sorted _ _ _) as [|first rest0] eqn:Hins; [discriminate |].
  apply bind_ret_inv in H as ([] & w5 & t5 & ? & (-> & Hr5 & Hn5)%wake_head_ret & H & ->).
  apply bind_ret_inv in H as ([] & ? & ? & ? & [= <- <-] & H & ->).
  apply ret_inv in H as (<- & <- & ->).
  cbn [heap priv thread starting stopping].
  unfold refs, threads_created in *.
  rewrite !omap_app, ?app_nil_r, ?Hr2, ?Hr3, ?Hr5, ?Hn3, ?Hn5, ?app_nil_r.
  split_and!; try done; by auto.
Qed.

(** X5. An entry that was unscheduled is refused by both waits. After
    [gst_system_clock_id_unschedule] on an entry, a synchronous wait on it
    returns Unscheduled at once: the clock is not read, nothing is waited
    for, nothing is written through [jitter] and the world is left as it
    is. So does an asynchronous wait when the dispatcher thread runs. When
    the thread has to be started first, the other threads run while it
    spins up: if none of them writes another status to the entry, a call
    that returns gives Unscheduled, or Error when the thread could not be
    created; it takes no reference and does not queue the entry. *)
Theorem unscheduled_entry_refused (CLOCK_MIN_WAIT_TIME : Z) (HAVE_CLOCK_NANOSLEEP : bool)
    (fuel : nat) (e : ptr) (jitter : bool) (w : World) (x : GstClockEntryImpl) :
  heap w !! e = Some x →
  ∃ w1 t1,
    gst_system_clock_id_unschedule e w = Ret tt w1 t1 ∧
    gst_system_clock_id_wait_jitter CLOCK_MIN_WAIT_TIME HAVE_CLOCK_NANOSLEEP fuel e jitter w1 =
      Ret GST_CLOCK_UNSCHEDULED w1
        [EvClockLock; EvClockUnlock; EvEntryLock e; EvEntryUnlock e] ∧
    (thread (priv w) = true →
     gst_system_clock_id_wait_async e w1 =
       Ret GST_CLOCK_UNSCHEDULED w1
         [EvClockLock; EvEntryLock e; EvEntryUnlock e; EvClockUnlock]) ∧
    (env_leaves_unscheduled e (env w) = true →
     ∀ r w' t,
       gst_system_clock_id_wait_async e w1 = Ret r w' t →
       (r = GST_CLOCK_UNSCHEDULED ∨ r = GST_CLOCK_ERROR) ∧
       (r = GST_CLOCK_ERROR ↔ dispatcher_available w = false) ∧
       refs t = [] ∧
       entries (priv w') = entries (priv (started_world w1))).
Proof.
  intros Hx. eexists _, _. split; [by apply unschedule_run |].
  set (w1 := put_status _ _ _ w).
  assert (heap w1 !! e =
          Some (with_status GST_CLOCK_UNSCHEDULED (with_initialized true x))) as Hx1
    by apply lookup_insert_eq.
  assert (init_world e (with_status GST_CLOCK_UNSCHEDULED (with_initialized true x)) w1 = w1)
    as Hinit.
  { unfold init_world, w1, put_status. cbn [heap priv env threads_available].
    by rewrite insert_insert_eq. }
  split_and!.
  - unfold gst_system_clock_id_wait_jitter.
    unfold mbind at 1 2, M_bind at 1 2. unfold emit at 1.
    rewrite (ensure_entry_initialized_run e w1 _ Hx1), Hinit.
    cbn [initialized with_status with_initialized after].
    unfold mbind at 1 2, M_bind at 1 2. unfold emit at 1 2. cbn [after].
    unfold mbind at 1, M_bind at 1.
    rewrite (get_status_run e w1 _ Hx1). cbn [status with_status after].
    destruct (decide (GST_CLOCK_UNSCHEDULED = GST_CLOCK_UNSCHEDULED)); [| done]. by run.
  - intros Ht.
    assert (thread (priv w1) = true) as Ht1 by done.
    unfold gst_system_clock_id_wait_async.
    unfold mbind at 1 2, M_bind at 1 2. unfold emit at 1.
    rewrite start_async_run by (unfold start_answered; by rewrite Ht1).
    rewrite (started_world_running w1 Ht1).
    unfold dispatcher_available, start_events. rewrite Ht1.
    cbn [orb negb after].
    unfold mbind at 1, M_bind at 1.
    rewrite (ensure_entry_initialized_run e _ _ Hx1), Hinit.
    cbn [initialized with_status with_initialized after].
    unfold mbind at 1 2, M_bind at 1 2. unfold emit at 1. cbn [after].
    rewrite (get_status_run e _ _ Hx1). cbn [status with_status after].
    destruct (decide (GST_CLOCK_UNSCHEDULED = GST_CLOCK_UNSCHEDULED)); [| done].
    by run.
  - intros He r w' t H.
    assert (unscheduled e (started_world w1)) as Hu.
    { apply started_world_unscheduled; [done |]. unfold unscheduled. by rewrite Hx1. }
    destruct (wait_async_effects _ _ _ _ _ H) as (_ & Hrefs & _).
    change (dispatcher_available w) with (dispatcher_available w1).
    apply wait_async_inv in H as [(Hd & -> & -> & _)|(y & Hy & Hd & Hh & H)].
    { split_and!; auto. by split. }
    unfold unscheduled in Hu. rewrite Hy in Hu. injection Hu as Hu.
    destruct H as [(_ & -> & Hq & _)|(Hst & _)]; [| done].
    rewrite Hd. split_and!; auto. split; intros [=].
Qed.


(** X23. When the dispatcher thread is not running and cannot be
    created, [gst_system_clock_id_wait_async] gives up before it looks at
    the entry: it returns Error whatever the address it was given, even one
    that is not an entry; the entry is neither initialised nor locked, the
    queue is not touched, and the clock is left exactly as it was, so that
    a later call can try again. *)
Theorem wait_async_error_path (e : ptr) (w : World) :
  dispatcher_available w = false →
  starting (priv w) = false →
  gst_system_clock_id_wait_async e w =
  Ret GST_CLOCK_ERROR w [EvClockLock; EvThreadNew; EvWarning; EvClockUnlock].
Proof.
  intros Hd Hs. unfold gst_system_clock_id_wait_async.
  unfold mbind at 1 2, M_bind at 1 2. unfold emit at 1.
  pose proof Hd as Hd'. unfold dispatcher_available in Hd'.
  apply orb_false_iff in Hd' as [Ht Ha].
  rewrite start_async_run by (unfold start_answered; by rewrite Ht, Ha).
  rewrite Hd. unfold started_world, start_events. rewrite Ht, Ha. run.
  destruct w as [h [th st sp q] ev ta]. cbn in *. by subst.
Qed.

(** ** The assertion on the head of the queue *)

Lemma ready_init (h : gmap ptr GstClockEntryImpl) (e q : ptr) (x : GstClockEntryImpl) :
  h !! e = Some x →
  initialized <$> (h !! q) = Some true →
  initialized <$> (<[e := with_initialized true x]> h !! q) = Some true.
Proof.
  intros Hx Hq. destruct (decide (e = q)) as [->|Hne].
  - by rewrite lookup_insert_eq.
  - by rewrite lookup_insert_ne.
Qed.

Lemma queue_ready_insert (h : gmap ptr GstClockEntryImpl) (l : list ptr) (e : ptr)
    (x : GstClockEntryImpl) (cmp : gmap ptr GstClockEntryImpl) :
  h !! e = Some x →
  Forall (λ q, initialized <$> (h !! q) = Some true) l →
  Forall (λ q, initialized <$> (<[e := with_initialized true x]> h !! q) = Some true)
    (g_list_insert_sorted l e (gst_clock_id_compare_func cmp)).
Proof.
  intros Hx Hl.
  destruct (insert_sorted_split cmp l e) as (l1 & l2 & -> & -> & _).
  apply Forall_app in Hl as [Hl1 Hl2]. apply Forall_app. split; [| constructor].
  - eapply Forall_impl; [exact Hl1 |]. intros q Hq. by apply ready_init.
  - by rewrite lookup_insert_eq.
  - eapply Forall_impl; [exact Hl2 |]. intros q Hq. by apply ready_init.
Qed.

(** The part of [gst_system_clock_id_wait_async] that follows the thread
    start returns, and leaves a queue of entries whose lock has been
    created, when it finds such a queue. *)
Lemma submit_ready (e : ptr) (ws : World) (x : GstClockEntryImpl) (t0 : list Event) :
  queue_ready ws →
  heap ws !! e = Some x →
  ∃ r w' t,
    after t0
      ((ensure_entry_initialized e;;
        emit (EvEntryLock e);;
        st ← get_status e;
        if decide (st = GST_CLOCK_UNSCHEDULED) then
          emit (EvEntryUnlock e);; emit EvClockUnlock;; mret GST_CLOCK_UNSCHEDULED
        else
          emit (EvEntryUnlock e);;
          p ← get_priv;
          let head := hd_error (entries p) in
          emit (EvRef e);;
          h ← get_heap;
          set_entries (g_list_insert_sorted (entries p) e (gst_clock_id_compare_func h));;
          p' ← get_priv;
          match entries p' with
          | [] => fault BadPointer
          | first :: _ =>
              (if decide (first = e) then
                 match head with
                 | None => emit EvClockBroadcast
                 | Some hd =>
                     x ← load hd;
                     if negb (initialized x) then fault AssertFailed
                     else
                       emit (EvEntryLock hd);;
                       (if decide (status x = GST_CLOCK_BUSY)
                        then emit (EvEntryBroadcast hd) else mret tt);;
                       emit (EvEntryUnlock hd)
                 end
               else mret tt);;
              emit EvClockUnlock;;
              mret GST_CLOCK_OK
          end) ws) = Ret r w' t ∧ queue_ready w'.
Proof.
  intros Hq Hx. unfold queue_ready in *.
  unfold mbind at 1, M_bind at 1.
  rewrite (ensure_entry_initialized_run e _ x) by done.
  unfold mbind at 1 2, M_bind at 1 2. unfold emit at 1. cbn [after].
  rewrite (get_status_run e _ (with_initialized true x))
    by (unfold init_world; cbn [heap]; apply lookup_insert_eq).
  cbn [status with_initialized after].
  destruct (decide (status x = GST_CLOCK_UNSCHEDULED)) as [Hst|Hst].
  { run. eexists _, _, _. split; [done |]. unfold init_world. cbn [heap priv].
    eapply Forall_impl; [exact Hq |]. intros q Hr. by apply ready_init. }
  unfold set_entries. run. unfold init_world. cbn [heap priv].
  pose proof (queue_ready_insert (heap ws) (entries (priv ws)) e x
                (<[e := with_initialized true x]> (heap ws)) Hx Hq) as Hins.
  destruct (g_list_insert_sorted _ _ _) as [|first rest0] eqn:Hl.
  { pose proof (insert_sorted_elem (<[e := with_initialized true x]> (heap ws))
                  (entries (priv ws)) e) as He.
    rewrite Hl in He. by apply elem_of_nil in He. }
  destruct (decide (first = e)) as [->|Hne].
  - destruct (entries (priv ws)) as [|hd q] eqn:Hent; cbn [hd_error].
    + run. eexists _, _, _. split; [done |]. done.
    + apply Forall_cons in Hq as [Hhd _].
      pose proof (ready_init (heap ws) e hd x Hx Hhd) as Hhd'.
      cbn [heap priv env threads_available].
      destruct (<[e := with_initialized true x]> (heap ws) !! hd) as [xh|] eqn:Hxh;
        [| discriminate].
      injection Hhd' as ->. cbn [negb].
      destruct (decide (status xh = GST_CLOCK_BUSY)); run; eexists _, _, _; by split.
  - run. eexists _, _, _. by split.
Qed.

(** X8. [gst_system_clock_id_wait_async] never fails the assertion on
    the old head and never dereferences an address that is not an entry.
    When every queued address is an entry whose lock has been created, and
    the other threads only queue such entries, the call on an entry
    returns, and leaves a queue with the same property, the new entry
    included, unless it is kept waiting for a new dispatcher thread to spin
    up: the only run that does not return is the one in which the
    environment gives no answer to that wait. *)
Theorem wait_async_safe (e : ptr) (w : World) (x : GstClockEntryImpl) :
  queue_ready w →
  heap w !! e = Some x →
  env_enqueues_ready (heap w) (env w) = true →
  match gst_system_clock_id_wait_async e w with
  | Ret _ w' _ => start_answered w = true ∧ queue_ready w'
  | Fault f _ _ => f = EnvExhausted ∧ start_answered w = false
  end.
Proof.
  intros Hq Hx He. unfold gst_system_clock_id_wait_async.
  unfold mbind at 1 2, M_bind at 1 2. unfold emit at 1.
  destruct (start_answered w) eqn:Ha.
  2:{ apply start_async_blocked in Ha as (w1 & ->). done. }
  rewrite start_async_run by done. cbn [after].
  destruct (dispatcher_available w) eqn:Hd; cbn [negb].
  2:{ run. split; [done |]. destruct (started_world_failed w Hd) as (Hh & Hl & _).
      unfold queue_ready. by rewrite Hh, Hl. }
  pose proof (started_world_ready w Hq He) as Hq'.
  destruct (started_world_lookup w e x Hx) as (y & Hy).
  destruct (submit_ready e (started_world w) y (start_events w) Hq' Hy)
    as (r & w' & t & Hrun & Hr).
  cbv zeta in Hrun. rewrite Hrun. done.
Qed.

(** ** Stopping the clock *)



(** ** The default system clock *)

Lemma set_default_consistent (c : option ptr) (g : Singleton) :
  default_consistent (gst_system_clock_set_default c g).1.
Proof. by destruct c. Qed.

Lemma obtain_consistent (fresh : ptr) (g : Singleton) :
  default_consistent g →
  ∃ clock g1 evs,
    gst_system_clock_obtain fresh g = Some (clock, g1, evs) ∧ default_consistent g1 ∧
    the_system_clock g1 = Some clock.
Proof.
  intros Hg. unfold gst_system_clock_obtain, default_consistent in *.
  destruct (the_system_clock g) as [c|] eqn:Hc.
  - eexists _, _, _. split; [done |]. by rewrite Hc.
  - rewrite Hg by done. eexists _, _, _. by split.
Qed.

(** X10. The assertion of [gst_system_clock_obtain] cannot fail: after
    any sequence of calls of [gst_system_clock_set_default] and
    [gst_system_clock_obtain], starting when no call was made yet, an
    external default clock is never NULL, every call of
    [gst_system_clock_obtain] has returned, and each returned the clock
    that was the default when the call ended. *)
Theorem obtain_never_asserts (calls : list DefaultCall) :
  ∃ g evs obtained,
    run_default calls default_initial = Some (g, evs, obtained) ∧
    default_consistent g ∧
    (∀ fresh, ∃ clock g1 evs1,
       gst_system_clock_obtain fresh g = Some (clock, g1, evs1) ∧
       the_system_clock g1 = Some clock).
Proof.
  assert (∀ g0, default_consistent g0 →
            ∃ g evs obtained,
              run_default calls g0 = Some (g, evs, obtained) ∧ default_consistent g) as H.
  { induction calls as [|[c|fresh] calls IH]; intros g0 Hg0; cbn [run_default].
    - by eexists _, _, _.
    - destruct (IH _ (set_default_consistent c g0)) as (g & evs & obt & -> & Hg).
      by eexists _, _, _.
    - destruct (obtain_consistent fresh g0 Hg0) as (clock & g1 & evs1 & -> & Hg1 & _).
      destruct (IH _ Hg1) as (g & evs & obt & -> & Hg). by eexists _, _, _. }
  destruct (H default_initial) as (g & evs & obt & Hrun & Hg); [done |].
  exists g, evs, obt. split_and!; [done.. |]. intros fresh.
  destruct (obtain_consistent fresh g Hg) as (clock & g1 & evs1 & Ho & _ & Hc).
  by eexists _, _, _.
Qed.

Lemma refs_held_app (c : ptr) (evs1 evs2 : list ObjEvent) :
  refs_held c (evs1 ++ evs2) = refs_held c evs1 + refs_held c evs2.
Proof.
  unfold refs_held. induction evs1 as [|ev evs1 IH]; cbn [app foldr]; lia.
Qed.

Lemma set_default_refs (c : ptr) (new_clock : option ptr) (g : Singleton) :
  refs_held c (gst_system_clock_set_default new_clock g).2 =
  is_default c (gst_system_clock_set_default new_clock g).1 - is_default c g.
Proof.
  unfold gst_system_clock_set_default, is_default, refs_held.
  destruct new_clock as [n|], (the_system_clock g) as [o|];
    cbn [fst snd app foldr ref_delta the_system_clock];
    repeat case_decide; simplify_eq; lia.
Qed.

Lemma obtain_refs (c fresh clock : ptr) (g g1 : Singleton) (evs : list ObjEvent) :
  gst_system_clock_obtain fresh g = Some (clock, g1, evs) →
  refs_held c evs = is_default c g1 - is_default c g + (if decide (clock = c) then 1 else 0).
Proof.
  unfold gst_system_clock_obtain, is_default, refs_held.
  destruct (the_system_clock g) as [o|] eqn:Ho.
  - intros [= <- <- <-]. rewrite Ho. cbn [foldr ref_delta]. repeat case_decide; simplify_eq; lia.
  - destruct (external_default_clock g); [discriminate |]. intros [= <- <- <-].
    cbn [foldr ref_delta the_system_clock]. repeat case_decide; simplify_eq; lia.
Qed.

(** X11. Reference accounting of the default clock. Over any sequence of
    calls of [gst_system_clock_set_default] and [gst_system_clock_obtain]
    that ran, from any state, the references taken less the references
    dropped on a clock are: one if the clock is the default at the end,
    less one if it was the default at the start, plus one for each call of
    [gst_system_clock_obtain] that returned it. *)
Theorem default_clock_references (calls : list DefaultCall) (g g' : Singleton)
    (evs : list ObjEvent) (obtained : list ptr) (c : ptr) :
  run_default calls g = Some (g', evs, obtained) →
  refs_held c evs = is_default c g' - is_default c g + handed_out c obtained.
Proof.
  revert g evs obtained. induction calls as [|[n|fresh] calls IH]; intros g evs obt;
    cbn [run_default].
  - intros [= <- <- <-]. unfold handed_out. cbn. lia.
  - destruct (run_default calls _) as [[[g2 evs2] obt2]|] eqn:Hrun; [| discriminate].
    intros [= <- <- <-]. rewrite refs_held_app, set_default_refs, (IH _ _ _ Hrun). lia.
  - destruct (gst_system_clock_obtain fresh g) as [[[clock g1] evs1]|] eqn:Ho;
      [| discriminate].
    destruct (run_default calls g1) as [[[g2 evs2] obt2]|] eqn:Hrun; [| discriminate].
    intros [= <- <- <-]. rewrite refs_held_app, (obtain_refs c _ _ _ _ _ Ho), (IH _ _ _ Hrun).
    unfold handed_out. rewrite filter_cons. destruct (decide (clock = c)); cbn [length]; lia.
Qed.

(** ** The futex condition variable *)

Lemma timespec_normal (end_time : Z) :
  0 ≤ end_time →
  0 ≤ Z.rem end_time 1000000000 < 1000000000 ∧
  0 ≤ end_time ÷ 1000000000 ∧
  end_time ÷ 1000000000 * 1000000000 + Z.rem end_time 1000000000 = end_time.
Proof.
  intros H. rewrite Z.rem_mod_nonneg, Z.quot_div_nonneg by lia.
  pose proof (Z.mod_pos_bound end_time 1000000000).
  pose proof (Z.div_mod end_time 1000000000).
  pose proof (Z.div_pos end_time 1000000000). lia.
Qed.

(** X12. [gst_futex_cond_wait_until] with an end time that is not
    negative, on a system where one of the two system calls can be used
    and the seconds fit [__kernel_long_t]: the mutex is released first and
    taken again last; in between the wait is made once, or twice when
    [futex_time64] answered ENOSYS and the plain call is tried; every wait
    is given the counter as sampled and the end time as seconds and
    nanoseconds with 0 <= nanoseconds < 10^9; and the result is FALSE
    exactly when the last wait failed with ETIMEDOUT. *)
Theorem futex_wait_until_protocol (HAVE_FUTEX_TIME64 HAVE_FUTEX time64_available
    long_is_64 : bool) (ENOSYS ETIMEDOUT cond_val end_time : Z) (a1 a2 : Z * Z) :
  0 ≤ end_time →
  HAVE_FUTEX || (HAVE_FUTEX_TIME64 && time64_available) = true →
  long_is_64 = true ∨ end_time < (G_MAXINT32 + 1) * 1000000000 →
  ∃ calls a sec nsec,
    gst_futex_cond_wait_until HAVE_FUTEX_TIME64 HAVE_FUTEX time64_available long_is_64
      ENOSYS ETIMEDOUT cond_val end_time a1 a2 =
      (Some (futex_success ETIMEDOUT a), [FxUnlock] ++ calls ++ [FxLock]) ∧
    0 ≤ nsec < 1000000000 ∧ 0 ≤ sec ∧ sec * 1000000000 + nsec = end_time ∧
    (calls = [FxWaitTime64 cond_val sec nsec] ∧ a = a1 ∨
     calls = [FxWait cond_val sec nsec] ∧ a = a1 ∨
     calls = [FxWaitTime64 cond_val sec nsec; FxWait cond_val sec nsec] ∧ a = a2 ∧
       a1.1 < 0 ∧ a1.2 = ENOSYS) ∧
    (futex_success ETIMEDOUT a = false ↔ a.1 < 0 ∧ a.2 = ETIMEDOUT).
Proof.
  intros Hend Husable Hfits.
  destruct (timespec_normal end_time Hend) as (Hns & Hs & Hsum).
  assert (long_is_64 || (end_time ÷ 1000000000 <=? G_MAXINT32) = true) as Hassert.
  { destruct Hfits as [->|Hlt]; [done |]. apply orb_true_iff. right.
    apply Z.leb_le. unfold G_MAXINT32 in *. lia. }
  assert (∀ a, futex_success ETIMEDOUT a = false ↔ a.1 < 0 ∧ a.2 = ETIMEDOUT) as Hsucc.
  { intros a. unfold futex_success. rewrite negb_false_iff, andb_true_iff. lia. }
  unfold gst_futex_cond_wait_until.
  assert ((end_time <? 0) = false) as -> by lia. cbv zeta. rewrite Hassert.
  set (sec := end_time ÷ 1000000000) in *. set (nsec := Z.rem end_time 1000000000) in *.
  destruct (HAVE_FUTEX_TIME64 && time64_available) eqn:H64.
  - destruct HAVE_FUTEX.
    + destruct (time64_settled ENOSYS a1) eqn:Hset.
      * exists [FxWaitTime64 cond_val sec nsec], a1, sec, nsec.
        split; [reflexivity |]. split_and!; auto; lia.
      * exists [FxWaitTime64 cond_val sec nsec; FxWait cond_val sec nsec], a2, sec, nsec.
        split; [reflexivity |]. split_and!; auto; try lia.
        right. right. unfold time64_settled in Hset.
        apply orb_false_iff in Hset as [H1 H2]. apply negb_false_iff in H2.
        split_and!; [done.. | lia | lia].
    + exists [FxWaitTime64 cond_val sec nsec], a1, sec, nsec.
      split; [reflexivity |]. split_and!; auto; lia.
  - rewrite orb_false_r in Husable. subst HAVE_FUTEX.
    exists [FxWait cond_val sec nsec], a1, sec, nsec.
    split; [reflexivity |]. split_and!; auto; lia.
Qed.

(** X13. [gst_futex_cond_wait_until] with a negative end time returns
    FALSE with the mutex untouched and no system call; and, for any end
    time, an assertion of the function fails in exactly two cases: no
    system call can be used, or the plain [futex] call is reached, on a
    system whose [__kernel_long_t] has 32 bits, with an end time of more
    than [G_MAXINT32] seconds. *)
Theorem futex_wait_until_edges (HAVE_FUTEX_TIME64 HAVE_FUTEX time64_available
    long_is_64 : bool) (ENOSYS ETIMEDOUT cond_val end_time : Z) (a1 a2 : Z * Z) :
  (end_time < 0 →
   gst_futex_cond_wait_until HAVE_FUTEX_TIME64 HAVE_FUTEX time64_available long_is_64
     ENOSYS ETIMEDOUT cond_val end_time a1 a2 = (Some false, [])) ∧
  ((gst_futex_cond_wait_until HAVE_FUTEX_TIME64 HAVE_FUTEX time64_available long_is_64
      ENOSYS ETIMEDOUT cond_val end_time a1 a2).1 = None ↔
   0 ≤ end_time ∧
   (HAVE_FUTEX || (HAVE_FUTEX_TIME64 && time64_available) = false ∨
    HAVE_FUTEX = true ∧ long_is_64 = false ∧ G_MAXINT32 < end_time ÷ 1000000000 ∧
    (HAVE_FUTEX_TIME64 && time64_available = false ∨ time64_settled ENOSYS a1 = false))).
Proof.
  unfold gst_futex_cond_wait_until. split.
  - intros H. by assert ((end_time <? 0) = true) as -> by lia.
  - destruct (end_time <? 0) eqn:Hneg; [split; [done | lia] |]. cbv zeta.
    assert (0 ≤ end_time) as Hend by lia.
    destruct (HAVE_FUTEX_TIME64 && time64_available), HAVE_FUTEX,
      (time64_settled ENOSYS a1), long_is_64,
      (end_time ÷ 1000000000 <=? G_MAXINT32) eqn:Hfit;
      cbn [orb andb fst]; split; try done; try (intros _; split; [done |]);
      try (intros (_ & [?|(? & ? & ? & [?|?])])); try done; try lia; auto.
    all: right; split_and!; auto; lia.
Qed.

(** X14. [gst_futex_cond_broadcast] always changes the counter, also
    when it wraps around, and keeps it a [guint]; it wakes the waiters
    through [futex_time64] if that can be used and through the plain
    [futex] call if not, or if [futex_time64] answered ENOSYS; and it
    makes no system call only when none can be used. *)
Theorem futex_broadcast_changes_counter (HAVE_FUTEX_TIME64 HAVE_FUTEX time64_available : bool)
    (ENOSYS cond_val : Z) (a1 : Z * Z) :
  0 ≤ cond_val < 2 ^ 32 →
  ∃ v calls,
    gst_futex_cond_broadcast HAVE_FUTEX_TIME64 HAVE_FUTEX time64_available ENOSYS
      cond_val a1 = (v, calls) ∧
    v ≠ cond_val ∧ 0 ≤ v < 2 ^ 32 ∧
    (v = cond_val + 1 ∨ cond_val = 2 ^ 32 - 1 ∧ v = 0) ∧
    (calls = [] ↔ HAVE_FUTEX || (HAVE_FUTEX_TIME64 && time64_available) = false) ∧
    (FxWake ∈ calls ↔
     HAVE_FUTEX = true ∧
     (HAVE_FUTEX_TIME64 && time64_available = false ∨ time64_settled ENOSYS a1 = false)).
Proof.
  intros Hc.
  assert (((cond_val + 1) mod 2 ^ 32 = cond_val + 1 ∨
           cond_val = 2 ^ 32 - 1 ∧ (cond_val + 1) mod 2 ^ 32 = 0)) as Hv.
  { destruct (decide (cond_val = 2 ^ 32 - 1)) as [->|Hne]; [by right |].
    left. apply Z.mod_small. lia. }
  assert (0 ≤ (cond_val + 1) mod 2 ^ 32 < 2 ^ 32) as Hb by (apply Z.mod_pos_bound; lia).
  unfold gst_futex_cond_broadcast.
  destruct (HAVE_FUTEX_TIME64 && time64_available), HAVE_FUTEX,
    (time64_settled ENOSYS a1); cbn [orb];
    eexists _, _; (split; [reflexivity |]); (split; [lia |]); (split; [lia |]);
    (split; [lia |]); split; split; try done; rewrite ?elem_of_cons, ?elem_of_nil;
    intuition congruence.
Qed.

(** ** Concrete runs *)

(** The wait core on the futex configuration (floor of 100 ns), for an
    entry that is due in 10 ns. *)
Lemma wait_core_floor_witness :
  gst_system_clock_id_wait_jitter_unlocked 100 true 0 1 true false
    (world_of {[ 1%nat := mkEntry 1000 0 GST_CLOCK_ENTRY_SINGLE GST_CLOCK_BUSY true true ]}
       [] [quiet_step_at 990]) =
  Ret GST_CLOCK_EARLY
    (world_of {[ 1%nat := mkEntry 1000 0 GST_CLOCK_ENTRY_SINGLE GST_CLOCK_EARLY true true ]}
       [] [])
    [EvEntryUnlock 1; EvEntryLock 1; EvJitter (-10)].
Proof.
  destruct (wait_core_floor 100 true 0 1 true false
              (world_of {[ 1%nat := mkEntry 1000 0 GST_CLOCK_ENTRY_SINGLE GST_CLOCK_BUSY
                                      true true ]} [] [quiet_step_at 990])
              (quiet_step_at 990) []
              (mkEntry 1000 0 GST_CLOCK_ENTRY_SINGLE GST_CLOCK_BUSY true true))
    as (r & -> & Hrun & _).
  - reflexivity.
  - vm_compute. reflexivity.
  - discriminate.
  - vm_compute. intros H. discriminate H.
  - rewrite Hrun. vm_compute. reflexivity.
Defined.

(** Unscheduling, twice, an entry that is being waited for: one broadcast,
    by the first call. *)
Lemma unschedule_idempotent_witness :
  ∃ w1 t1,
    gst_system_clock_id_unschedule 1
      (world_of {[ 1%nat := mkEntry 1000 0 GST_CLOCK_ENTRY_SINGLE GST_CLOCK_BUSY true true ]}
         [1%nat] []) = Ret tt w1 t1 ∧
    signals t1 = [EvEntryBroadcast 1] ∧
    gst_system_clock_id_unschedule 1 w1 =
      Ret tt w1 [EvClockLock; EvEntryLock 1; EvEntryUnlock 1; EvClockUnlock].
Proof.
  destruct (unschedule_idempotent 1
              (world_of {[ 1%nat := mkEntry 1000 0 GST_CLOCK_ENTRY_SINGLE GST_CLOCK_BUSY
                                      true true ]} [1%nat] [])
              (mkEntry 1000 0 GST_CLOCK_ENTRY_SINGLE GST_CLOCK_BUSY true true))
    as (w1 & t1 & H1 & _ & H2 & H3).
  - vm_compute. reflexivity.
  - exists w1, t1. split; [exact H1 |]. split; [exact H2 | exact H3].
Defined.

(** The periodic entry of scenario 3 gets its callbacks with the
    deadlines 20, 50 and 80, although the waits returned at 25, 90 and 200. *)
Lemma periodic_cadence_witness :
  callbacks_of 1 (trace (gst_system_clock_async_thread 100 true 10 periodic_world))
    = [20; 50; 80] ∧
  80 = wrap_u64 (20 + Z.of_nat 2 * 30).
Proof.
  split; [vm_compute; reflexivity |].
  apply (periodic_cadence 100 true 10 1 periodic_world
           (mkEntry 20 30 GST_CLOCK_ENTRY_PERIODIC GST_CLOCK_OK true true)).
  - vm_compute. reflexivity.
  - reflexivity.
  - vm_compute. split; [intros H; discriminate H | reflexivity].
  - vm_compute. reflexivity.
Defined.

(** The submission of an Unscheduled entry when no dispatcher thread can
    be had. *)
Lemma no_thread_run :
  gst_system_clock_id_wait_async 1 no_thread_world =
  Ret GST_CLOCK_ERROR no_thread_world [EvClockLock; EvThreadNew; EvWarning; EvClockUnlock].
Proof. vm_compute. reflexivity. Qed.

(** The literal rule fails there: the entry's status is Unscheduled and
    the result is Error. *)
Lemma wait_async_claimed_fails : ¬ wait_async_claimed 1 no_thread_world.
Proof.
  intros H. destruct (H _ _ _ no_thread_run) as [_ [_ Hun]].
  assert (GST_CLOCK_ERROR = GST_CLOCK_UNSCHEDULED) as Heq; [| discriminate Heq].
  apply Hun. vm_compute. reflexivity.
Qed.

(** It fails as well when the thread has to be started: the status is OK
    at the call, another thread unschedules the entry while the new thread
    spins up, and the result is Unscheduled. *)
Lemma spin_up_run :
  gst_system_clock_id_wait_async 1 spin_up_world =
  Ret GST_CLOCK_UNSCHEDULED
    (mkWorld
       (<[1%nat := mkEntry 40 0 GST_CLOCK_ENTRY_SINGLE GST_CLOCK_UNSCHEDULED true true]>
          queue_heap)
       (mkPriv true false false []) [] true)
    [EvClockLock; EvThreadNew; EvClockWait; EvInitEntry 1; EvEntryLock 1; EvEntryUnlock 1;
     EvClockUnlock].
Proof. vm_compute. reflexivity. Qed.

Lemma spin_up_submission_unscheduled : ¬ wait_async_claimed 1 spin_up_world.
Proof.
  intros H. destruct (H _ _ _ spin_up_run) as [_ [Hun _]].
  specialize (Hun eq_refl). vm_compute in Hun. discriminate Hun.
Qed.

(** The rule of the code at that submission: the status is Unscheduled
    when the call looks at the entry, and the entry is not queued. *)
Lemma wait_async_results_witness :
  status <$> (heap (started_world spin_up_world) !! 1%nat) = Some GST_CLOCK_UNSCHEDULED ∧
  entries (priv (final (gst_system_clock_id_wait_async 1 spin_up_world))) = [].
Proof.
  destruct (wait_async_results 1 spin_up_world
              (final (gst_system_clock_id_wait_async 1 spin_up_world))
              GST_CLOCK_UNSCHEDULED
              (trace (gst_system_clock_id_wait_async 1 spin_up_world)))
    as (_ & _ & _ & _ & Hun & Hq & _).
  - vm_compute. reflexivity.
  - split; [by apply Hun |]. rewrite Hq by reflexivity. vm_compute. reflexivity.
Defined.

(** The queue is empty at the call; when the entry is inserted, entry 2
    is the head and is being waited for: entry 1 becomes the head and the
    condition of entry 2 is broadcast. *)
Lemma wait_async_signals_witness :
  signals (trace (gst_system_clock_id_wait_async 1 spin_up_queue_world))
    = [EvEntryBroadcast 2].
Proof.
  destruct (wait_async_signals 1 spin_up_queue_world
              (final (gst_system_clock_id_wait_async 1 spin_up_queue_world))
              (trace (gst_system_clock_id_wait_async 1 spin_up_queue_world)))
    as (first & _ & _ & _ & Hfirst & _ & Hbusy & _).
  - vm_compute. reflexivity.
  - apply (Hbusy) with (hd := 2%nat).
    + vm_compute in Hfirst. injection Hfirst as <-. reflexivity.
    + vm_compute. reflexivity.
    + vm_compute. reflexivity.
Defined.

(** The dispatcher's wait core ([restart] unset) on the futex
    configuration with [clock_nanosleep], for an entry due in 300
    microseconds: the sleep completes and the call returns Busy, the entry
    being left Done. *)
Lemma nanosleep_completed_is_wakeup_witness :
  gst_system_clock_id_wait_jitter_unlocked 100 true 1 1 false false
    (world_of {[ 1%nat := short_wait_entry ]} [1%nat] [mkEnv 100 7 0 []; mkEnv 0 0 0 []]) =
  Ret GST_CLOCK_BUSY
    (world_of {[ 1%nat := with_status GST_CLOCK_DONE short_wait_entry ]} [1%nat] [])
    [EvEntryUnlock 1; EvEntryLock 1; EvEntryUnlock 1; EvNanosleep 307000; EvEntryLock 1].
Proof.
  rewrite (wait_core_start 100 true 1 1 false false _ (mkEnv 100 7 0 []) [mkEnv 0 0 0 []]
             short_wait_entry); [| reflexivity | vm_compute; reflexivity | discriminate].
  change (100 <? GST_CLOCK_DIFF _ _) with true.
  cbv iota.
  rewrite (nanosleep_completed_is_wakeup 100 true 0 1 _ _ _ _ (mkEnv 0 0 0 []) []
             short_wait_entry).
  - vm_compute. reflexivity.
  - reflexivity.
  - vm_compute. intros H. discriminate H.
  - reflexivity.
  - reflexivity.
  - vm_compute. reflexivity.
  - discriminate.
Defined.

(** A synchronous wait that goes through the wait on the entry's
    condition and returns OK. *)
Lemma sync_wait_never_busy_witness :
  gst_system_clock_id_wait_jitter 100 true 3 1 true (sync_world GST_CLOCK_OK false) =
    Ret GST_CLOCK_OK
      (final (gst_system_clock_id_wait_jitter 100 true 3 1 true (sync_world GST_CLOCK_OK false)))
      [EvClockLock; EvInitEntry 1; EvClockUnlock; EvEntryLock 1;
       EvEntryUnlock 1; EvEntryLock 1; EvJitter (-1000000);
       EvEntryWaitUntil 1 500000; EvEntryUnlock 1; EvEntryLock 1; EvEntryUnlock 1] ∧
  GST_CLOCK_OK ≠ GST_CLOCK_BUSY.
Proof.
  assert (gst_system_clock_id_wait_jitter 100 true 3 1 true (sync_world GST_CLOCK_OK false) =
          Ret GST_CLOCK_OK
            (final (gst_system_clock_id_wait_jitter 100 true 3 1 true
                      (sync_world GST_CLOCK_OK false)))
            [EvClockLock; EvInitEntry 1; EvClockUnlock; EvEntryLock 1;
             EvEntryUnlock 1; EvEntryLock 1; EvJitter (-1000000);
             EvEntryWaitUntil 1 500000; EvEntryUnlock 1; EvEntryLock 1; EvEntryUnlock 1])
    as H by (vm_compute; reflexivity).
  split; [exact H |].
  exact (proj2 (sync_wait_never_busy 100 true 3 1 true _ _ _ _ H)).
Defined.

(** The same wait writes the jitter once, before it blocks. *)
Lemma jitter_written_once_witness :
  jitter_writes
    (trace (gst_system_clock_id_wait_jitter_unlocked 100 true 3 1 true true
              (sync_world GST_CLOCK_BUSY false))) = [-1000000].
Proof.
  destruct (jitter_written_once 100 true 3 1 true (sync_world GST_CLOCK_BUSY false)
              (quiet_step_at 0) [mkEnv 0 0 0 []; quiet_step_at 1000000]
              (mkEntry 1000000 0 GST_CLOCK_ENTRY_SINGLE GST_CLOCK_BUSY false false))
    as (_ & Hw & _).
  - reflexivity.
  - vm_compute. reflexivity.
  - rewrite Hw by discriminate. vm_compute. reflexivity.
Defined.

(** A synchronous wait on an entry left Early, whose deadline has
    passed: the anomaly is logged and the call returns Early again. *)
Lemma early_run :
  gst_system_clock_id_wait_jitter 100 true 3 1 false early_world =
  Ret GST_CLOCK_EARLY (world_of {[ 1%nat := early_entry ]} [] [])
    [EvClockLock; EvClockUnlock; EvEntryLock 1; EvLogError GST_CLOCK_EARLY 1;
     EvEntryUnlock 1; EvEntryLock 1; EvEntryUnlock 1].
Proof. vm_compute. reflexivity. Qed.

(** The literal rule fails there: the status found is returned. *)
Lemma sync_wait_claimed_fails : ¬ sync_wait_claimed 100 true 3 1 false early_world.
Proof.
  intros H.
  assert (heap early_world !! 1%nat = Some early_entry) as Hx by (vm_compute; reflexivity).
  eapply (H early_entry); [exact Hx | discriminate | discriminate | exact early_run | done].
Qed.

(** The rule of the code at the same wait, and a wait on an entry left
    Done and due in one millisecond: the latter blocks on the entry's
    condition. *)
Lemma sync_wait_unexpected_status_witness :
  gst_system_clock_id_wait_jitter 100 true 3 1 false early_world =
    Ret GST_CLOCK_EARLY (world_of {[ 1%nat := early_entry ]} [] [])
      [EvClockLock; EvClockUnlock; EvEntryLock 1; EvLogError GST_CLOCK_EARLY 1;
       EvEntryUnlock 1; EvEntryLock 1; EvEntryUnlock 1] ∧
  head (blocking_calls
          (trace (gst_system_clock_id_wait_jitter 100 true 3 1 false
                    (sync_world GST_CLOCK_DONE false)))) =
    Some (EvEntryWaitUntil 1 500000).
Proof.
  split.
  - destruct (sync_wait_unexpected_status 100 true 3 1 false early_world early_entry)
      as (_ & _ & _ & H).
    + vm_compute. reflexivity.
    + discriminate.
    + discriminate.
    + destruct (H (quiet_step_at 25) []
                  (mkEntry 20 0 GST_CLOCK_ENTRY_SINGLE GST_CLOCK_BUSY false true))
        as (_ & Hfloor & _).
      * reflexivity.
      * vm_compute. reflexivity.
      * rewrite Hfloor.
        -- vm_compute. reflexivity.
        -- discriminate.
        -- vm_compute. intros Hle. discriminate Hle.
  - destruct (sync_wait_unexpected_status 100 true 3 1 false
                (sync_world GST_CLOCK_DONE false)
                (mkEntry 1000000 0 GST_CLOCK_ENTRY_SINGLE GST_CLOCK_DONE false false))
      as (_ & _ & _ & H).
    + vm_compute. reflexivity.
    + discriminate.
    + discriminate.
    + destruct (H (quiet_step_at 0) [mkEnv 0 0 0 []; quiet_step_at 1000000]
                  (mkEntry 1000000 0 GST_CLOCK_ENTRY_SINGLE GST_CLOCK_BUSY false true))
        as (_ & _ & Hwait).
      * reflexivity.
      * vm_compute. reflexivity.
      * destruct Hwait as (t & ->).
        -- discriminate.
        -- vm_compute. reflexivity.
        -- discriminate.
        -- vm_compute. reflexivity.
Defined.

(** A synchronous wait that times out once and finds the entry due: it
    returns OK and leaves the status OK. *)
Lemma sync_wait_leaves_result_witness :
  status <$> (heap (final (gst_system_clock_id_wait_jitter 100 true 3 1 true
                             (sync_world GST_CLOCK_OK false))) !! 1%nat)
    = Some GST_CLOCK_OK.
Proof.
  refine (proj1 (sync_wait_leaves_result 100 true 3 1 true (sync_world GST_CLOCK_OK false)
                   (final (gst_system_clock_id_wait_jitter 100 true 3 1 true
                             (sync_world GST_CLOCK_OK false)))
                   GST_CLOCK_OK
                   (trace (gst_system_clock_id_wait_jitter 100 true 3 1 true
                             (sync_world GST_CLOCK_OK false))) _)).
  vm_compute. reflexivity.
Defined.

(** An entry that is being waited for is unscheduled; both waits then
    refuse it. *)
Lemma unscheduled_entry_refused_witness :
  ∃ w1,
    final (gst_system_clock_id_unschedule 1 busy_world) = w1 ∧
    gst_system_clock_id_wait_jitter 100 true 3 1 true w1 =
      Ret GST_CLOCK_UNSCHEDULED w1
        [EvClockLock; EvClockUnlock; EvEntryLock 1; EvEntryUnlock 1] ∧
    gst_system_clock_id_wait_async 1 w1 =
      Ret GST_CLOCK_UNSCHEDULED w1
        [EvClockLock; EvEntryLock 1; EvEntryUnlock 1; EvClockUnlock].
Proof.
  destruct (unscheduled_entry_refused 100 true 3 1 true busy_world
              (mkEntry 1000 0 GST_CLOCK_ENTRY_SINGLE GST_CLOCK_BUSY true true))
    as (w1 & t1 & Hrun & Hsync & Hasync & _).
  - vm_compute. reflexivity.
  - exists w1. split; [by rewrite Hrun |]. split; [exact Hsync |].
    apply Hasync. reflexivity.
Defined.



(** The submission of an entry whose lock does not exist yet, in front of
    an entry that was queued while the dispatcher thread span up. *)
Lemma wait_async_safe_witness :
  queue_ready (final (gst_system_clock_id_wait_async 1 spin_up_queue_world)).
Proof.
  assert (queue_ready spin_up_queue_world) as Hq
    by (unfold queue_ready; vm_compute; constructor).
  assert (heap spin_up_queue_world !! 1%nat =
          Some (mkEntry 40 0 GST_CLOCK_ENTRY_SINGLE GST_CLOCK_OK true false)) as Hx
    by (vm_compute; reflexivity).
  assert (env_enqueues_ready (heap spin_up_queue_world) (env spin_up_queue_world) = true)
    as He by (vm_compute; reflexivity).
  pose proof (wait_async_safe 1 spin_up_queue_world _ Hq Hx He) as H.
  destruct (gst_system_clock_id_wait_async 1 spin_up_queue_world) as [r w' t|f w' t].
  - exact (proj2 H).
  - destruct H as [_ H]. vm_compute in H. discriminate H.
Defined.


(** The clock created on demand is still referenced once, by the two
    callers that obtained it, after it was replaced. *)
Lemma default_clock_references_witness :
  ∃ g evs obtained,
    run_default default_calls default_initial = Some (g, evs, obtained) ∧
    obtained = [1%nat; 1%nat; 2%nat; 4%nat] ∧
    refs_held 1 evs = 2 ∧ refs_held 2 evs = 1 ∧ refs_held 4 evs = 2.
Proof.
  assert (run_default default_calls default_initial =
          Some (mkSingleton (Some 4%nat) false,
                snd (fst (default (default_initial, [], [])
                            (run_default default_calls default_initial))),
                [1%nat; 1%nat; 2%nat; 4%nat])) as Hrun by (vm_compute; reflexivity).
  eexists _, _, _. split; [exact Hrun |]. split; [reflexivity |].
  rewrite !(default_clock_references _ _ _ _ _ _ Hrun). vm_compute. done.
Defined.

(** A wait until 5.000000123 s on a kernel without [futex_time64]: the
    plain call is made after the ENOSYS, and its time-out gives FALSE. *)
Lemma futex_wait_until_protocol_witness :
  gst_futex_cond_wait_until true true true false 38 110 7 5000000123 (-1, 38) (-1, 110) =
  (Some false,
   [FxUnlock; FxWaitTime64 7 5 123; FxWait 7 5 123; FxLock]).
Proof.
  destruct (futex_wait_until_protocol true true true false 38 110 7 5000000123
              (-1, 38) (-1, 110))
    as (calls & a & sec & nsec & Hrun & _).
  - vm_compute. intros H. discriminate H.
  - reflexivity.
  - right. vm_compute. reflexivity.
  - vm_compute. reflexivity.
Defined.

(** The counter wraps around to 0. *)
Lemma futex_broadcast_changes_counter_witness :
  (gst_futex_cond_broadcast true true true 38 (2 ^ 32 - 1) (0, 0)).1 = 0.
Proof.
  destruct (futex_broadcast_changes_counter true true true 38 (2 ^ 32 - 1) (0, 0))
    as (v & calls & Hrun & _ & Hb & [Hv|[_ Hv]] & _).
  - vm_compute. split; [intros H; discriminate H | reflexivity].
  - lia.
  - rewrite Hrun. exact Hv.
Defined.

(** The entry due at 20 is fired at 25, with 20, and leaves the queue. *)
Lemma dispatcher_fires_due_head_witness :
  async_loop 100 true 2 due_world =
  after [EvEntryLock 1; EvClockUnlock; EvEntryUnlock 1; EvEntryLock 1; EvEntryUnlock 1;
         EvCallback 1 20; EvClockLock; EvUnref 1]
    (async_loop 100 true 1
       (world_of {[ 1%nat := with_status GST_CLOCK_EARLY due_entry ]} [] [])).
Proof.
  rewrite (dispatcher_fires_due_head 100 true 1 1 [] due_world due_entry
             (with_status GST_CLOCK_BUSY due_entry) (quiet_step_at 25) (quiet_step_at 0) []).
  - vm_compute. reflexivity.
  - reflexivity.
  - reflexivity.
  - vm_compute. reflexivity.
  - reflexivity.
  - left. reflexivity.
  - reflexivity.
  - vm_compute. reflexivity.
  - discriminate.
  - vm_compute. intros H. discriminate H.
  - reflexivity.
  - discriminate.
Defined.

(** The dispatcher runs through the queue and stops when told to. *)
Lemma dispatcher_never_asserts_witness :
  queue_ready (final (gst_system_clock_async_thread 100 true 10 skip_world)).
Proof.
  assert (gst_system_clock_async_thread 100 true 10 skip_world =
          Ret tt (final (gst_system_clock_async_thread 100 true 10 skip_world))
            (trace (gst_system_clock_async_thread 100 true 10 skip_world))) as Hrun
    by (vm_compute; reflexivity).
  pose proof (dispatcher_never_asserts 100 true 10 skip_world) as H.
  rewrite Hrun in H. apply H.
  - unfold queue_ready. vm_compute. repeat constructor.
  - vm_compute. reflexivity.
Defined.


(** The wait for an entry due in one millisecond is ended by a wake-up:
    the entry stays queued, with status OK. *)
Lemma dispatcher_restarts_after_wakeup_witness :
  async_loop 100 true 2 woken_world =
  after [EvEntryLock 1; EvClockUnlock; EvEntryUnlock 1; EvEntryLock 1;
         EvEntryWaitUntil 1 500000; EvEntryUnlock 1; EvClockLock]
    (async_loop 100 true 1
       (world_of
          {[ 1%nat := mkEntry 1000000 0 GST_CLOCK_ENTRY_SINGLE GST_CLOCK_OK true true ]}
          [1%nat] [])).
Proof.
  rewrite (dispatcher_restarts_after_wakeup 100 true 0 1 [] woken_world
             (mkEntry 1000000 0 GST_CLOCK_ENTRY_SINGLE GST_CLOCK_OK true true)
             (mkEntry 1000000 0 GST_CLOCK_ENTRY_SINGLE GST_CLOCK_BUSY true true)
             (mkEntry 1000000 0 GST_CLOCK_ENTRY_SINGLE GST_CLOCK_BUSY true true)
             (quiet_step_at 0) (mkEnv 0 0 1 []) (quiet_step_at 0) []).
  - vm_compute. reflexivity.
  - reflexivity.
  - reflexivity.
  - vm_compute. reflexivity.
  - reflexivity.
  - left. reflexivity.
  - reflexivity.
  - vm_compute. reflexivity.
  - discriminate.
  - vm_compute. reflexivity.
  - vm_compute. reflexivity.
  - reflexivity.
  - vm_compute. reflexivity.
Defined.

(** With [clock_nanosleep] and a floor of 100 ns, the entry due in 300
    microseconds is fired in the second pass. *)
Lemma nanosleep_entry_still_fired_witness :
  ∃ r w',
    async_loop 100 true 3 sleep_world =
    after [EvEntryLock 1; EvClockUnlock; EvEntryUnlock 1; EvEntryLock 1;
           EvEntryUnlock 1; EvNanosleep 300000; EvEntryLock 1; EvEntryUnlock 1; EvClockLock;
           EvEntryLock 1; EvClockUnlock; EvEntryUnlock 1; EvEntryLock 1; EvEntryUnlock 1;
           EvCallback 1 300100; EvClockLock; EvUnref 1]
      (async_loop 100 true 1 w') ∧
    (r = GST_CLOCK_OK ∨ r = GST_CLOCK_EARLY) ∧
    entries (priv w') = [].
Proof.
  destruct (nanosleep_entry_still_fired 100 true 0 1 [] sleep_world sleep_entry
              (quiet_step_at 100) (quiet_step_at 0) (quiet_step_at 0)
              (quiet_step_at 300100) (quiet_step_at 0) [])
    as (r & w' & Hrun & Hr & _ & Hq & _).
  - reflexivity.
  - reflexivity.
  - reflexivity.
  - vm_compute. reflexivity.
  - reflexivity.
  - reflexivity.
  - reflexivity.
  - discriminate.
  - reflexivity.
  - repeat constructor.
  - vm_compute. split; [reflexivity | intros H; discriminate H].
  - reflexivity.
  - vm_compute. intros H. discriminate H.
  - exists r, w'. split; [exact Hrun |]. split; [exact Hr | exact Hq].
Defined.

(** The submission of entry 1 creates its lock and leaves the lock of the
    queued entry 2 alone. *)
Lemma entry_lock_created_once_witness :
  lock_kept 2 (trace (gst_system_clock_id_wait_async 1 (world_of queue_heap [2%nat] [])))
    (final (gst_system_clock_id_wait_async 1 (world_of queue_heap [2%nat] []))) ∧
  inits (trace (gst_system_clock_id_wait_async 1 (world_of queue_heap [2%nat] []))) = [1%nat].
Proof.
  split; [| vm_compute; reflexivity].
  destruct (entry_lock_created_once 100 true 0 1 2 false (world_of queue_heap [2%nat] []))
    as (_ & H & _).
  - vm_compute. reflexivity.
  - exact H.
Defined.

(** The wait that timed out returns OK on the reading of one millisecond,
    the last answer it took. *)
Lemma sync_wait_ok_means_due_witness :
  ∃ pre s,
    env (sync_world GST_CLOCK_OK false) =
      pre ++ s :: env (final (gst_system_clock_id_wait_jitter 100 true 3 1 true
                                (sync_world GST_CLOCK_OK false))) ∧
    GST_CLOCK_DIFF (wrap_u64 (env_now s)) 1000000 ≤ 100.
Proof.
  apply (sync_wait_ok_means_due 100 true 3 1 true (sync_world GST_CLOCK_OK false)
           (final (gst_system_clock_id_wait_jitter 100 true 3 1 true
                     (sync_world GST_CLOCK_OK false)))
           (mkEntry 1000000 0 GST_CLOCK_ENTRY_SINGLE GST_CLOCK_OK false false)
           GST_CLOCK_OK
           (trace (gst_system_clock_id_wait_jitter 100 true 3 1 true
                     (sync_world GST_CLOCK_OK false)))).
  - vm_compute. reflexivity.
  - vm_compute. reflexivity.
  - left. reflexivity.
Defined.


(** The clock is disposed while the dispatcher waits for the head of a
    queue of two: the head is dropped, the thread leaves the loop, and the
    second entry stays queued. *)
Lemma dispatcher_stops_when_disposed_witness :
  ∃ w',
    async_loop 100 true 2 disposed_world =
    Ret tt w'
      [EvEntryLock 1; EvClockUnlock; EvEntryUnlock 1; EvEntryLock 1;
       EvEntryWaitUntil 1 500000; EvEntryUnlock 1; EvClockLock; EvUnref 1] ∧
    entries (priv w') = [2%nat].
Proof.
  eexists. split.
  - rewrite (dispatcher_stops_when_disposed 100 true 0 1 [2%nat] disposed_world
               (mkEntry 1000000 0 GST_CLOCK_ENTRY_SINGLE GST_CLOCK_OK true true)
               (mkEntry 1000000 0 GST_CLOCK_ENTRY_SINGLE GST_CLOCK_BUSY true true)
               (mkEntry 1000000 0 GST_CLOCK_ENTRY_SINGLE GST_CLOCK_UNSCHEDULED true true)
               (quiet_step_at 0)
               (mkEnv 0 0 1 [EnvStop; EnvStatus 1 GST_CLOCK_UNSCHEDULED;
                             EnvStatus 2 GST_CLOCK_UNSCHEDULED])
               (quiet_step_at 0) []).
    + vm_compute. reflexivity.
    + reflexivity.
    + reflexivity.
    + vm_compute. reflexivity.
    + reflexivity.
    + left. reflexivity.
    + reflexivity.
    + vm_compute. reflexivity.
    + discriminate.
    + vm_compute. reflexivity.
    + vm_compute. reflexivity.
    + reflexivity.
    + vm_compute. reflexivity.
  - vm_compute. reflexivity.
Defined.

(** The thread cannot be created, and the address given is not an entry. *)
Lemma wait_async_error_path_witness :
  gst_system_clock_id_wait_async 7 no_thread_world =
  Ret GST_CLOCK_ERROR no_thread_world [EvClockLock; EvThreadNew; EvWarning; EvClockUnlock].
Proof.
  apply (wait_async_error_path 7 no_thread_world).
  - reflexivity.
  - reflexivity.
Defined.


(** The discipline is not empty: taking the clock lock under an entry
    lock, a callback under the clock lock and a wait on an entry's
    condition with the clock lock held are refused. *)
Lemma lock_discipline_refuses :
  lock_run unlocked [EvEntryLock 1; EvClockLock] = None ∧
  lock_run unlocked [EvClockLock; EvCallback 1 0] = None ∧
  lock_run unlocked [EvClockLock; EvEntryLock 1; EvEntryWaitUntil 1 0] = None.
Proof. split_and!; vm_compute; reflexivity. Qed.

(** Nor are the stricter ones: a synchronous wait that took the entry
    lock before it released the clock lock, and an unschedule that released
    the clock lock before it took the entry lock, are refused, while the
    events in the order of the code are accepted. *)
Lemma lock_sides_refuse :
  lock_run_at false unlocked [EvClockLock; EvEntryLock 1; EvClockUnlock; EvEntryUnlock 1]
    = None ∧
  lock_run_at false unlocked [EvClockLock; EvClockUnlock; EvEntryLock 1; EvEntryUnlock 1]
    = Some unlocked ∧
  lock_run_at true unlocked [EvClockLock; EvClockUnlock; EvEntryLock 1; EvEntryUnlock 1]
    = None ∧
  lock_run_at true unlocked [EvClockLock; EvEntryLock 1; EvEntryUnlock 1; EvClockUnlock]
    = Some unlocked.
Proof. split_and!; vm_compute; reflexivity. Qed.
